(** * AutoCrew command-line driver ([autocrew.py]): a shallow embedding

    The development follows the layout of the script:
    - Python values the script relies on (strings, [int()], exceptions);
    - [packaging.version] as used by the version check;
    - [configparser.ConfigParser] as used by the configuration merge;
    - the process state (working directory, root logger, standard streams)
      and the monad in which the script's functions run;
    - [initialize_logging], [positive_int], [check_latest_version],
      [upgrade_autocrew] and [main];
    - the properties checked against the specification. *)

From Stdlib Require Import ZArith NArith String Ascii List Lia.
From Stdlib Require DecimalString DecimalPos DecimalN.
From stdpp Require Import base option gmap strings list fin_maps.

#[local] Open Scope string_scope.
#[local] Open Scope list_scope.
#[local] Set Warnings "-register-all".

(** ** Characters and strings *)

Module Str.

Definition code (c : ascii) : N := N_of_ascii c.

Definition is_digit (c : ascii) : bool :=
  (48 <=? code c)%N && (code c <=? 57)%N.

(** ASCII part of [str.isspace] / the regular-expression class [\s]. *)
Definition is_space (c : ascii) : bool :=
  ((9 <=? code c)%N && (code c <=? 13)%N)
  || ((28 <=? code c)%N && (code c <=? 32)%N).

Definition is_upper (c : ascii) : bool :=
  (65 <=? code c)%N && (code c <=? 90)%N.

Definition is_lower (c : ascii) : bool :=
  (97 <=? code c)%N && (code c <=? 122)%N.

Definition is_alnum (c : ascii) : bool :=
  is_digit c || is_upper c || is_lower c.

Definition lower_char (c : ascii) : ascii :=
  if is_upper c then ascii_of_N (code c + 32) else c.

Definition upper_char (c : ascii) : ascii :=
  if is_lower c then ascii_of_N (code c - 32) else c.

Fixpoint map (f : ascii -> ascii) (s : string) : string :=
  match s with
  | EmptyString => EmptyString
  | String c r => String (f c) (map f r)
  end.

(** [str.lower] and [str.upper] on ASCII text. *)
Definition lower : string -> string := map lower_char.
Definition upper : string -> string := map upper_char.

Fixpoint take_while (p : ascii -> bool) (s : string) : string * string :=
  match s with
  | EmptyString => (EmptyString, EmptyString)
  | String c r =>
      if p c then let '(a, b) := take_while p r in (String c a, b)
      else (EmptyString, s)
  end.

Fixpoint drop_while (p : ascii -> bool) (s : string) : string :=
  match s with
  | EmptyString => EmptyString
  | String c r => if p c then drop_while p r else s
  end.

Fixpoint rev_onto (s acc : string) : string :=
  match s with
  | EmptyString => acc
  | String c r => rev_onto r (String c acc)
  end.

Definition rev (s : string) : string := rev_onto s EmptyString.

(** [str.strip()] with no argument. *)
Definition strip (s : string) : string :=
  rev (drop_while is_space (rev (drop_while is_space s))).

(** [s.startswith(p)], returning the remainder. *)
Fixpoint strip_prefix (p s : string) : option string :=
  match p, s with
  | EmptyString, _ => Some s
  | String a p', String b s' =>
      if Ascii.eqb a b then strip_prefix p' s' else None
  | String _ _, EmptyString => None
  end.

(** [c in s] for a single character [c]. *)
Fixpoint mem (c : ascii) (s : string) : bool :=
  match s with
  | EmptyString => false
  | String d r => Ascii.eqb c d || mem c r
  end.

Fixpoint digits_value (s : string) (acc : N) : N :=
  match s with
  | EmptyString => acc
  | String c r => digits_value r (10 * acc + (code c - 48))%N
  end.

(** Lexicographic comparison by code point, as Python compares [str]. *)
Fixpoint compare (a b : string) : comparison :=
  match a, b with
  | EmptyString, EmptyString => Eq
  | EmptyString, String _ _ => Lt
  | String _ _, EmptyString => Gt
  | String x a', String y b' =>
      match N.compare (code x) (code y) with
      | Eq => compare a' b'
      | o => o
      end
  end.

(** [s.find(c)] for a character that occurs in [s]. *)
Fixpoint find (c : ascii) (s : string) : N :=
  match s with
  | EmptyString => 0
  | String d r => if Ascii.eqb c d then 0 else (1 + find c r)%N
  end.

(** [repr(s)] for ASCII text: in single quotes, or in double quotes when
    the text has a single quote and no double one; the quote, the
    backslash and the control characters are escaped. *)
Definition double_quote : ascii := ascii_of_nat 34.

Definition hex_digit (n : N) : ascii :=
  ascii_of_N (if (n <? 10)%N then 48 + n else 87 + n).

Definition repr_char (quote c : ascii) : string :=
  if Ascii.eqb c quote || Ascii.eqb c "\" then String "\" (String c "")
  else if (code c =? 9)%N then "\t"
  else if (code c =? 10)%N then "\n"
  else if (code c =? 13)%N then "\r"
  else if (code c <? 32)%N || (code c =? 127)%N then
    String "\" (String "x" (String (hex_digit (code c / 16))
                              (String (hex_digit (code c mod 16)) "")))
  else String c "".

Fixpoint repr_body (quote : ascii) (s : string) : string :=
  match s with
  | EmptyString => EmptyString
  | String c r => repr_char quote c +:+ repr_body quote r
  end.

Definition repr (s : string) : string :=
  let quote :=
    if mem "'" s && negb (mem double_quote s) then double_quote else "'"%char in
  String quote (repr_body quote s +:+ String quote "").

Fixpoint join (sep : string) (l : list string) : string :=
  match l with
  | [] => ""
  | [x] => x
  | x :: r => x +:+ sep +:+ join sep r
  end.

End Str.

(** ** Exceptions and results *)

(** The exception classes that the script, the standard library or
    [packaging] can raise on the paths modelled here.  [SystemExit] is kept
    apart: it is a [BaseException], so [except Exception] does not catch it. *)
Inductive exn_class :=
| ValueError
| TypeError
| KeyError
| EOFError
| FileNotFoundError
| FileExistsError
| IsADirectoryError
| NotADirectoryError
| ArgumentTypeError
| InvalidVersion
| ConnectionError
| HTTPError
| JSONDecodeError
| ParsingError
| MissingSectionHeaderError
| DuplicateOptionError
| NoSectionError
| NoOptionError
| DuplicateSectionError
| InterpolationSyntaxError
| InterpolationMissingOptionError
| InterpolationDepthError.

Inductive exn :=
| Exception (cls : exn_class) (msg : string)
| SystemExit (code : Z).

Inductive result (A : Type) :=
| Ok (a : A)
| Raise (e : exn).
Arguments Ok {A} a.
Arguments Raise {A} e.

Definition result_bind {A B} (r : result A) (k : A -> result B) : result B :=
  match r with
  | Ok a => k a
  | Raise e => Raise e
  end.

Declare Scope result_scope.
Delimit Scope result_scope with result.
Notation "x <-? r ; k" := (result_bind r (fun x => k))
  (at level 100, r at next level, right associativity,
   format "'[v' x  <-?  r ; '/' k ']'") : result_scope.
#[local] Open Scope result_scope.

Definition raise {A} (cls : exn_class) (msg : string) : result A :=
  Raise (Exception cls msg).

(** ** The builtin [int()] on text *)

(** [int(text)] in base 10 on ASCII text, as CPython 3.11 reads it:
    surrounding whitespace is ignored, one sign is allowed, the digits may
    be grouped by single underscores, and a numeral of more than 4300 digits
    is refused.  [None] stands for [ValueError]. *)
Module pyint.

(** [sys.get_int_max_str_digits()], as the interpreter starts. *)
Definition max_str_digits : N := 4300.

(** The digits of a numeral, leading zeros included; underscores are not
    counted. *)
Fixpoint count_digits (s : string) : N :=
  match s with
  | EmptyString => 0
  | String c r => ((if Str.is_digit c then 1 else 0) + count_digits r)%N
  end.

Definition is_c_space (c : ascii) : bool :=
  ((9 <=? Str.code c)%N && (Str.code c <=? 13)%N) || (Str.code c =? 32)%N.

Definition strip (s : string) : string :=
  Str.rev (Str.drop_while is_c_space (Str.rev (Str.drop_while is_c_space s))).

Fixpoint digits (s : string) (after_digit : bool) (acc : N) : option N :=
  match s with
  | EmptyString => if after_digit then Some acc else None
  | String c r =>
      if Str.is_digit c then
        digits r true (10 * acc + (Str.code c - 48))%N
      else if Ascii.eqb c "_" && after_digit then digits r false acc
      else None
  end.

(** The number after the sign. *)
Definition magnitude (s : string) : option N :=
  if (max_str_digits <? count_digits s)%N then None
  else digits s false 0%N.

Definition int (text : string) : option Z :=
  match strip text with
  | String "-" r => (fun n => (- Z.of_N n)%Z) <$> magnitude r
  | String "+" r => Z.of_N <$> magnitude r
  | s => Z.of_N <$> magnitude s
  end.

(** [str(n)] for a natural number [n]. *)
Definition str (n : N) : string :=
  DecimalString.NilEmpty.string_of_uint (N.to_uint n).

(** The text of the [ValueError] for a numeral of [n] digits. *)
Definition limit_message (n : N) : string :=
  "Exceeds the limit (4300 digits) for integer string conversion: value has "
  +:+ str n
  +:+ " digits; use sys.set_int_max_str_digits() to increase the limit".

End pyint.

(** ** [packaging.version] *)

(** [version.parse] and the ordering of [Version] objects, after PEP 440 as
    implemented by [packaging] (release 22 and later, where a string that is
    not a PEP 440 version raises [InvalidVersion]).  The numbers of a
    version are converted with [int()], which refuses a numeral of more
    than 4300 digits. *)
Module version.

Inductive local_part :=
| LNum (n : N)
| LStr (s : string).

Record Version := {
  epoch : N;
  release : list N;
  pre : option (string * N);
  post : option N;
  dev : option N;
  local : option (list local_part)
}.

Definition parser (A : Type) := string -> option (A * string).

(** [[0-9]+] *)
Definition number : parser N := fun s =>
  match Str.take_while Str.is_digit s with
  | (EmptyString, _) => None
  | (ds, r) => Some (Str.digits_value ds 0%N, r)
  end.

(** [[-_\.]?] *)
Definition opt_sep (s : string) : string :=
  match s with
  | String c r =>
      if Str.mem c "-_." then r else s
  | EmptyString => s
  end.

(** [([0-9]+)?], an absent number reading as [0]. *)
Definition opt_number (s : string) : N * string :=
  match number s with
  | Some (n, r) => (n, r)
  | None => (0%N, s)
  end.

(** First alternative of a list of spellings that is a prefix of the
    input, with its normal form. *)
Fixpoint letters (alts : list (string * string)) (s : string)
  : option (string * string) :=
  match alts with
  | [] => None
  | (spelling, norm) :: alts' =>
      match Str.strip_prefix spelling s with
      | Some r => Some (norm, r)
      | None => letters alts' s
      end
  end.

(** [(?:(?P<epoch>[0-9]+)!)?] *)
Definition epoch_seg (s : string) : N * string :=
  match number s with
  | Some (n, String "!" r) => (n, r)
  | _ => (0%N, s)
  end.

(** [(?:\.[0-9]+)*], one step per dot. *)
Fixpoint release_tail (fuel : nat) (s : string) : list N * string :=
  match fuel with
  | O => ([], s)
  | S fuel' =>
      match s with
      | String "." r =>
          match number r with
          | Some (n, r') =>
              let '(ns, r'') := release_tail fuel' r' in (n :: ns, r'')
          | None => ([], s)
          end
      | _ => ([], s)
      end
  end.

(** The release segment: [[0-9]+] followed by any number of [\.[0-9]+]. *)
Definition release_seg : parser (list N) := fun s =>
  match number s with
  | Some (n, r) =>
      let '(ns, r') := release_tail (String.length r) r in Some (n :: ns, r')
  | None => None
  end.

(** [[-_\.]?(alpha|a|beta|b|preview|pre|c|rc)[-_\.]?([0-9]+)?] *)
Definition pre_seg (s : string) : option (string * N) * string :=
  match letters [("alpha", "a"); ("a", "a"); ("beta", "b"); ("b", "b");
                 ("preview", "rc"); ("pre", "rc"); ("c", "rc"); ("rc", "rc")]
                (opt_sep s) with
  | Some (l, r) => let '(n, r') := opt_number (opt_sep r) in (Some (l, n), r')
  | None => (None, s)
  end.

(** [(?:-([0-9]+))|(?:[-_\.]?(post|rev|r)[-_\.]?([0-9]+)?)] *)
Definition post_seg (s : string) : option N * string :=
  match match s with String "-" r => number r | _ => None end with
  | Some (n, r) => (Some n, r)
  | None =>
      match letters [("post", "post"); ("rev", "post"); ("r", "post")]
                    (opt_sep s) with
      | Some (_, r) => let '(n, r') := opt_number (opt_sep r) in (Some n, r')
      | None => (None, s)
      end
  end.

(** [[-_\.]?dev[-_\.]?([0-9]+)?] *)
Definition dev_seg (s : string) : option N * string :=
  match Str.strip_prefix "dev" (opt_sep s) with
  | Some r => let '(n, r') := opt_number (opt_sep r) in (Some n, r')
  | None => (None, s)
  end.

(** One component of a local version: digits only reads as a number. *)
Definition local_of (part : string) : local_part :=
  match Str.drop_while Str.is_digit part with
  | EmptyString => LNum (Str.digits_value part 0%N)
  | _ => LStr part
  end.

(** [(?:[-_\.][a-z0-9]+)*] *)
Fixpoint local_tail (fuel : nat) (s : string) : list local_part * string :=
  match fuel with
  | O => ([], s)
  | S fuel' =>
      match s with
      | String c r =>
          if Str.mem c "-_." then
            match Str.take_while Str.is_alnum r with
            | (EmptyString, _) => ([], s)
            | (part, r') =>
                let '(ps, r'') := local_tail fuel' r' in
                (local_of part :: ps, r'')
            end
          else ([], s)
      | EmptyString => ([], s)
      end
  end.

(** The optional local segment: [\+[a-z0-9]+] followed by any number of
    [[-_\.][a-z0-9]+]. *)
Definition local_seg (s : string) : option (list local_part) * string :=
  match s with
  | String "+" r =>
      match Str.take_while Str.is_alnum r with
      | (EmptyString, _) => (None, s)
      | (part, r') =>
          let '(ps, r'') := local_tail (String.length r') r' in
          (Some (local_of part :: ps), r'')
      end
  | _ => (None, s)
  end.

(** The anchored, case-insensitive match of [Version.__init__]:
    [^\s*v?(epoch!)?release(pre)?(post)?(dev)?(\+local)?\s*$]. *)
Definition match_version (text : string) : option Version :=
  let s := Str.drop_while Str.is_space (Str.lower text) in
  let s := match s with String "v" r => r | _ => s end in
  let '(e, s) := epoch_seg s in
  match release_seg s with
  | None => None
  | Some (rel, s) =>
      let '(p, s) := pre_seg s in
      let '(po, s) := post_seg s in
      let '(d, s) := dev_seg s in
      let '(l, s) := local_seg s in
      match Str.drop_while Str.is_space s with
      | EmptyString =>
          Some {| epoch := e; release := rel; pre := p; post := po;
                  dev := d; local := l |}
      | _ => None
      end
  end.

(** The numerals that [Version.__init__] converts with [int()] once the
    text has matched, by their numbers of digits and in the order of the
    conversions, which is that of the text: before the [+] every run of
    digits is one (the epoch, the components of the release, the numbers of
    the pre-, post- and dev-release); after it, the components of the
    local version that are made of digits only. *)
Definition flush (run : N) : list N :=
  if (run =? 0)%N then [] else [run].

Fixpoint local_numerals (s : string) (run : option N) : list N :=
  match s with
  | EmptyString => from_option flush [] run
  | String c r =>
      if Str.mem c "-_." || Str.is_space c then
        from_option flush [] run ++ local_numerals r (Some 0%N)
      else if Str.is_digit c then
        local_numerals r ((fun n => n + 1)%N <$> run)
      else local_numerals r None
  end.

Fixpoint numerals (s : string) (run : N) : list N :=
  match s with
  | EmptyString => flush run
  | String c r =>
      if Ascii.eqb c "+" then flush run ++ local_numerals r (Some 0%N)
      else if Str.is_digit c then numerals r (run + 1)%N
      else flush run ++ numerals r 0%N
  end.

Definition parse (text : string) : result Version :=
  match match_version text with
  | Some v =>
      match List.find (fun n => (pyint.max_str_digits <? n)%N)
              (numerals text 0%N) with
      | Some n => raise ValueError (pyint.limit_message n)
      | None => Ok v
      end
  | None => raise InvalidVersion ("Invalid version: '" +:+ text +:+ "'")
  end.

(** *** Ordering: [_cmpkey] and tuple comparison *)

Definition lex (c : comparison) (k : comparison) : comparison :=
  match c with Eq => k | _ => c end.

Fixpoint strip_zeros (l : list N) : list N :=
  match l with
  | [] => []
  | n :: r =>
      match strip_zeros r with
      | [] => if (n =? 0)%N then [] else [n]
      | r' => n :: r'
      end
  end.

Fixpoint compare_release (a b : list N) : comparison :=
  match a, b with
  | [], [] => Eq
  | [], _ :: _ => Lt
  | _ :: _, [] => Gt
  | x :: a', y :: b' => lex (N.compare x y) (compare_release a' b')
  end.

(** A key component that may be replaced by [-Infinity] or [Infinity]. *)
Inductive bounded (A : Type) :=
| NegInf
| Fin (a : A)
| PosInf.
Arguments NegInf {A}.
Arguments Fin {A} a.
Arguments PosInf {A}.

Definition compare_bounded {A} (cmp : A -> A -> comparison)
  (a b : bounded A) : comparison :=
  match a, b with
  | NegInf, NegInf => Eq
  | NegInf, _ => Lt
  | _, NegInf => Gt
  | PosInf, PosInf => Eq
  | PosInf, _ => Gt
  | _, PosInf => Lt
  | Fin x, Fin y => cmp x y
  end.

Definition compare_letter_number (a b : string * N) : comparison :=
  lex (Str.compare (fst a) (fst b)) (N.compare (snd a) (snd b)).

(** Numeric parts [(i, "")] sort above textual parts [(-Infinity, s)]. *)
Definition compare_local_part (a b : local_part) : comparison :=
  match a, b with
  | LNum x, LNum y => N.compare x y
  | LNum _, LStr _ => Gt
  | LStr _, LNum _ => Lt
  | LStr x, LStr y => Str.compare x y
  end.

Fixpoint compare_local (a b : list local_part) : comparison :=
  match a, b with
  | [], [] => Eq
  | [], _ :: _ => Lt
  | _ :: _, [] => Gt
  | x :: a', y :: b' => lex (compare_local_part x y) (compare_local a' b')
  end.

Definition key_pre (v : Version) : bounded (string * N) :=
  match pre v, post v, dev v with
  | None, None, Some _ => NegInf
  | None, _, _ => PosInf
  | Some p, _, _ => Fin p
  end.

Definition key_post (v : Version) : bounded N :=
  match post v with None => NegInf | Some n => Fin n end.

Definition key_dev (v : Version) : bounded N :=
  match dev v with None => PosInf | Some n => Fin n end.

Definition key_local (v : Version) : bounded (list local_part) :=
  match local v with None => NegInf | Some l => Fin l end.

Definition compare (a b : Version) : comparison :=
  lex (N.compare (epoch a) (epoch b))
 (lex (compare_release (strip_zeros (release a)) (strip_zeros (release b)))
 (lex (compare_bounded compare_letter_number (key_pre a) (key_pre b))
 (lex (compare_bounded N.compare (key_post a) (key_post b))
 (lex (compare_bounded N.compare (key_dev a) (key_dev b))
      (compare_bounded compare_local (key_local a) (key_local b)))))).

(** [a > b] *)
Definition gt (a b : Version) : bool :=
  match compare a b with Gt => true | _ => false end.

End version.

Definition AUTOCREW_VERSION : string := "2.1.4".

(** ** The release descriptor fetched by the version check *)

Inductive json :=
| JNull
| JBool (b : bool)
| JNumber (n : Z)
| JString (s : string)
| JArray (items : list json)
| JObject (fields : list (string * json)).

(** What [requests.get(...)] produces: the call itself fails, or a response
    arrives with a status code, its reason phrase and a body that is JSON
    text or is not. *)
Inductive body :=
| NotJson (why : string)
| JsonBody (j : json).

Inductive response :=
| GetFails (why : string)
| Response (status : Z) (reason : string) (b : body).

(** [d[key]] on a decoded JSON value; a later duplicate of a key wins, as in
    [json.loads]. *)
Fixpoint field (key : string) (fields : list (string * json)) : option json :=
  match fields with
  | [] => None
  | (k, v) :: r =>
      match field key r with
      | Some w => Some w
      | None => if String.eqb k key then Some v else None
      end
  end.

Definition subscript (j : json) (key : string) : result json :=
  match j with
  | JObject fields =>
      match field key fields with
      | Some v => Ok v
      | None => raise KeyError ("'" +:+ key +:+ "'")
      end
  | JArray _ => raise TypeError "list indices must be integers or slices, not str"
  | JString _ => raise TypeError "string indices must be integers"
  | JNull => raise TypeError "'NoneType' object is not subscriptable"
  | JBool _ => raise TypeError "'bool' object is not subscriptable"
  | JNumber _ => raise TypeError "'int' object is not subscriptable"
  end.

(** ** [configparser.ConfigParser] *)

Module configparser.

(** Insertion-ordered dictionaries with text keys. *)
Section Dict.
Context {V : Type}.

Fixpoint dict_get (k : string) (d : list (string * V)) : option V :=
  match d with
  | [] => None
  | (k', v) :: r => if String.eqb k' k then Some v else dict_get k r
  end.

(** [d[k] = v]: an existing key keeps its position, a new key goes last. *)
Fixpoint dict_set (k : string) (v : V) (d : list (string * V))
  : list (string * V) :=
  match d with
  | [] => [(k, v)]
  | (k', v') :: r =>
      if String.eqb k' k then (k', v) :: r else (k', v') :: dict_set k v r
  end.

Definition dict_has (k : string) (d : list (string * V)) : bool :=
  match dict_get k d with Some _ => true | None => false end.

(** [d.update(e)] *)
Definition dict_update (d e : list (string * V)) : list (string * V) :=
  fold_left (fun acc kv => dict_set (fst kv) (snd kv) acc) e d.

End Dict.

Definition dict := list (string * string).

(** The parser state: [_defaults] (the [DEFAULT] section) and [_sections]. *)
Record ConfigParser := {
  defaults : dict;
  sections_map : list (string * dict)
}.

Definition empty : ConfigParser := {| defaults := []; sections_map := [] |}.

Definition default_section : string := "DEFAULT".
Definition MAX_INTERPOLATION_DEPTH : nat := 10.

(** Option names are lower-cased on the way in. *)
Definition optionxform (option : string) : string := Str.lower option.

Definition sections (cfg : ConfigParser) : list string :=
  List.map fst (sections_map cfg).

Definition has_section (cfg : ConfigParser) (section : string) : bool :=
  dict_has section (sections_map cfg).

Definition add_section (cfg : ConfigParser) (section : string)
  : result ConfigParser :=
  if String.eqb section default_section then
    raise ValueError ("Invalid section name: '" +:+ section +:+ "'")
  else if has_section cfg section then
    raise DuplicateSectionError section
  else
    Ok {| defaults := defaults cfg;
          sections_map := dict_set section [] (sections_map cfg) |}.

Definition is_default (section : string) : bool :=
  String.eqb section "" || String.eqb section default_section.

Definition has_option (cfg : ConfigParser) (section option : string) : bool :=
  if is_default section then dict_has (optionxform option) (defaults cfg)
  else
    match dict_get section (sections_map cfg) with
    | None => false
    | Some d =>
        dict_has (optionxform option) d
        || dict_has (optionxform option) (defaults cfg)
    end.

(** *** [BasicInterpolation] *)

(** [_KEYCRE.match(rest)] for the pattern [%\(([^)]+)\)s]: the reference
    name and what follows the reference. *)
Definition keycre_match (rest : string) : option (string * string) :=
  match rest with
  | String "%" (String "(" r) =>
      match Str.take_while (fun c => negb (Ascii.eqb c ")")) r with
      | (String c name, String ")" (String "s" r')) => Some (String c name, r')
      | _ => None
      end
  | _ => None
  end.

(** The [while rest:] loop of [_interpolate_some]; [deeper] is the call
    made for a referenced value that itself holds a [%], [fuel] bounds the
    number of turns. *)
Fixpoint scan (deeper : string -> result string) (map : dict) (fuel : nat)
  (rest : string) : result string :=
  match fuel with
  | O => Ok rest
  | S fuel' =>
      let '(plain, rest) :=
        Str.take_while (fun c => negb (Ascii.eqb c "%")) rest in
      match rest with
      | EmptyString => Ok plain
      | String _ EmptyString =>
          raise InterpolationSyntaxError "'%' must be followed by '%' or '('"
      | String _ (String c r) =>
          if Ascii.eqb c "%" then
            tail <-? scan deeper map fuel' r;
            Ok (plain +:+ "%" +:+ tail)
          else if Ascii.eqb c "(" then
            match keycre_match rest with
            | None =>
                raise InterpolationSyntaxError
                  "bad interpolation variable reference"
            | Some (name, r') =>
                match dict_get (optionxform name) map with
                | None =>
                    raise InterpolationMissingOptionError (optionxform name)
                | Some v =>
                    value <-? (if Str.mem "%" v then deeper v else Ok v);
                    tail <-? scan deeper map fuel' r';
                    Ok (plain +:+ value +:+ tail)
                end
            end
          else
            raise InterpolationSyntaxError
              "'%' must be followed by '%' or '('"
      end
  end.

(** [_interpolate_some]: [levels] counts the nesting still allowed (the
    call at depth [d] has [MAX_INTERPOLATION_DEPTH + 1 - d] left). *)
Fixpoint interpolate_some (levels : nat) (map : dict) (rest : string)
  : result string :=
  match levels with
  | O =>
      raise InterpolationDepthError
        "Recursion limit exceeded in value substitution"
  | S levels' =>
      scan (interpolate_some levels' map) map (S (String.length rest)) rest
  end.

Definition before_get (value : string) (defaults : dict) : result string :=
  interpolate_some MAX_INTERPOLATION_DEPTH defaults value.

(** [value.replace('%%', '')] *)
Fixpoint remove_escaped (s : string) : string :=
  match s with
  | String "%" (String "%" r) => remove_escaped r
  | String c r => String c (remove_escaped r)
  | EmptyString => EmptyString
  end.

(** [_KEYCRE.sub('', s)] *)
Fixpoint remove_references (fuel : nat) (s : string) : string :=
  match fuel with
  | O => s
  | S fuel' =>
      match s with
      | EmptyString => EmptyString
      | String c r =>
          match keycre_match s with
          | Some (_, r') => remove_references fuel' r'
          | None => String c (remove_references fuel' r)
          end
      end
  end.

Definition before_set (value : string) : result string :=
  let tmp_value := remove_escaped value in
  let tmp_value := remove_references (String.length tmp_value) tmp_value in
  if Str.mem "%" tmp_value then
    raise ValueError
      ("invalid interpolation syntax in " +:+ Str.repr value
       +:+ " at position " +:+ pyint.str (Str.find "%" tmp_value))
  else Ok value.

Fixpoint mapM {A B} (f : A -> result B) (l : list A) : result (list B) :=
  match l with
  | [] => Ok []
  | a :: r =>
      b <-? f a;
      bs <-? mapM f r;
      Ok (b :: bs)
  end.

Fixpoint foldM {A B} (f : B -> A -> result B) (b : B) (l : list A)
  : result B :=
  match l with
  | [] => Ok b
  | a :: r =>
      b' <-? f b a;
      foldM f b' r
  end.

(** [get(section, option)] *)
Definition get (cfg : ConfigParser) (section option : string)
  : result string :=
  d <-? match dict_get section (sections_map cfg) with
        | Some sect => Ok (dict_update (defaults cfg) sect)
        | None =>
            if String.eqb section default_section then Ok (defaults cfg)
            else raise NoSectionError section
        end;
  match dict_get (optionxform option) d with
  | None => raise NoOptionError (optionxform option)
  | Some value => before_get value d
  end.

(** [items(section)]: the defaults overlaid with the section; for every
    option of the overlay, in order, its value there after interpolation. *)
Definition items (cfg : ConfigParser) (section : string)
  : result (list (string * string)) :=
  d <-? match dict_get section (sections_map cfg) with
        | Some sect => Ok (dict_update (defaults cfg) sect)
        | None =>
            if String.eqb section default_section then Ok (defaults cfg)
            else raise NoSectionError section
        end;
  mapM (fun option =>
          match dict_get option d with
          | Some raw => value <-? before_get raw d; Ok (option, value)
          | None => raise KeyError option
          end)
       (List.map fst d).

(** [set(section, option, value)] *)
Definition set (cfg : ConfigParser) (section option value : string)
  : result ConfigParser :=
  value <-? (if String.eqb value "" then Ok value else before_set value);
  if is_default section then
    Ok {| defaults := dict_set (optionxform option) value (defaults cfg);
          sections_map := sections_map cfg |}
  else
    match dict_get section (sections_map cfg) with
    | None => raise NoSectionError section
    | Some sectdict =>
        Ok {| defaults := defaults cfg;
              sections_map :=
                dict_set section
                  (dict_set (optionxform option) value sectdict)
                  (sections_map cfg) |}
    end.

End configparser.

(** ** The process state *)

(** The working directory as a tree of named entries. *)
Inductive node :=
| File (content : string)
| Dir (entries : gmap string node).

Definition path := list string.

Inductive stream := Stdout | Stderr.

Inductive sink :=
| ToFile (name : string)
| ToStream (s : stream).

Inductive format :=
| FileFormat       (* asctime - levelname - (filename,funcName,lineno) - message *)
| MessageFormat    (* message *)
| BasicFormat.     (* logging.BASIC_FORMAT *)

Record Handler := {
  target : sink;
  level : nat;
  formatter : format
}.

(** What reaches a standard stream. *)
Inductive output :=
| Line (text : string)
| UsageText
| HelpText
| Traceback (e : exn).

Record State := {
  cwd : node;
  root_level : nat;
  handlers : list Handler;
  stdout : list output;
  stderr : list output;
  stdin : list string;
  excepthook : bool
}.

Definition with_cwd (n : node) (st : State) : State :=
  {| cwd := n; root_level := root_level st; handlers := handlers st;
     stdout := stdout st; stderr := stderr st; stdin := stdin st;
     excepthook := excepthook st |}.

Definition with_root_level (l : nat) (st : State) : State :=
  {| cwd := cwd st; root_level := l; handlers := handlers st;
     stdout := stdout st; stderr := stderr st; stdin := stdin st;
     excepthook := excepthook st |}.

Definition with_handlers (hs : list Handler) (st : State) : State :=
  {| cwd := cwd st; root_level := root_level st; handlers := hs;
     stdout := stdout st; stderr := stderr st; stdin := stdin st;
     excepthook := excepthook st |}.

Definition with_stdin (l : list string) (st : State) : State :=
  {| cwd := cwd st; root_level := root_level st; handlers := handlers st;
     stdout := stdout st; stderr := stderr st; stdin := l;
     excepthook := excepthook st |}.

Definition with_excepthook (b : bool) (st : State) : State :=
  {| cwd := cwd st; root_level := root_level st; handlers := handlers st;
     stdout := stdout st; stderr := stderr st; stdin := stdin st;
     excepthook := b |}.

Definition write_stream (s : stream) (o : output) (st : State) : State :=
  match s with
  | Stdout =>
      {| cwd := cwd st; root_level := root_level st; handlers := handlers st;
         stdout := stdout st ++ [o]; stderr := stderr st; stdin := stdin st;
         excepthook := excepthook st |}
  | Stderr =>
      {| cwd := cwd st; root_level := root_level st; handlers := handlers st;
         stdout := stdout st; stderr := stderr st ++ [o]; stdin := stdin st;
         excepthook := excepthook st |}
  end.

(** *** The monad of the script: state, with exceptions *)

Definition M (A : Type) : Type := State -> result A * State.

Definition ret {A} (a : A) : M A := fun st => (Ok a, st).

Definition bind {A B} (m : M A) (k : A -> M B) : M B := fun st =>
  match m st with
  | (Ok a, st') => k a st'
  | (Raise e, st') => (Raise e, st')
  end.

Definition throw {A} (cls : exn_class) (msg : string) : M A :=
  fun st => (Raise (Exception cls msg), st).

Definition sys_exit {A} (status : Z) : M A :=
  fun st => (Raise (SystemExit status), st).

Definition lift {A} (r : result A) : M A := fun st => (r, st).

Definition modify (f : State -> State) : M unit := fun st => (Ok tt, f st).

Definition when (b : bool) (m : M unit) : M unit := if b then m else ret tt.

Declare Scope script_scope.
Delimit Scope script_scope with script.
Notation "x <- m ; k" := (bind m (fun x => k))
  (at level 100, m at next level, right associativity,
   format "'[v' x  <-  m ; '/' k ']'") : script_scope.
Notation "m ;; k" := (bind m (fun _ => k))
  (at level 100, right associativity,
   format "'[v' m ;; '/' k ']'") : script_scope.
#[local] Open Scope script_scope.

(** [for x in l: body x] *)
Fixpoint for_each {A} (l : list A) (body : A -> M unit) : M unit :=
  match l with
  | [] => ret tt
  | x :: r => body x ;; for_each r body
  end.

(** *** Files *)

(** [os.stat]: the entry a path names. *)
Fixpoint node_lookup (p : path) (n : node) : result node :=
  match p with
  | [] => Ok n
  | x :: p' =>
      match n with
      | File _ => raise NotADirectoryError x
      | Dir es =>
          match es !! x with
          | None => raise FileNotFoundError x
          | Some m => node_lookup p' m
          end
      end
  end.

(** [open(p, 'w').write(text)]: the file is created or truncated. *)
Fixpoint node_write (p : path) (text : string) (n : node) : result node :=
  match p with
  | [] =>
      match n with
      | File _ => Ok (File text)
      | Dir _ => raise IsADirectoryError ""
      end
  | x :: p' =>
      match n with
      | File _ => raise NotADirectoryError x
      | Dir es =>
          match es !! x, p' with
          | None, [] => Ok (Dir (<[x := File text]> es))
          | None, _ :: _ => raise FileNotFoundError x
          | Some m, _ =>
              m' <-? node_write p' text m;
              Ok (Dir (<[x := m']> es))
          end
      end
  end.

(** The entry called [name] in a directory. *)
Definition entry (name : string) (n : node) : option node :=
  match n with
  | Dir es => es !! name
  | File _ => None
  end.

Definition set_entry (name : string) (m : node) (n : node) : node :=
  match n with
  | Dir es => Dir (<[name := m]> es)
  | File _ => n
  end.

Definition remove_entry (name : string) (n : node) : node :=
  match n with
  | Dir es => Dir (delete name es)
  | File _ => n
  end.

Definition path_exists (p : path) : M bool := fun st =>
  (Ok match node_lookup p (cwd st) with Ok _ => true | Raise _ => false end, st).

Definition isfile (p : path) : M bool := fun st =>
  (Ok match node_lookup p (cwd st) with Ok (File _) => true | _ => false end, st).

Definition read_text (p : path) : M string := fun st =>
  match node_lookup p (cwd st) with
  | Ok (File text) => (Ok text, st)
  | Ok (Dir _) => (raise IsADirectoryError (Str.join "/" p), st)
  | Raise e => (Raise e, st)
  end.

Definition write_text (p : path) (text : string) : M unit := fun st =>
  match node_write p text (cwd st) with
  | Ok n => (Ok tt, with_cwd n st)
  | Raise e => (Raise e, st)
  end.

(** [shutil.copyfile(src, dst)] *)
Definition copyfile (src dst : path) : M unit :=
  text <- read_text src;
  write_text dst text.

(** [os.makedirs(name)] for a name in the working directory. *)
Definition makedirs (name : string) : M unit := fun st =>
  match entry name (cwd st) with
  | Some _ => (raise FileExistsError name, st)
  | None => (Ok tt, with_cwd (set_entry name (Dir ∅) (cwd st)) st)
  end.

(** [shutil.rmtree(name)] for a name in the working directory. *)
Definition rmtree (name : string) : M unit := fun st =>
  match entry name (cwd st) with
  | Some (Dir _) => (Ok tt, with_cwd (remove_entry name (cwd st)) st)
  | Some (File _) => (raise NotADirectoryError name, st)
  | None => (raise FileNotFoundError name, st)
  end.

(** [os.listdir(name)]; the order of the names is the directory's own. *)
Definition listdir (name : string) : M (list string) := fun st =>
  match entry name (cwd st) with
  | Some (Dir es) => (Ok (map_to_list es).*1, st)
  | Some (File _) => (raise NotADirectoryError name, st)
  | None => (raise FileNotFoundError name, st)
  end.

(** What a handler's open stream does on a write: the text goes to the end
    of the file the handler opened, if it is still there. *)
Definition append_file (name : string) (text : string) (n : node) : node :=
  match entry name n with
  | Some (File old) => set_entry name (File (old +:+ text)) n
  | _ => n
  end.

(** *** Standard streams *)

Definition print (text : string) : M unit :=
  modify (write_stream Stdout (Line text)).

(** [input()] *)
Definition input : M string := fun st =>
  match stdin st with
  | [] => (raise EOFError "EOF when reading a line", st)
  | l :: r => (Ok l, with_stdin r st)
  end.

(** ** The [logging] module *)

Module logging.

Definition NOTSET : nat := 0.
Definition DEBUG : nat := 10.
Definition INFO : nat := 20.
Definition WARNING : nat := 30.
Definition ERROR : nat := 40.
Definition CRITICAL : nat := 50.

Definition name_to_level : list (string * nat) :=
  [("CRITICAL", CRITICAL); ("FATAL", CRITICAL); ("ERROR", ERROR);
   ("WARN", WARNING); ("WARNING", WARNING); ("INFO", INFO);
   ("DEBUG", DEBUG); ("NOTSET", NOTSET)].

Definition level_name (l : nat) : string :=
  if Nat.eqb l CRITICAL then "CRITICAL"
  else if Nat.eqb l ERROR then "ERROR"
  else if Nat.eqb l WARNING then "WARNING"
  else if Nat.eqb l INFO then "INFO"
  else if Nat.eqb l DEBUG then "DEBUG"
  else if Nat.eqb l NOTSET then "NOTSET"
  else "Level".

(** The values that module attributes with an upper-case name hold. *)
Inductive value :=
| Int (n : nat)
| Text (s : string)
| Mapping.

Definition BASIC_FORMAT : string := "%(levelname)s:%(name)s:%(message)s".

(** [getattr(logging, name, default)] for a [name] that went through
    [str.upper()]. *)
Definition getattr (name : string) (default : value) : value :=
  match configparser.dict_get name name_to_level with
  | Some l => Int l
  | None =>
      if String.eqb name "BASIC_FORMAT" then Text BASIC_FORMAT
      else if String.eqb name "_STYLES" then Mapping
      else default
  end.

(** [_checkLevel], behind [Handler.setLevel]. *)
Definition check_level (v : value) : result nat :=
  match v with
  | Int n => Ok n
  | Text s =>
      match configparser.dict_get s name_to_level with
      | Some l => Ok l
      | None => raise ValueError ("Unknown level: '" +:+ s +:+ "'")
      end
  | Mapping => raise TypeError "Level not an integer or a valid string"
  end.

End logging.

(** ** INI text, flat dialect *)

(** A reader and a writer for INI text in which every option takes one line:
    blank lines, [#] and [;] comment lines, [[section]] headers, and
    [key = value] or [key : value] lines.  Continuation lines are not part of
    the dialect and are rejected.  On this dialect the functions read and
    write as [ConfigParser] does; they serve as the INI codec of the concrete
    runs below. *)
Module ini.

Definition newline_char : ascii := ascii_of_nat 10.

Fixpoint split_lines (s : string) : list string :=
  match s with
  | EmptyString => [EmptyString]
  | String c r =>
      if Ascii.eqb c newline_char then EmptyString :: split_lines r
      else
        match split_lines r with
        | l :: ls => String c l :: ls
        | [] => [String c EmptyString]
        end
  end.

Definition is_delimiter (c : ascii) : bool :=
  Ascii.eqb c "=" || Ascii.eqb c ":".

Inductive line :=
| Blank
| Header (name : string)
| Option_ (key value : string)
| Malformed.

Definition classify (l : string) : line :=
  match l with
  | EmptyString => Blank
  | String c _ =>
      if Str.is_space c then
        match Str.strip l with EmptyString => Blank | _ => Malformed end
      else if Ascii.eqb c "#" || Ascii.eqb c ";" then Blank
      else if Ascii.eqb c "[" then
        match Str.rev (Str.strip l) with
        | String "]" (String d r) =>
            match Str.rev (String d r) with
            | String _ (String e name) => Header (String e name)
            | _ => Malformed
            end
        | _ => Malformed
        end
      else
        match Str.take_while (fun c => negb (is_delimiter c)) l with
        | (_, EmptyString) => Malformed
        | (key, String _ value) =>
            match Str.strip key with
            | EmptyString => Malformed
            | k => Option_ (configparser.optionxform k) (Str.strip value)
            end
        end
  end.

(** The section being filled: none yet, the defaults, or a named one. *)
Inductive cursor :=
| Nowhere
| InDefaults
| InSection (name : string).

Record progress := {
  parsed : configparser.ConfigParser;
  at_ : cursor;
  seen : list (string * string);  (* the options met so far, by section *)
  malformed : option string       (* the first line that is no option *)
}.

Definition met (section key : string) (seen : list (string * string)) : bool :=
  existsb (fun sk => String.eqb (fst sk) section && String.eqb (snd sk) key)
    seen.

(** One line.  A line that cannot be read before the first header raises
    [MissingSectionHeaderError] at once; after it, the line is noted and
    [ParsingError] is raised at the end of the text, unless another error
    comes first. *)
Definition step (p : progress) (l : string) : result progress :=
  match classify l with
  | Blank => Ok p
  | Malformed =>
      match at_ p with
      | Nowhere => raise MissingSectionHeaderError l
      | _ =>
          Ok {| parsed := parsed p; at_ := at_ p; seen := seen p;
                malformed := match malformed p with
                             | Some first => Some first
                             | None => Some l
                             end |}
      end
  | Header name =>
      if String.eqb name configparser.default_section then
        Ok {| parsed := parsed p; at_ := InDefaults; seen := seen p;
              malformed := malformed p |}
      else if configparser.has_section (parsed p) name then
        raise DuplicateSectionError name
      else
        cfg <-? configparser.add_section (parsed p) name;
        Ok {| parsed := cfg; at_ := InSection name; seen := seen p;
              malformed := malformed p |}
  | Option_ key value =>
      match at_ p with
      | Nowhere => raise MissingSectionHeaderError l
      | InDefaults =>
          if met configparser.default_section key (seen p)
          then raise DuplicateOptionError key
          else
            Ok {| parsed :=
                    {| configparser.defaults :=
                         configparser.dict_set key value
                           (configparser.defaults (parsed p));
                       configparser.sections_map :=
                         configparser.sections_map (parsed p) |};
                  at_ := InDefaults;
                  seen := (configparser.default_section, key) :: seen p;
                  malformed := malformed p |}
      | InSection name =>
          if met name key (seen p) then raise DuplicateOptionError key
          else
            match configparser.dict_get name
                    (configparser.sections_map (parsed p)) with
            | None => raise NoSectionError name
            | Some d =>
                Ok {| parsed :=
                        {| configparser.defaults :=
                             configparser.defaults (parsed p);
                           configparser.sections_map :=
                             configparser.dict_set name
                               (configparser.dict_set key value d)
                               (configparser.sections_map (parsed p)) |};
                      at_ := InSection name;
                      seen := (name, key) :: seen p;
                      malformed := malformed p |}
            end
      end
  end.

Definition parse (text : string) : result configparser.ConfigParser :=
  p <-? configparser.foldM step
          {| parsed := configparser.empty; at_ := Nowhere; seen := [];
             malformed := None |}
          (split_lines text);
  match malformed p with
  | Some l => raise ParsingError l
  | None => Ok (parsed p)
  end.

(** [parse], with the error as a value. *)
Definition read (text : string)
  : configparser.ConfigParser + exn_class * string :=
  match parse text with
  | Ok cfg => inl cfg
  | Raise (Exception cls msg) => inr (cls, msg)
  | Raise (SystemExit _) => inr (ParsingError, text)
  end.

Definition nl : string := String newline_char EmptyString.

Definition write_section (name : string) (d : configparser.dict) : string :=
  "[" +:+ name +:+ "]" +:+ nl
  +:+ String.concat "" (List.map (fun kv => fst kv +:+ " = " +:+ snd kv +:+ nl) d)
  +:+ nl.

Definition write (cfg : configparser.ConfigParser) : string :=
  (match configparser.defaults cfg with
   | [] => ""
   | d => write_section configparser.default_section d
   end)
  +:+ String.concat ""
        (List.map (fun s => write_section (fst s) (snd s))
           (configparser.sections_map cfg)).

End ini.

(** ** A formatter and a traceback for concrete runs *)

(** The file format without the time stamp and the call site. *)
Definition plain_format (lvl : nat) (msg : string) : string :=
  logging.level_name lvl +:+ " - " +:+ msg.

Definition short_traceback (e : exn) : string :=
  match e with
  | Exception _ msg => "Traceback (most recent call last): " +:+ msg
  | SystemExit _ => "SystemExit"
  end.

Import configparser.

(** ** The script *)

Section Script.

(** The line the file formatter produces for a record, from its level and
    message; the time stamp and the call site it also shows are the
    environment's. *)
Variable file_format : nat -> string -> string.

(** The text of a traceback. *)
Variable traceback_text : exn -> string.

(** Reading and writing INI text, [ConfigParser._read] and
    [ConfigParser.write]; reading gives the parser state or the error
    raised on malformed text. *)
Variable parse_ini : string -> ConfigParser + exn_class * string.
Variable write_ini : ConfigParser -> string.

Definition newline : string := String (ascii_of_nat 10) EmptyString.

(** *** Logging calls *)

Definition format_record (f : format) (lvl : nat) (msg : string) : string :=
  match f with
  | FileFormat => file_format lvl msg
  | MessageFormat => msg
  | BasicFormat => logging.level_name lvl +:+ ":root:" +:+ msg
  end.

Definition record_text (f : format) (lvl : nat) (msg : string)
  (exc_info : option exn) : string :=
  match exc_info with
  | None => format_record f lvl msg
  | Some e => format_record f lvl msg +:+ newline +:+ traceback_text e
  end.

(** [Handler.handle(record)] *)
Definition emit (lvl : nat) (msg : string) (exc_info : option exn)
  (st : State) (h : Handler) : State :=
  if Nat.leb (level h) lvl then
    let text := record_text (formatter h) lvl msg exc_info in
    match target h with
    | ToFile name => with_cwd (append_file name (text +:+ newline) (cwd st)) st
    | ToStream s => write_stream s (Line text) st
    end
  else st.

(** [logging.basicConfig()], which the module-level functions call when
    the root logger has no handler. *)
Definition basicConfig (st : State) : State :=
  match handlers st with
  | [] =>
      with_handlers
        [{| target := ToStream Stderr; level := logging.NOTSET;
            formatter := BasicFormat |}] st
  | _ :: _ => st
  end.

Definition log (lvl : nat) (msg : string) (exc_info : option exn) : M unit :=
  modify (fun st =>
    let st := basicConfig st in
    if Nat.leb (root_level st) lvl
    then fold_left (emit lvl msg exc_info) (handlers st) st
    else st).

Definition logging_info (msg : string) : M unit := log logging.INFO msg None.
Definition logging_error (msg : string) : M unit := log logging.ERROR msg None.

(** [config = ConfigParser(); config.read(p)]: a missing or unreadable
    file is skipped, the text of a readable one is parsed. *)
Definition load_config (found : result node) : result ConfigParser :=
  match found with
  | Ok (File text) =>
      match parse_ini text with
      | inl config => Ok config
      | inr (cls, msg) => raise cls msg
      end
  | _ => Ok configparser.empty
  end.

Definition config_read (p : path) : M ConfigParser := fun st =>
  (load_config (node_lookup p (cwd st)), st).

(** *** [initialize_logging] *)

Definition log_file : string := "autocrew.log".
Definition config_file : string := "config.ini".

Definition file_handler : Handler :=
  {| target := ToFile log_file; level := logging.DEBUG;
     formatter := FileFormat |}.

Definition console_handler (lvl : nat) : Handler :=
  {| target := ToStream Stdout; level := lvl; formatter := MessageFormat |}.

Definition console_level (verbose : bool) (config : ConfigParser)
  : result logging.value :=
  console_logging_level <-?
    (if negb verbose
        && has_option config "MISCELLANEOUS" "on_screen_logging_level"
     then
       config_level <-? get config "MISCELLANEOUS" "on_screen_logging_level";
       Ok (logging.getattr (Str.upper config_level)
             (logging.Int logging.INFO))
     else Ok (logging.Int logging.INFO));
  Ok (if verbose then logging.Int logging.DEBUG else console_logging_level).

Definition initialize_logging (verbose : bool) (message : option string)
  : M unit :=
  config <- config_read [config_file];
  console_logging_level <- lift (console_level verbose config);
  modify (with_root_level logging.DEBUG);;
  (* logger.hasHandlers() / logger.handlers.clear() *)
  modify (fun st =>
    match handlers st with
    | _ :: _ => with_handlers [] st
    | [] => st
    end);;
  (* the level set on the "httpcore" logger changes nothing here;
     FileHandler(log_file, mode='w') opens the file at once *)
  write_text [log_file] "";;
  modify (fun st => with_handlers (handlers st ++ [file_handler]) st);;
  lvl <- lift (logging.check_level console_logging_level);
  modify (fun st => with_handlers (handlers st ++ [console_handler lvl]) st);;
  match message with
  | Some (String c m) => logging_info (String c m)
  | _ => ret tt
  end.

(** *** [log_command_line_arguments] *)

Definition log_command_line_arguments (argv : list string) : M unit :=
  logging_info ("Command-line arguments: " +:+ Str.join " " argv).

(** *** [positive_int] *)

(** The [while True] loop of the [except ValueError] branch; every turn
    takes one line from standard input, so [fuel] turns are enough when
    [fuel] exceeds the number of lines left. *)
Fixpoint ask_int (fuel : nat) : M Z :=
  match fuel with
  | O => throw EOFError "EOF when reading a line"
  | S fuel' =>
      line <- input;
      match pyint.int line with
      | Some ivalue => ret ivalue
      | None =>
          print "Invalid input. Please enter a valid number.";;
          ask_int fuel'
      end
  end.

Definition positive_int (value : string) : M Z :=
  match pyint.int value with
  | Some ivalue =>
      if (ivalue <=? 0)%Z then
        throw ArgumentTypeError (value +:+ " is an invalid positive int value")
      else ret ivalue
  | None =>
      print "Please specify the total number of alternative scripts to generate: ";;
      fun st => ask_int (S (length (stdin st))) st
  end.

(** *** [check_latest_version] *)

(** The body of the [try]. *)
Definition fetch_latest_version (r : response) : result string :=
  match r with
  | GetFails why => raise ConnectionError why
  | Response status reason b =>
      _ <-? (if (400 <=? status)%Z && (status <? 600)%Z
             then raise HTTPError reason else Ok tt);
      latest_release <-? match b with
                         | NotJson why => raise JSONDecodeError why
                         | JsonBody j => Ok j
                         end;
      latest_version <-? subscript latest_release "tag_name";
      match latest_version with
      | JString tag =>
          remote <-? version.parse tag;
          installed <-? version.parse AUTOCREW_VERSION;
          if version.gt remote installed then
            Ok ("An updated version of AutoCrew is available: " +:+ tag)
          else Ok "You are running the latest version of AutoCrew."
      | _ => raise TypeError "expected string or bytes-like object"
      end
  end.

(** [try: ... except Exception as e: return f"Error ...: {e}"] *)
Definition check_latest_version (r : response) : result string :=
  match fetch_latest_version r with
  | Ok message => Ok message
  | Raise (Exception _ e) =>
      Ok ("Error checking for the latest version: " +:+ e)
  | Raise (SystemExit status) => Raise (SystemExit status)
  end.

(** *** [upgrade_autocrew] *)

(** How [git clone] ends: the tree is there (status 0); the command failed
    and removed what it had created; there is no [git] to run; or the
    command failed once the directory was there and left what it had checked
    out until then ([Clone succeeded, but checkout failed], status 128). *)
Inductive clone_outcome :=
| Cloned (tree : gmap string node)
| CloneFailed
| GitMissing
| CheckoutFailed (tree : gmap string node).

(** Whether the command ran and returned a status other than 0. *)
Definition git_failed (o : clone_outcome) : bool :=
  match o with
  | CloneFailed | CheckoutFailed _ => true
  | Cloned _ | GitMissing => false
  end.

(** The tree the command leaves at its destination. *)
Definition left_behind (o : clone_outcome) : option (gmap string node) :=
  match o with
  | Cloned tree | CheckoutFailed tree => Some tree
  | CloneFailed | GitMissing => None
  end.

(** [subprocess.run(['git', 'clone', url, dest])]: without [check=True] a
    failing command is not an error for the caller, and line 166 drops the
    [CompletedProcess] with its return code. *)
Definition git_clone (o : clone_outcome) (dest : string) : M unit :=
  match o with
  | Cloned tree | CheckoutFailed tree =>
      modify (fun st =>
        match entry dest (cwd st) with
        | None => with_cwd (set_entry dest (Dir tree) (cwd st)) st
        | Some _ => st
        end)
  | CloneFailed => ret tt
  | GitMissing => throw FileNotFoundError "git"
  end.

(** Lines 179-183: the previous settings are written over the fetched
    defaults, section by section. *)
Definition merge_section (config_backup config : ConfigParser)
  (section : string) : result ConfigParser :=
  config <-? (if has_section config section then Ok config
              else add_section config section);
  settings <-? items config_backup section;
  foldM (fun config kv => set config section (fst kv) (snd kv))
    config settings.

Definition merge (config config_backup : ConfigParser)
  : result ConfigParser :=
  foldM (merge_section config_backup) config (sections config_backup).

Definition backup_dir : string := ".backup".
Definition update_dir : string := "autocrew_update".

Definition logfile_backup_name (latest_version : string) : string :=
  "autocrew-upgrade-logfile_(v-" +:+ AUTOCREW_VERSION +:+ "--to--v-"
    +:+ latest_version +:+ ").log".

Definition config_backup_path : path := [backup_dir; "config_backup.ini"].

(** Lines 146-155: the backup directory and the copy of the log file. *)
Definition backup_logfile (latest_version : string) : M unit :=
  present <- path_exists [backup_dir];
  when (negb present) (makedirs backup_dir);;
  let logfile_path := "autocrew.log" in
  let logfile_backup_path := [backup_dir; logfile_backup_name latest_version] in
  present <- path_exists [logfile_path];
  when present
    (copyfile [logfile_path] logfile_backup_path;;
     logging_info ("Backing up the current logfile to "
                   +:+ Str.join "/" logfile_backup_path +:+ "...")).

(** Lines 157-159: the copy of the configuration file. *)
Definition backup_config : M unit :=
  copyfile ["config.ini"] config_backup_path;;
  logging_info "Backing up the current config.ini file...".

(** Lines 146-159. *)
Definition backup (latest_version : string) : M unit :=
  backup_logfile latest_version;;
  backup_config.

(** Lines 161-166. *)
Definition fetch (clone : clone_outcome) : M unit :=
  present <- path_exists [update_dir];
  when present (rmtree update_dir);;
  logging_info "Cloning the latest version from GitHub...";;
  git_clone clone update_dir.

(** Lines 169-172, the body of the loop. *)
Definition replace_one (filename : string) : M unit :=
  let source_path := [update_dir; filename] in
  regular <- isfile source_path;
  when (regular && negb (String.eqb filename "config.ini"))
    (copyfile source_path [filename];;
     logging_info ("Copied " +:+ filename +:+ " to the current directory.")).

(** Lines 168-172. *)
Definition replace_files : M unit :=
  filenames <- listdir update_dir;
  for_each filenames replace_one.

(** Lines 174-185. *)
Definition update_config : M unit :=
  logging_info "Updating the config.ini file with your previous settings...";;
  config <- config_read [update_dir; "config.ini"];
  config_backup <- config_read config_backup_path;
  config <- lift (merge config config_backup);
  write_text ["config.ini"] (write_ini config).

(** Lines 187-192. *)
Definition finish (latest_version : string) : M unit :=
  rmtree update_dir;;
  logging_info "Cleaned up the update directory.";;
  let done :=
    "Upgrade successful. AutoCrew has been updated from version "
    +:+ AUTOCREW_VERSION +:+ " to version " +:+ latest_version +:+ "." in
  logging_info done;;
  print done;;
  sys_exit 0.

Definition upgrade_autocrew (clone : clone_outcome) (latest_version : string)
  : M unit :=
  backup latest_version;;
  fetch clone;;
  replace_files;;
  update_config;;
  finish latest_version.

(** *** [main] *)

(** The namespace [parse_known_args] returns. *)
Record Namespace := {
  verbose : bool;
  upgrade : bool;
  help : bool;
  overall_goal : option string;
  rank : bool;
  auto_run : bool;
  multiple : option Z
}.

Definition startup_message (version_message : string) : string :=
  newline +:+ "AutoCrew version: " +:+ AUTOCREW_VERSION +:+ newline
  +:+ version_message +:+ newline +:+ newline
  +:+ "Use the -? or -h command line options to display help information."
  +:+ newline
  +:+ "Settings can be modified within " +:+ String (ascii_of_nat 34) "config.ini"
  +:+ String (ascii_of_nat 34) ". Scripts are saved in the "
  +:+ String (ascii_of_nat 34) "scripts" +:+ String (ascii_of_nat 34) " subdirectory."
  +:+ newline
  +:+ "If you experience any errors, please create an issue on Github and attach "
  +:+ String (ascii_of_nat 34) "autocrew.log" +:+ String (ascii_of_nat 34) ":"
  +:+ newline
  +:+ "https://github.com/yanniedog/autocrew/issues/new" +:+ newline.

Definition usage_conflict : string :=
  "Error: The '-u/--upgrade' and '-h/-?/--help' options cannot be used with other arguments.".

Definition no_new_version : string :=
  "No new version available or you are already running the latest version.".

(** Lines 208-239 of [main], from the result of [parse_known_args] on
    [argv] to the point where the crew workflow starts (line 241), on a
    run in which the libraries under the version check log nothing: a
    normal return means that the workflow is entered.  [script], below,
    is [main] from line 197 on, with the command line and with the
    records of the libraries. *)
Definition main (argv : list string) (args : Namespace)
  (unknown_args : list string) (r : response) (clone : clone_outcome)
  : M unit :=
  initialize_logging (verbose args) None;;
  log_command_line_arguments argv;;
  modify (with_excepthook true);;
  version_message <- lift (check_latest_version r);
  logging_info (startup_message version_message);;
  if upgrade args || help args then
    match unknown_args with
    | _ :: _ =>
        modify (write_stream Stdout UsageText);;
        logging_error usage_conflict;;
        sys_exit 1
    | [] =>
        if upgrade args then
          latest <- lift (version.parse version_message);
          installed <- lift (version.parse AUTOCREW_VERSION);
          (if version.gt latest installed
           then upgrade_autocrew clone version_message
           else logging_info no_new_version);;
          sys_exit 0
        else
          modify (write_stream Stdout HelpText);;
          sys_exit 0
    end
  else ret tt.

(** [handle_exception], installed as [sys.excepthook].  [SystemExit] goes
    to [sys.__excepthook__], which prints the traceback on standard error;
    so does [KeyboardInterrupt], which is not among the exceptions of
    [exn]. *)
Definition handle_exception (e : exn) : M unit :=
  match e with
  | SystemExit _ => modify (write_stream Stderr (Traceback e))
  | Exception _ _ => log logging.ERROR "Uncaught exception" (Some e)
  end.

(** How the process ends. *)
Inductive termination :=
| Exits (status : Z)
| EntersWorkflow.

(** The state in which the interpreter starts the script: the root logger
    has its default level and no handler, and no hook is installed. *)
Definition boot (fs : node) (keyboard : list string) : State :=
  {| cwd := fs; root_level := logging.WARNING; handlers := [];
     stdout := []; stderr := []; stdin := keyboard; excepthook := false |}.

(** The interpreter around [main]: [SystemExit] sets the exit status, any
    other exception goes to the installed hook (or to the default one,
    which prints the traceback) and the status is 1. *)
Definition run (argv : list string) (args : Namespace)
  (unknown_args : list string) (r : response) (clone : clone_outcome)
  (fs : node) (keyboard : list string) : termination * State :=
  match main argv args unknown_args r clone (boot fs keyboard) with
  | (Ok tt, st') => (EntersWorkflow, st')
  | (Raise (SystemExit status), st') => (Exits status, st')
  | (Raise (Exception cls msg), st') =>
      (Exits 1,
       if excepthook st'
       then snd (handle_exception (Exception cls msg) st')
       else write_stream Stderr (Traceback (Exception cls msg)) st')
  end.

(** *** [install_dependencies] *)

(** What [subprocess.run([pip, 'install', '-r', 'requirements.txt'],
    capture_output=True, text=True)] comes to: the command cannot be
    started, or it ran, with its return code, what it wrote to its two
    streams, and what it did to the working directory. *)
Inductive pip_outcome :=
| PipNotStarted (cls : exn_class) (msg : string)
| PipRan (returncode : Z) (out err : string) (effect : node -> node).

(** The three [raise] statements of the function ([EnvironmentError] is
    the old name of [OSError]); the function gives one of them, or
    returns. *)
Inductive install_error :=
| RequirementsNotFound (msg : string)   (* FileNotFoundError *)
| PipNotAvailable (msg : string)        (* EnvironmentError *)
| InstallFailed (msg : string).         (* RuntimeError *)

(** The truth value of what [shutil.which] returns. *)
Definition found (p : option string) : bool :=
  match p with
  | Some (String _ _) => true
  | _ => false
  end.

Definition subprocess_run (pip : pip_outcome) : M (Z * string * string) :=
  match pip with
  | PipNotStarted cls msg => throw cls msg
  | PipRan returncode out err effect =>
      fun st => (Ok (returncode, out, err), with_cwd (effect (cwd st)) st)
  end.

Definition install_dependencies (which : string -> option string)
  (pip : pip_outcome) : M (install_error + unit) :=
  let requirements_file := "requirements.txt" in
  present <- path_exists [requirements_file];
  if negb present then
    ret (inl (RequirementsNotFound
                (requirements_file
                 +:+ " not found in the current working directory.")))
  else
    let pip_executable :=
      if found (which "pip") then which "pip" else which "pip3" in
    if negb (found pip_executable) then
      ret (inl (PipNotAvailable "pip is not available on the system."))
    else
      logging_info "Installing dependencies...";;
      result <- subprocess_run pip;
      let '(returncode, out, err) := result in
      if negb (returncode =? 0)%Z then
        logging_error "Error occurred while installing dependencies:";;
        logging_error out;;
        logging_error err;;
        ret (inl (InstallFailed "Failed to install dependencies."))
      else
        print "Dependencies installed successfully.";;
        ret (inr tt).

(** ** Notions used in the statements *)

(** The release descriptor of a check that finds the installed version. *)
Definition up_to_date : response :=
  Response 200 "OK"
    (JsonBody (JObject [("tag_name", JString AUTOCREW_VERSION)])).

(** Every file handler of the state writes to [name]. *)
Definition logs_into (name : string) (hs : list Handler) : Prop :=
  forall h, In h hs -> forall n, target h = ToFile n -> n = name.

(** [n'] is [n] except that text may have been added at the end of the
    file [name]. *)
Definition grown_at (name : string) (n n' : node) : Prop :=
  (forall x, x <> name -> entry x n' = entry x n)
  /\ (entry name n' = entry name n
      \/ exists old extra,
           entry name n = Some (File old)
           /\ entry name n' = Some (File (old +:+ extra))).

Definition invalid_input : output :=
  Line "Invalid input. Please enter a valid number.".

(** [tame P m]: [m] never raises [SystemExit], and when the file handlers
    write to the log file it keeps them so and changes no entry of the
    working directory other than the log file and the names in [P]. *)
Definition tame (P : string -> Prop) {A} (m : M A) : Prop :=
  forall st r st', m st = (r, st') ->
    (forall status, r <> Raise (SystemExit status))
    /\ (logs_into log_file (handlers st) ->
        logs_into log_file (handlers st')
        /\ forall x, x <> log_file -> ~ P x ->
             entry x (cwd st') = entry x (cwd st)).

(** The frame half of [tame], which also holds of steps that exit. *)
Definition confined (P : string -> Prop) {A} (m : M A) : Prop :=
  forall st r st', m st = (r, st') ->
    logs_into log_file (handlers st) ->
    logs_into log_file (handlers st')
    /\ forall x, x <> log_file -> ~ P x ->
         entry x (cwd st') = entry x (cwd st).

(** What [ConfigParser] guarantees of its own state: option names are in
    the form [optionxform] gives them, and no section goes by the name of
    the defaults. *)
Definition keys_normal (d : dict) : Prop :=
  forall k, In k (List.map fst d) -> optionxform k = k.

Definition well_formed (cfg : ConfigParser) : Prop :=
  keys_normal (defaults cfg)
  /\ forall s d, In (s, d) (sections_map cfg) ->
       is_default s = false /\ keys_normal d.

(** The value check of [set]. *)
Definition settable (value : string) : Prop :=
  (if String.eqb value "" then Ok value else before_set value) = Ok value.

Definition section_of (cfg : ConfigParser) (s : string) : option dict :=
  dict_get s (sections_map cfg).

(** Section [s] of [m] holds every setting [items] reports for section [s]
    of [o]. *)
Definition absorbed (o : ConfigParser) (s : string) (m : ConfigParser) : Prop :=
  exists settings d,
    items o s = Ok settings
    /\ section_of m s = Some d
    /\ forall k v, In (k, v) settings ->
         dict_get (optionxform k) d = Some v /\ settable v.

Definition set_all (s : string) (cfg : ConfigParser)
  (settings : list (string * string)) : result ConfigParser :=
  foldM (fun config kv => set config s (fst kv) (snd kv)) cfg settings.


(** Section [s] of [cfg] has the option [k]. *)
Definition holds (cfg : ConfigParser) (s k : string) : Prop :=
  exists d, section_of cfg s = Some d /\ dict_has k d = true.


(** The rest of [main] once the startup message is logged (lines
    226-239). *)
Definition after_startup (args : Namespace) (unknown_args : list string)
  (clone : clone_outcome) (version_message : string) : M unit :=
  if upgrade args || help args then
    match unknown_args with
    | _ :: _ =>
        modify (write_stream Stdout UsageText);;
        logging_error usage_conflict;;
        sys_exit 1
    | [] =>
        if upgrade args then
          latest <- lift (version.parse version_message);
          installed <- lift (version.parse AUTOCREW_VERSION);
          (if version.gt latest installed
           then upgrade_autocrew clone version_message
           else logging_info no_new_version);;
          sys_exit 0
        else
          modify (write_stream Stdout HelpText);;
          sys_exit 0
    end
  else ret tt.

(** *** The whole of [main]: the command line and the libraries *)

(** What [parse_known_args] (line 206) makes of the command line, as far
    as the script can tell.  argparse hands every value given to
    [-m/--multiple] to [positive_int] when it meets it, and in the end
    either returns the namespace, with the arguments it did not recognize,
    or refuses the command line with a message of its own (an option
    without its argument, an ambiguous abbreviation, a flag with a
    value).  [multiple_values] are the values handed to [positive_int],
    in the order of the command line; in the namespace of [Accepted] the
    attribute [multiple] has its default. *)
Inductive verdict :=
| Accepted (args : Namespace) (unknown_args : list string)
| Refused (message : string).

Record command_line := {
  prog : string;
  multiple_values : list string;
  outcome : verdict
}.

(** [ArgumentParser.error]: the usage and the message go to standard
    error, and the process exits with status 2. *)
Definition parser_error {A} (prog message : string) : M A :=
  modify (write_stream Stderr UsageText);;
  modify (write_stream Stderr (Line (prog +:+ ": error: " +:+ message)));;
  sys_exit 2.

Definition set_multiple (m : option Z) (args : Namespace) : Namespace :=
  match m with
  | Some i =>
      {| verbose := verbose args; upgrade := upgrade args; help := help args;
         overall_goal := overall_goal args; rank := rank args;
         auto_run := auto_run args; multiple := Some i |}
  | None => args
  end.

(** The conversions of the values of [-m], in turn ([type=positive_int],
    line 205); the last result is the value of the option.  argparse turns
    [ArgumentTypeError] into an error of the parser; any other exception
    of [positive_int] leaves [parse_known_args] as it is. *)
Fixpoint convert_multiple (prog : string) (values : list string)
  (last : option Z) : M (option Z) :=
  match values with
  | [] => ret last
  | value :: rest => fun st =>
      match positive_int value st with
      | (Ok ivalue, st') => convert_multiple prog rest (Some ivalue) st'
      | (Raise (Exception ArgumentTypeError msg), st') =>
          parser_error prog ("argument -m/--multiple: " +:+ msg) st'
      | (Raise e, st') => (Raise e, st')
      end
  end.

Definition parse_known_args (cl : command_line)
  : M (Namespace * list string) :=
  m <- convert_multiple (prog cl) (multiple_values cl) None;
  match outcome cl with
  | Accepted args unknown_args => ret (set_multiple m args, unknown_args)
  | Refused message => parser_error (prog cl) message
  end.

(** A record that the logger of a library hands to the handlers of the
    root logger, as urllib3's connection pool does under [requests.get]:
    its level, the name of the logger, the line the file formatter makes
    of it, and its message. *)
Record library_record := {
  record_level : nat;
  logger_name : string;
  file_line : string;
  record_message : string
}.

Definition library_text (f : format) (rec : library_record) : string :=
  match f with
  | FileFormat => file_line rec
  | MessageFormat => record_message rec
  | BasicFormat =>
      logging.level_name (record_level rec) +:+ ":" +:+ logger_name rec
      +:+ ":" +:+ record_message rec
  end.

Definition library_emit (rec : library_record) (st : State) (h : Handler)
  : State :=
  if Nat.leb (level h) (record_level rec) then
    let text := library_text (formatter h) rec in
    match target h with
    | ToFile name => with_cwd (append_file name (text +:+ newline) (cwd st)) st
    | ToStream s => write_stream s (Line text) st
    end
  else st.

(** [Logger.log] on a logger that has no level and no handler of its own:
    the level that counts is the root logger's, and the record goes to the
    handlers of the root logger; when there is none, the handler of last
    resort prints the message of a warning or an error on standard
    error. *)
Definition library_log (rec : library_record) : M unit :=
  modify (fun st =>
    if Nat.leb (root_level st) (record_level rec) then
      match handlers st with
      | [] =>
          if Nat.leb logging.WARNING (record_level rec)
          then write_stream Stderr (Line (record_message rec)) st
          else st
      | hs => fold_left (library_emit rec) hs st
      end
    else st).

(** Line 217 as it runs: the libraries under [requests.get] log the
    records [wire], and the check returns its sentence. *)
Definition check_latest_version_logged (wire : list library_record)
  (r : response) : M string :=
  for_each wire library_log;;
  lift (check_latest_version r).

(** Lines 197-239 of [main], from the command line to the point where
    the crew workflow starts (line 241). *)
Definition script (argv : list string) (cl : command_line)
  (wire : list library_record) (r : response) (clone : clone_outcome)
  : M unit :=
  parsed <- parse_known_args cl;
  initialize_logging (verbose (fst parsed)) None;;
  log_command_line_arguments argv;;
  modify (with_excepthook true);;
  version_message <- check_latest_version_logged wire r;
  logging_info (startup_message version_message);;
  after_startup (fst parsed) (snd parsed) clone version_message.

(** The interpreter around [main], as in [run]. *)
Definition launch (argv : list string) (cl : command_line)
  (wire : list library_record) (r : response) (clone : clone_outcome)
  (fs : node) (keyboard : list string) : termination * State :=
  match script argv cl wire r clone (boot fs keyboard) with
  | (Ok tt, st') => (EntersWorkflow, st')
  | (Raise (SystemExit status), st') => (Exits status, st')
  | (Raise (Exception cls msg), st') =>
      (Exits 1,
       if excepthook st'
       then snd (handle_exception (Exception cls msg) st')
       else write_stream Stderr (Traceback (Exception cls msg)) st')
  end.

(** What the file handler of [initialize_logging] writes of the records of
    the libraries. *)
Definition logged (wire : list library_record) : string :=
  String.concat ""
    (List.map (fun rec =>
                 if Nat.leb logging.DEBUG (record_level rec)
                 then file_line rec +:+ newline else "")
       wire).

(** What every run has in its log once the startup message is there: the
    record of the command line, the records of the libraries under the
    version check, and the record of the startup message. *)
Definition log_opening (argv : list string) (wire : list library_record)
  (version_message : string) : string :=
  (file_format logging.INFO
     ("Command-line arguments: " +:+ Str.join " " argv) +:+ newline)
  +:+ logged wire
  +:+ (file_format logging.INFO (startup_message version_message)
       +:+ newline).

(** The command line of a namespace that argparse returns without having
    met [-m]. *)
Definition accepted (args : Namespace) (unknown_args : list string)
  : command_line :=
  {| prog := "autocrew.py"; multiple_values := [];
     outcome := Accepted args unknown_args |}.

(** The record [handle_exception] writes to the log file. *)
Definition uncaught (e : exn) : string :=
  record_text FileFormat logging.ERROR "Uncaught exception" (Some e)
  +:+ newline.

Definition prompt : output :=
  Line "Please specify the total number of alternative scripts to generate: ".

(** No option name occurs twice, as in a Python dictionary. *)
Fixpoint unique_keys {V} (d : list (string * V)) : bool :=
  match d with
  | [] => true
  | (k, _) :: r => negb (dict_has k r) && unique_keys r
  end.

Definition tidy (cfg : ConfigParser) : Prop :=
  forall s d, section_of cfg s = Some d -> unique_keys d = true.

(** What the console shows of a record of level [l] when the console
    handler is at level [lvl]. *)
Definition shown (lvl l : nat) (msg : string) : list output :=
  if Nat.leb lvl l then [Line msg] else [].

(** The number a sequence of decimal digits stands for, after [acc]. *)
Fixpoint uint_value (d : Decimal.uint) (acc : N) : N :=
  match d with
  | Decimal.Nil => acc
  | Decimal.D0 l => uint_value l (10 * acc + 0)
  | Decimal.D1 l => uint_value l (10 * acc + 1)
  | Decimal.D2 l => uint_value l (10 * acc + 2)
  | Decimal.D3 l => uint_value l (10 * acc + 3)
  | Decimal.D4 l => uint_value l (10 * acc + 4)
  | Decimal.D5 l => uint_value l (10 * acc + 5)
  | Decimal.D6 l => uint_value l (10 * acc + 6)
  | Decimal.D7 l => uint_value l (10 * acc + 7)
  | Decimal.D8 l => uint_value l (10 * acc + 8)
  | Decimal.D9 l => uint_value l (10 * acc + 9)
  end%N.

(** [str(n)] for a positive integer [n]. *)
Definition decimal (p : positive) : string :=
  DecimalString.NilEmpty.string_of_uint (Pos.to_uint p).

(** [str(n)] for a natural number [n]. *)
Definition numeral (n : N) : string :=
  DecimalString.NilEmpty.string_of_uint (N.to_uint n).

(** The tag of release [a.b.c], with or without the letter [v] that many
    projects put before the number. *)
Definition release_tag (prefixed : bool) (a b c : N) : string :=
  (if prefixed then "v" else "")
  +:+ numeral a +:+ "." +:+ numeral b +:+ "." +:+ numeral c.

(** The answer of a server whose latest release has the tag [tag]. *)
Definition release_descriptor (tag : string) : response :=
  Response 200 "OK" (JsonBody (JObject [("tag_name", JString tag)])).

(** The number of digits of [str(n)]. *)
Definition digits_of (n : N) : N := N.of_nat (String.length (numeral n)).

(** [(a, b, c) > (2, 1, 4)], as tuples compare. *)
Definition newer_than_installed (a b c : N) : bool :=
  ((2 <? a) || ((a =? 2) && ((1 <? b) || ((b =? 1) && (4 <? c)))))%N.

(** ** Concrete inputs *)

Definition lines (l : list string) : string :=
  String.concat "" (List.map (fun x => x +:+ newline) l).

(** An installation of version 2.1.4 with settings and a log. *)
Definition user_settings : string :=
  lines ["[BASIC]"; "llm_endpoint = ollama";
         "[MISCELLANEOUS]"; "on_screen_logging_level = WARNING"].

Definition installation : node :=
  Dir (<["autocrew.py" := File "AUTOCREW_VERSION = '2.1.4'"]>
      (<["config.ini" := File user_settings]>
      (<["autocrew.log" := File (lines ["log of the previous run"])]> ∅))).

(** The same without a configuration file. *)
Definition unconfigured : node :=
  Dir (<["autocrew.py" := File "AUTOCREW_VERSION = '2.1.4'"]>
      (<["autocrew.log" := File (lines ["log of the previous run"])]> ∅)).

(** An installation that has its settings but no log yet. *)
Definition never_run : node :=
  Dir (<["autocrew.py" := File "AUTOCREW_VERSION = '2.1.4'"]>
      (<["config.ini" := File user_settings]> ∅)).

(** The tree of release 2.2.0. *)
Definition default_settings : string :=
  lines ["[BASIC]"; "llm_endpoint = openai"; "llm_context = 4096";
         "[MISCELLANEOUS]"; "on_screen_logging_level = INFO"].

Definition release_tree : gmap string node :=
  <["autocrew.py" := File "AUTOCREW_VERSION = '2.2.0'"]>
 (<["core.py" := File "class AutoCrew: pass"]>
 (<["config.ini" := File default_settings]>
 (<[".git" := Dir ∅]> ∅))).

(** The state once logging is set up, as [main] leaves it. *)
Definition logging_ready (fs : node) : State :=
  {| cwd := fs; root_level := logging.DEBUG;
     handlers := [file_handler; console_handler logging.INFO];
     stdout := []; stderr := []; stdin := []; excepthook := true |}.

Definition flags (u h : bool) (goal : option string) : Namespace :=
  {| verbose := false; upgrade := u; help := h; overall_goal := goal;
     rank := false; auto_run := false; multiple := None |}.

(** Settings kept in the [DEFAULT] section only. *)
Definition defaults_only : ConfigParser :=
  {| defaults := [("llm_endpoint", "ollama")]; sections_map := [] |}.

Definition shipped : ConfigParser :=
  {| defaults := [];
     sections_map := [("BASIC", [("llm_endpoint", "openai");
                                 ("llm_context", "4096")])] |}.

Definition kept : ConfigParser :=
  {| defaults := [];
     sections_map := [("BASIC", [("llm_endpoint", "ollama")]);
                      ("MISCELLANEOUS",
                       [("on_screen_logging_level", "WARNING")])] |}.

(** C2 as the specification states it, for one invocation: the process
    exits with status 1 and the working directory is as it was. *)
Definition usage_conflict_claim (argv : list string) (args : Namespace)
  (unknown_args : list string) (fs : node) : Prop :=
  fst (run argv args unknown_args up_to_date CloneFailed fs []) = Exits 1
  /\ cwd (snd (run argv args unknown_args up_to_date CloneFailed fs [])) = fs.

(** ** Further concrete inputs *)

(** What the merge of [kept] into [shipped] gives. *)
Definition upgraded : ConfigParser :=
  {| defaults := [];
     sections_map := [("BASIC", [("llm_endpoint", "ollama");
                                 ("llm_context", "4096")]);
                      ("MISCELLANEOUS",
                       [("on_screen_logging_level", "WARNING")])] |}.

(** Settings with an escaped percent sign, which reads as [50%]. *)
Definition discounted : ConfigParser :=
  {| defaults := []; sections_map := [("APP", [("discount", "50%%")])] |}.

(** An installation with such settings. *)
Definition discount_installation : node :=
  Dir (<["autocrew.py" := File "AUTOCREW_VERSION = '2.1.4'"]>
      (<["config.ini" := File (lines ["[APP]"; "discount = 50%%"])]>
      (<["autocrew.log" := File (lines ["log of the previous run"])]> ∅))).

(** Settings with a default next to a section. *)
Definition with_default : ConfigParser :=
  {| defaults := [("timeout", "30")];
     sections_map := [("BASIC", [("llm_endpoint", "ollama")])] |}.

(** A configuration file that starts without a section header. *)
Definition headless : node :=
  Dir (<["config.ini" := File (lines ["llm_endpoint = ollama"])]> ∅).

(** A console level written in lower case. *)
Definition lowercase : node :=
  Dir (<["config.ini" :=
           File (lines ["[MISCELLANEOUS]";
                        "on_screen_logging_level = warning"])]> ∅).

Definition lowercase_settings : ConfigParser :=
  {| defaults := [];
     sections_map := [("MISCELLANEOUS",
                       [("on_screen_logging_level", "warning")])] |}.

(** An installation with its list of requirements, and a system on which
    the installer goes by the name [pip3]. *)
Definition with_requirements : node :=
  Dir (<["requirements.txt" := File (lines ["requests"; "packaging"])]>
      (<["autocrew.log" := File ""]> ∅)).

Definition only_pip3 (name : string) : option string :=
  if String.eqb name "pip3" then Some "/usr/bin/pip3" else None.

(** The release descriptor of a server that has release 2.2.0. *)
Definition newer_release : response :=
  Response 200 "OK" (JsonBody (JObject [("tag_name", JString "2.2.0")])).

(** What a clone of release 2.2.0 leaves behind when its checkout stops
    before [core.py] is written. *)
Definition partial_checkout : gmap string node :=
  <["autocrew.py" := File "AUTOCREW_VERSION = '2.2.0'"]>
 (<["config.ini" := File default_settings]>
 (<[".git" := Dir ∅]> ∅)).

(** An installation whose one setting is in the [DEFAULT] section. *)
Definition default_section_settings : string :=
  lines ["[DEFAULT]"; "llm_endpoint = ollama"].

Definition default_section_installation : node :=
  Dir (<["autocrew.py" := File "AUTOCREW_VERSION = '2.1.4'"]>
      (<["config.ini" := File default_section_settings]>
      (<["autocrew.log" := File (lines ["log of the previous run"])]> ∅))).

(** The fetched settings as [ConfigParser] holds them. *)
Definition release_settings : ConfigParser :=
  {| defaults := [];
     sections_map := [("BASIC", [("llm_endpoint", "openai");
                                 ("llm_context", "4096")]);
                      ("MISCELLANEOUS",
                       [("on_screen_logging_level", "INFO")])] |}.

(** A session in which [logging.basicConfig()] ran before: the root logger
    has the handler it installs. *)
Definition stale_handler : Handler :=
  {| target := ToStream Stderr; level := logging.NOTSET;
     formatter := BasicFormat |}.

Definition stale_session : State :=
  {| cwd := installation; root_level := logging.WARNING;
     handlers := [stale_handler];
     stdout := []; stderr := []; stdin := []; excepthook := false |}.

(** An installation whose [config.ini] starts without a section header. *)
Definition unreadable : node :=
  Dir (<["config.ini" := File (lines ["llm_endpoint = ollama"])]>
      (<["autocrew.log" := File (lines ["log of the previous run"])]> ∅)).

(** C10 as the specification states it, for one call: the handlers the
    root logger had are gone, and the log file holds nothing but what the
    call itself logged. *)
Definition starts_afresh_claim (verbose : bool) (message : option string)
  (st : State) : Prop :=
  (forall h, In h (handlers st) ->
     ~ In h (handlers (snd (initialize_logging verbose message st))))
  /\ entry log_file (cwd (snd (initialize_logging verbose message st)))
     = Some (File match message with
                  | Some (String c m) =>
                      file_format logging.INFO (String c m) +:+ newline
                  | _ => ""
                  end).

(** The records urllib3's connection pool logs under a [requests.get] that
    is answered. *)
Definition connection_records : list library_record :=
  [{| record_level := logging.DEBUG;
      logger_name := "urllib3.connectionpool";
      file_line :=
        plain_format logging.DEBUG
          "Starting new HTTPS connection (1): api.github.com:443";
      record_message :=
        "Starting new HTTPS connection (1): api.github.com:443" |};
   {| record_level := logging.DEBUG;
      logger_name := "urllib3.connectionpool";
      file_line :=
        plain_format logging.DEBUG
          "https://api.github.com:443 GET /repos/yanniedog/autocrew/releases/latest 200";
      record_message :=
        "https://api.github.com:443 GET /repos/yanniedog/autocrew/releases/latest 200" |}].

(** [--upgrade --bogus -m 0]: argparse hands [0] to [positive_int]. *)
Definition zero_scripts : command_line :=
  {| prog := "autocrew.py"; multiple_values := ["0"];
     outcome := Accepted (flags true false None) ["--bogus"] |}.

(** [--help -m three]: [positive_int] asks for a number. *)
Definition three_scripts : command_line :=
  {| prog := "autocrew.py"; multiple_values := ["three"];
     outcome := Accepted (flags false true None) [] |}.

(** ** Properties *)

Lemma pair_eta {A B} (p : A * B) (a : A) : fst p = a -> p = (a, snd p).
Proof. destruct p as [x y]. simpl. now intros ->. Qed.

(** *** Directory entries *)

Lemma entry_set_entry_eq name m es :
  entry name (set_entry name m (Dir es)) = Some m.
Proof. simpl. apply lookup_insert_eq. Qed.

Lemma entry_set_entry_ne name x m n :
  x <> name -> entry x (set_entry name m n) = entry x n.
Proof.
  intros Hne. destruct n as [c|es]; simpl; [reflexivity|].
  apply lookup_insert_ne. congruence.
Qed.

Lemma entry_remove_entry_ne name x n :
  x <> name -> entry x (remove_entry name n) = entry x n.
Proof.
  intros Hne. destruct n as [c|es]; simpl; [reflexivity|].
  apply lookup_delete_ne. congruence.
Qed.

(** A write through a path that starts with [x] changes no other entry. *)
Lemma node_write_frame x p text n n' y :
  node_write (x :: p) text n = Ok n' -> y <> x -> entry y n' = entry y n.
Proof.
  intros Hw Hne. destruct n as [c|es]; simpl in Hw; [discriminate|].
  destruct (es !! x) as [m|] eqn:Hx.
  - destruct (node_write p text m) as [m'|e] eqn:Hm; simpl in Hw.
    + destruct p; injection Hw as <-; simpl; apply lookup_insert_ne; congruence.
    + destruct p; discriminate.
  - destruct p; [|discriminate]. injection Hw as <-. simpl.
    apply lookup_insert_ne. congruence.
Qed.

(** A write to a name of the working directory. *)
Lemma node_write_top name text n n' :
  node_write [name] text n = Ok n' ->
  entry name n' = Some (File text)
  /\ (forall es, entry name n <> Some (Dir es))
  /\ exists es, n = Dir es /\ n' = Dir (<[name := File text]> es).
Proof.
  intros Hw. destruct n as [c|es]; simpl in Hw; [discriminate|].
  destruct (es !! name) as [[c|es']|] eqn:Hx; simpl in Hw; try discriminate.
  - injection Hw as <-. simpl. rewrite lookup_insert_eq, Hx.
    split; [reflexivity|]. split; [congruence|]. eauto.
  - injection Hw as <-. simpl. rewrite lookup_insert_eq, Hx.
    split; [reflexivity|]. split; [congruence|]. eauto.
Qed.

(** *** Logging *)

Lemma grown_at_refl name n : grown_at name n n.
Proof. split; auto. Qed.

Lemma string_app_assoc (a b c : string) : (a +:+ b) +:+ c = a +:+ (b +:+ c).
Proof.
  induction a as [|x a IH]; [reflexivity|].
  change (String x ((a +:+ b) +:+ c) = String x (a +:+ (b +:+ c))).
  f_equal. exact IH.
Qed.

Lemma grown_at_trans name n1 n2 n3 :
  grown_at name n1 n2 -> grown_at name n2 n3 -> grown_at name n1 n3.
Proof.
  intros [F1 G1] [F2 G2]. split.
  - intros x Hx. rewrite F2, F1; auto.
  - destruct G2 as [E2|(old2 & ex2 & A2 & B2)].
    + rewrite E2. exact G1.
    + destruct G1 as [E1|(old1 & ex1 & A1 & B1)].
      * right. exists old2, ex2. rewrite <- E1. auto.
      * right. rewrite B1 in A2. injection A2 as <-.
        exists old1, (ex1 +:+ ex2). split; [exact A1|].
        rewrite B2. now rewrite string_app_assoc.
Qed.

Lemma append_file_grown name text n : grown_at name n (append_file name text n).
Proof.
  unfold append_file. destruct (entry name n) as [[old|es]|] eqn:He;
    try apply grown_at_refl.
  split.
  - intros x Hx. now apply entry_set_entry_ne.
  - right. exists old, text. split; [exact He|].
    destruct n as [c|es]; [discriminate|]. apply entry_set_entry_eq.
Qed.

Lemma emit_spec name lvl msg exc st h :
  (forall n, target h = ToFile n -> n = name) ->
  grown_at name (cwd st) (cwd (emit lvl msg exc st h))
  /\ handlers (emit lvl msg exc st h) = handlers st
  /\ root_level (emit lvl msg exc st h) = root_level st
  /\ stdin (emit lvl msg exc st h) = stdin st
  /\ excepthook (emit lvl msg exc st h) = excepthook st.
Proof.
  intros Hh. unfold emit.
  destruct (Nat.leb (level h) lvl); [|split; [apply grown_at_refl|auto]].
  destruct (target h) as [n|[|]] eqn:Ht; simpl; (split; [|auto]).
  - rewrite (Hh n eq_refl). apply append_file_grown.
  - apply grown_at_refl.
  - apply grown_at_refl.
Qed.

Lemma emit_all_spec name lvl msg exc hs st :
  logs_into name hs ->
  grown_at name (cwd st) (cwd (fold_left (emit lvl msg exc) hs st))
  /\ handlers (fold_left (emit lvl msg exc) hs st) = handlers st
  /\ root_level (fold_left (emit lvl msg exc) hs st) = root_level st
  /\ stdin (fold_left (emit lvl msg exc) hs st) = stdin st
  /\ excepthook (fold_left (emit lvl msg exc) hs st) = excepthook st.
Proof.
  revert st. induction hs as [|h hs IH]; intros st Hl; simpl.
  - split; [apply grown_at_refl|auto].
  - destruct (emit_spec name lvl msg exc st h) as (G & H1 & H2 & H3 & H4).
    { intros n Hn. apply (Hl h); [now left|exact Hn]. }
    destruct (IH (emit lvl msg exc st h)) as (G' & H1' & H2' & H3' & H4').
    { intros h' Hin. apply Hl. now right. }
    split; [eapply grown_at_trans; eauto|].
    rewrite H1', H2', H3', H4'. auto.
Qed.

Lemma logs_into_basicConfig name st :
  logs_into name (handlers st) -> logs_into name (handlers (basicConfig st)).
Proof.
  unfold basicConfig. destruct (handlers st) eqn:E; simpl; [|now rewrite E].
  intros _ h [<-|[]] n Hn. discriminate.
Qed.

(** A logging call always returns; it can only add text at the end of the
    handlers' file, and leaves the handlers in place. *)
Lemma log_spec name lvl msg exc st :
  logs_into name (handlers st) ->
  exists st',
    log lvl msg exc st = (Ok tt, st')
    /\ grown_at name (cwd st) (cwd st')
    /\ logs_into name (handlers st')
    /\ (handlers st <> [] -> handlers st' = handlers st)
    /\ stdin st' = stdin st
    /\ excepthook st' = excepthook st.
Proof.
  intros Hl. unfold log, modify. eexists. split; [reflexivity|].
  pose proof (logs_into_basicConfig name st Hl) as Hb.
  assert (Hc : cwd (basicConfig st) = cwd st
               /\ stdin (basicConfig st) = stdin st
               /\ excepthook (basicConfig st) = excepthook st
               /\ (handlers st <> [] -> handlers (basicConfig st) = handlers st)).
  { unfold basicConfig. destruct (handlers st) eqn:E; simpl;
      repeat split; auto; congruence. }
  destruct Hc as (Hc1 & Hc2 & Hc3 & Hc4). cbv zeta.
  destruct (Nat.leb (root_level (basicConfig st)) lvl).
  - destruct (emit_all_spec name lvl msg exc (handlers (basicConfig st))
                (basicConfig st) Hb) as (G & H1 & H2 & H3 & H4).
    rewrite Hc1 in G. split; [exact G|]. rewrite H1, H3, H4.
    split; [exact Hb|]. auto.
  - rewrite Hc1. split; [apply grown_at_refl|]. auto.
Qed.

(** *** [positive_int] *)



(** *** [check_latest_version] *)

Lemma parse_no_exit text status :
  version.parse text <> Raise (SystemExit status).
Proof.
  unfold version.parse.
  destruct (version.match_version text); [destruct (find _ _)|];
    unfold raise; congruence.
Qed.

Lemma fetch_latest_version_no_exit r status :
  fetch_latest_version r <> Raise (SystemExit status).
Proof.
  destruct r as [why|code reason b]; simpl; [unfold raise; congruence|].
  destruct ((400 <=? code)%Z && (code <? 600)%Z); simpl; [unfold raise; congruence|].
  destruct b as [why|j]; simpl; [unfold raise; congruence|].
  destruct j as [| | | |l|fields]; simpl; try (unfold raise; congruence).
  destruct (field "tag_name" fields) as [v|]; simpl; [|unfold raise; congruence].
  destruct v; simpl; try (unfold raise; congruence).
  pose proof (parse_no_exit s status) as Hp.
  destruct (version.parse s) as [remote|e]; simpl; [|congruence].
  destruct (version.gt _ _); congruence.
Qed.

(** The three sentences the check can return. *)
Lemma check_latest_version_cases r :
  (exists tag, check_latest_version r
               = Ok ("An updated version of AutoCrew is available: " +:+ tag))
  \/ check_latest_version r
     = Ok "You are running the latest version of AutoCrew."
  \/ (exists cls e, fetch_latest_version r = Raise (Exception cls e)
        /\ check_latest_version r
           = Ok ("Error checking for the latest version: " +:+ e)).
Proof.
  unfold check_latest_version.
  destruct (fetch_latest_version r) as [m|[cls e|status]] eqn:Hf.
  - destruct r as [why|code reason b]; simpl in Hf; [discriminate|].
    destruct ((400 <=? code)%Z && (code <? 600)%Z); simpl in Hf; [discriminate|].
    destruct b as [why|j]; simpl in Hf; [discriminate|].
    destruct (subscript j "tag_name") as [v|]; simpl in Hf; [|discriminate].
    destruct v; try discriminate.
    destruct (version.parse s); simpl in Hf; [|discriminate].
    destruct (version.gt _ _); injection Hf as <-; eauto.
  - right. right. eauto.
  - exfalso. exact (fetch_latest_version_no_exit r status Hf).
Qed.

(** None of them is a version number. *)
Lemma version_message_is_no_version r :
  exists message what,
    check_latest_version r = Ok message
    /\ version.parse message = Raise (Exception InvalidVersion what).
Proof.
  destruct (check_latest_version_cases r) as [[tag H]|[H|(cls & e & _ & H)]];
    rewrite H; eexists; eexists; (split; [reflexivity|]); reflexivity.
Qed.

(** *** [initialize_logging] *)

Lemma config_read_state p st : snd (config_read p st) = st.
Proof. reflexivity. Qed.

(** A logging call in the state that [initialize_logging] sets up. *)
Lemma log_initialized lvl l msg exc st old :
  handlers st = [file_handler; console_handler lvl] ->
  root_level st = logging.DEBUG ->
  entry log_file (cwd st) = Some (File old) ->
  logging.DEBUG <= l ->
  exists st',
    log l msg exc st = (Ok tt, st')
    /\ handlers st' = handlers st
    /\ root_level st' = root_level st
    /\ entry log_file (cwd st')
       = Some (File (old +:+ (record_text FileFormat l msg exc +:+ newline)))
    /\ (forall name, name <> log_file -> entry name (cwd st') = entry name (cwd st))
    /\ excepthook st' = excepthook st
    /\ (forall o, In o (stdout st) -> In o (stdout st')).
Proof.
  intros Hh Hr He Hl.
  assert (Hleb : Nat.leb logging.DEBUG l = true) by now apply Nat.leb_le.
  set (text := record_text FileFormat l msg exc +:+ newline).
  set (st1 := with_cwd (append_file log_file text (cwd st)) st).
  set (st2 := emit l msg exc st1 (console_handler lvl)).
  exists st2.
  assert (Hrun : log l msg exc st = (Ok tt, st2)).
  { unfold log, modify. f_equal.
    assert (Hb : basicConfig st = st) by (unfold basicConfig; now rewrite Hh).
    rewrite Hb. cbv zeta. rewrite Hr, Hleb, Hh. cbn [fold_left].
    subst st2 st1 text. f_equal. unfold emit.
    cbn [level file_handler target formatter]. now rewrite Hleb. }
  assert (H2 : cwd st2 = cwd st1 /\ handlers st2 = handlers st1
               /\ root_level st2 = root_level st1
               /\ excepthook st2 = excepthook st1
               /\ forall o, In o (stdout st1) -> In o (stdout st2)).
  { subst st2. unfold emit. cbn [level console_handler target formatter].
    destruct (Nat.leb lvl l); simpl; repeat split; auto.
    intros o Ho. apply in_or_app. now left. }
  destruct H2 as (C2 & A2 & R2 & X2 & O2).
  assert (C1 : cwd st1 = append_file log_file text (cwd st)) by reflexivity.
  clearbody st2. split; [exact Hrun|].
  rewrite C2, A2, R2, X2, C1. unfold append_file. rewrite He.
  destruct (cwd st) as [c|es] eqn:Hcwd; [discriminate|].
  repeat split; auto.
  - simpl. apply lookup_insert_eq.
  - intros name Hn. simpl. apply lookup_insert_ne. congruence.
Qed.

Lemma initialize_logging_spec verbose message st es config lvl :
  cwd st = Dir es ->
  (forall sub, es !! log_file <> Some (Dir sub)) ->
  fst (config_read [config_file] st) = Ok config ->
  result_bind (console_level verbose config) logging.check_level = Ok lvl ->
  exists st',
    initialize_logging verbose message st = (Ok tt, st')
    /\ handlers st' = [file_handler; console_handler lvl]
    /\ root_level st' = logging.DEBUG
    /\ entry log_file (cwd st')
       = Some (File match message with
                    | Some (String c m) =>
                        file_format logging.INFO (String c m) +:+ newline
                    | _ => ""
                    end)
    /\ (forall name, name <> log_file ->
          entry name (cwd st') = entry name (cwd st))
    /\ excepthook st' = excepthook st.
Proof.
  intros Hcwd Hlog Hcfg Hlvl.
  unfold initialize_logging. unfold bind at 1.
  pose proof (config_read_state [config_file] st) as Hs.
  destruct (config_read [config_file] st) as [rc st0]. simpl in Hcfg, Hs.
  subst rc st0.
  destruct (console_level verbose config) as [v|e] eqn:Hv; [|discriminate].
  simpl in Hlvl.
  unfold bind at 1. unfold lift at 1.
  unfold bind at 1. unfold modify at 1.
  unfold bind at 1. unfold modify at 1.
  unfold bind at 1. unfold write_text.
  set (st1 := match handlers (with_root_level logging.DEBUG st) with
              | [] => with_root_level logging.DEBUG st
              | _ :: _ => with_handlers [] (with_root_level logging.DEBUG st)
              end).
  assert (H1 : cwd st1 = Dir es /\ handlers st1 = []
               /\ root_level st1 = logging.DEBUG
               /\ excepthook st1 = excepthook st).
  { subst st1. simpl. destruct (handlers st) eqn:E; simpl; auto. }
  destruct H1 as (C1 & A1 & R1 & X1). rewrite C1.
  assert (Hw : node_write [log_file] "" (Dir es)
               = Ok (Dir (<[log_file := File ""]> es))).
  { simpl. destruct (es !! log_file) as [[c|sub]|] eqn:E; simpl; auto.
    exfalso. now apply (Hlog sub). }
  rewrite Hw.
  unfold bind at 1. unfold modify at 1.
  unfold bind at 1. unfold lift at 1. rewrite Hlvl.
  unfold bind at 1. unfold modify at 1.
  set (st2 := with_handlers _ (with_handlers _ _)).
  assert (H2 : cwd st2 = Dir (<[log_file := File ""]> es)
               /\ handlers st2 = [file_handler; console_handler lvl]
               /\ root_level st2 = logging.DEBUG
               /\ excepthook st2 = excepthook st).
  { subst st2. simpl. rewrite A1. auto. }
  destruct H2 as (C2 & A2 & R2 & X2). clearbody st2.
  assert (E2 : entry log_file (cwd st2) = Some (File "")).
  { rewrite C2. simpl. apply lookup_insert_eq. }
  assert (F2 : forall name, name <> log_file ->
                 entry name (cwd st2) = entry name (cwd st)).
  { intros name Hn. rewrite C2, Hcwd. simpl. apply lookup_insert_ne. congruence. }
  destruct message as [[|c m]|].
  - exists st2. unfold ret. auto 10.
  - destruct (log_initialized lvl logging.INFO (String c m) None st2 ""
                A2 R2 E2) as (st' & Hr & B1 & B2 & B3 & B4 & B5 & _).
    { unfold logging.DEBUG, logging.INFO. lia. }
    exists st'. unfold logging_info. rewrite Hr.
    split; [reflexivity|]. split; [congruence|]. split; [congruence|].
    split; [exact B3|]. split; [|congruence].
    intros name Hn. rewrite B4; auto.
  - exists st2. unfold ret. auto 10.
Qed.

(** *** [main] *)

Lemma main_result argv args unknown_args r clone st res st' :
  main argv args unknown_args r clone st = (res, st') ->
  match fst (initialize_logging (verbose args) None st) with
  | Raise e => res = Raise e
  | Ok _ =>
      if upgrade args || help args then
        match unknown_args with
        | _ :: _ => res = Raise (SystemExit 1)
        | [] =>
            if upgrade args
            then exists what, res = Raise (Exception InvalidVersion what)
            else res = Raise (SystemExit 0)
        end
      else res = Ok tt
  end.
Proof.
  unfold main. unfold bind at 1.
  destruct (initialize_logging (verbose args) None st) as [[[]|e] st1]; simpl fst;
    [|intros H; now injection H as <- _].
  destruct (version_message_is_no_version r) as (vm & what & Hc & Hp).
  unfold bind, log_command_line_arguments, logging_info, logging_error, log,
    modify, lift, sys_exit, ret.
  rewrite Hc.
  destruct (upgrade args); simpl orb; cbv iota.
  - destruct unknown_args as [|u us].
    + rewrite Hp. intros H. injection H as <- _. eauto.
    + intros H. now injection H as <- _.
  - destruct (help args); cbv iota.
    + destruct unknown_args as [|u us]; intros H; now injection H as <- _.
    + intros H. now injection H as <- _.
Qed.

(** The exit status of the process, from the flags alone once logging is
    set up. *)
Lemma run_termination argv args unknown_args r clone fs keyboard :
  fst (run argv args unknown_args r clone fs keyboard) =
  match fst (initialize_logging (verbose args) None (boot fs keyboard)) with
  | Raise (SystemExit status) => Exits status
  | Raise (Exception _ _) => Exits 1
  | Ok _ =>
      if upgrade args || help args then
        match unknown_args with
        | _ :: _ => Exits 1
        | [] => if upgrade args then Exits 1 else Exits 0
        end
      else EntersWorkflow
  end.
Proof.
  unfold run.
  destruct (main argv args unknown_args r clone (boot fs keyboard))
    as [res st'] eqn:Hm.
  pose proof (main_result _ _ _ _ _ _ _ _ Hm) as H.
  destruct (fst (initialize_logging (verbose args) None (boot fs keyboard)))
    as [[]|[cls msg|status]].
  - destruct (upgrade args || help args).
    + destruct unknown_args as [|u us].
      * destruct (upgrade args).
        -- destruct H as [what ->]. reflexivity.
        -- subst res. reflexivity.
      * subst res. reflexivity.
    + subst res. reflexivity.
  - subst res. reflexivity.
  - subst res. reflexivity.
Qed.

(** *** Steps that neither exit nor leave their files *)

Lemma tame_weaken (P Q : string -> Prop) {A} (m : M A) :
  (forall x, P x -> Q x) -> tame P m -> tame Q m.
Proof.
  intros HPQ Hm st r st' Hr. destruct (Hm st r st' Hr) as [H1 H2].
  split; [exact H1|]. intros Hl. destruct (H2 Hl) as [H3 H4].
  split; [exact H3|]. intros x Hx HQ. apply H4; auto.
Qed.

Lemma tame_ret P {A} (a : A) : tame P (ret a).
Proof. intros st r st' H. injection H as <- <-. split; [congruence|auto]. Qed.

Lemma tame_throw P {A} cls msg : tame P (@throw A cls msg).
Proof. intros st r st' H. injection H as <- <-. split; [congruence|auto]. Qed.

Lemma tame_lift P {A} (r : result A) :
  (forall status, r <> Raise (SystemExit status)) -> tame P (lift r).
Proof. intros Hr st r' st' H. injection H as <- <-. split; auto. Qed.

Lemma tame_bind P {A B} (m : M A) (k : A -> M B) :
  tame P m -> (forall a, tame P (k a)) -> tame P (bind m k).
Proof.
  intros Hm Hk st r st' H. unfold bind in H.
  destruct (m st) as [[a|e] st1] eqn:E.
  - destruct (Hm _ _ _ E) as [_ H2]. destruct (Hk a _ _ _ H) as [H3 H4].
    split; [exact H3|]. intros Hl. destruct (H2 Hl) as [H5 H6].
    destruct (H4 H5) as [H7 H8]. split; [exact H7|].
    intros x Hx HP. rewrite H8, H6; auto.
  - injection H as <- <-. destruct (Hm _ _ _ E) as [H1 H2].
    split; [|exact H2]. intros status Hs. apply (H1 status). congruence.
Qed.

Lemma tame_when P b m : tame P m -> tame P (when b m).
Proof. intros Hm. destruct b; [exact Hm|apply tame_ret]. Qed.

Lemma tame_for_each P {A} (l : list A) body :
  (forall a, tame P (body a)) -> tame P (for_each l body).
Proof.
  intros Hb. induction l as [|a l IH]; simpl; [apply tame_ret|].
  apply tame_bind; auto.
Qed.

Lemma tame_modify P f :
  (forall st, cwd (f st) = cwd st) ->
  (forall st, logs_into log_file (handlers st) ->
              logs_into log_file (handlers (f st))) ->
  tame P (modify f).
Proof.
  intros Hc Hh st r st' H. injection H as <- <-. split; [congruence|].
  intros Hl. split; [auto|]. intros x _ _. now rewrite Hc.
Qed.

Ltac no_exit :=
  let s := fresh "status" in
  let H := fresh "H" in
  intros s H; unfold raise in *;
  first [ discriminate H
        | match goal with
          | Hn : forall status, _ <> Raise (SystemExit status) |- _ =>
              apply (Hn s); injection H as ->; reflexivity
          end ].

Lemma tame_path_exists P p : tame P (path_exists p).
Proof. intros st r st' H. injection H as <- <-. split; [congruence|auto]. Qed.

Lemma tame_isfile P p : tame P (isfile p).
Proof. intros st r st' H. injection H as <- <-. split; [congruence|auto]. Qed.

Lemma node_lookup_no_exit p : forall n status,
  node_lookup p n <> Raise (SystemExit status).
Proof.
  induction p as [|x p IH]; intros n status; simpl; [congruence|].
  destruct n as [c|es]; [unfold raise; congruence|].
  destruct (es !! x); [apply IH|unfold raise; congruence].
Qed.

Lemma node_write_no_exit p text : forall n status,
  node_write p text n <> Raise (SystemExit status).
Proof.
  induction p as [|x p IH]; intros n status; simpl.
  - destruct n; [congruence|unfold raise; congruence].
  - destruct n as [c|es]; [unfold raise; congruence|].
    destruct (es !! x) as [m|] eqn:E.
    + specialize (IH m status). destruct (node_write p text m); simpl;
        destruct p; congruence.
    + destruct p; [congruence|unfold raise; congruence].
Qed.

Lemma tame_read_text P p : tame P (read_text p).
Proof.
  intros st r st' H. unfold read_text in H.
  pose proof (node_lookup_no_exit p (cwd st)) as Hn.
  destruct (node_lookup p (cwd st)) as [[c|es]|e]; injection H as <- <-;
    (split; [no_exit|auto]).
Qed.

Lemma tame_write_text (P : string -> Prop) x p text :
  P x -> tame P (write_text (x :: p) text).
Proof.
  intros HP st r st' H. unfold write_text in H.
  pose proof (node_write_no_exit (x :: p) text (cwd st)) as Hn.
  destruct (node_write (x :: p) text (cwd st)) as [n|e] eqn:E;
    injection H as <- <-.
  - split; [congruence|]. intros Hl. split; [exact Hl|].
    intros y Hy HPy. simpl. eapply node_write_frame; eauto. congruence.
  - split; [no_exit|auto].
Qed.

Lemma tame_log_file_write P text : tame P (write_text [log_file] text).
Proof.
  intros st r st' H. unfold write_text in H.
  pose proof (node_write_no_exit [log_file] text (cwd st)) as Hn.
  destruct (node_write [log_file] text (cwd st)) as [n|e] eqn:E;
    injection H as <- <-.
  - split; [congruence|]. intros Hl. split; [exact Hl|].
    intros y Hy HPy. simpl. eapply node_write_frame; eauto.
  - split; [no_exit|auto].
Qed.

Lemma tame_copyfile (P : string -> Prop) src x p :
  P x -> tame P (copyfile src (x :: p)).
Proof.
  intros HP. apply tame_bind; [apply tame_read_text|].
  intros text. now apply tame_write_text.
Qed.

Lemma tame_makedirs (P : string -> Prop) name : P name -> tame P (makedirs name).
Proof.
  intros HP st r st' H. unfold makedirs in H.
  destruct (entry name (cwd st)); injection H as <- <-.
  - split; [unfold raise; congruence|auto].
  - split; [congruence|]. intros Hl. split; [exact Hl|].
    intros y Hy HPy. simpl. apply entry_set_entry_ne. congruence.
Qed.

Lemma tame_rmtree (P : string -> Prop) name : P name -> tame P (rmtree name).
Proof.
  intros HP st r st' H. unfold rmtree in H.
  destruct (entry name (cwd st)) as [[c|es]|]; injection H as <- <-.
  - split; [unfold raise; congruence|auto].
  - split; [congruence|]. intros Hl. split; [exact Hl|].
    intros y Hy HPy. simpl. apply entry_remove_entry_ne. congruence.
  - split; [unfold raise; congruence|auto].
Qed.

Lemma tame_listdir P name : tame P (listdir name).
Proof.
  intros st r st' H. unfold listdir in H.
  destruct (entry name (cwd st)) as [[c|es]|]; injection H as <- <-;
    (split; [unfold raise; congruence|auto]).
Qed.

Lemma tame_log P lvl msg exc : tame P (log lvl msg exc).
Proof.
  intros st r st' H. split.
  - unfold log, modify in H. injection H as <- _. congruence.
  - intros Hl.
    destruct (log_spec log_file lvl msg exc st Hl)
      as (st1 & Hr & [G _] & Hl1 & _).
    rewrite Hr in H. injection H as _ <-. split; [exact Hl1|].
    intros x Hx _. now apply G.
Qed.

Lemma tame_print P text : tame P (print text).
Proof. apply tame_modify; intros st; simpl; auto. Qed.

Lemma load_config_no_exit found status :
  load_config found <> Raise (SystemExit status).
Proof.
  destruct found as [[text|es]|e]; simpl; try congruence.
  destruct (parse_ini text) as [cfg|[cls msg]]; [|unfold raise]; congruence.
Qed.

Lemma tame_config_read P p : tame P (config_read p).
Proof.
  intros st r st' H. injection H as <- <-.
  split; [intros s; apply load_config_no_exit|auto].
Qed.

Lemma tame_git_clone (P : string -> Prop) clone dest :
  P dest -> tame P (git_clone clone dest).
Proof.
  intros HP. destruct clone as [tree| | |tree]; simpl.
  - intros st r st' H. injection H as <- <-. split; [congruence|].
    intros Hl. destruct (entry dest (cwd st)); simpl; (split; [exact Hl|]); auto.
    intros y Hy HPy. apply entry_set_entry_ne. congruence.
  - apply tame_ret.
  - apply tame_throw.
  - intros st r st' H. injection H as <- <-. split; [congruence|].
    intros Hl. destruct (entry dest (cwd st)); simpl; (split; [exact Hl|]); auto.
    intros y Hy HPy. apply entry_set_entry_ne. congruence.
Qed.

Lemma result_bind_no_exit {A B} (r : result A) (k : A -> result B) :
  (forall status, r <> Raise (SystemExit status)) ->
  (forall a status, k a <> Raise (SystemExit status)) ->
  forall status, result_bind r k <> Raise (SystemExit status).
Proof.
  intros Hr Hk status. destruct r as [a|e]; simpl; [apply Hk|].
  intros H. apply (Hr status). now injection H as ->.
Qed.

Lemma scan_no_exit deeper map :
  (forall v status, deeper v <> Raise (SystemExit status)) ->
  forall fuel rest status,
    scan deeper map fuel rest <> Raise (SystemExit status).
Proof.
  intros Hd. induction fuel as [|fuel IH]; intros rest status; simpl;
    [congruence|].
  destruct (Str.take_while (fun c => negb (Ascii.eqb c "%")) rest)
    as [plain rest'].
  destruct rest' as [|c1 [|c2 r]]; try (unfold raise; congruence).
  destruct (Ascii.eqb c2 "%").
  { apply result_bind_no_exit; [intros s; apply IH|congruence]. }
  destruct (Ascii.eqb c2 "("); [|unfold raise; congruence].
  destruct (keycre_match (String c1 (String c2 r))) as [[name r']|];
    [|unfold raise; congruence].
  destruct (dict_get (optionxform name) map) as [v|];
    [|unfold raise; congruence].
  apply result_bind_no_exit.
  - destruct (Str.mem "%" v); [intros s; apply Hd|congruence].
  - intros value s. apply result_bind_no_exit; [intros s'; apply IH|congruence].
Qed.

Lemma interpolate_some_no_exit levels : forall map rest status,
  interpolate_some levels map rest <> Raise (SystemExit status).
Proof.
  induction levels as [|levels IH]; intros map rest status;
    [simpl; unfold raise; congruence|].
  cbn [interpolate_some]. apply scan_no_exit. intros v s. apply IH.
Qed.

Lemma get_no_exit cfg section option status :
  get cfg section option <> Raise (SystemExit status).
Proof.
  unfold get. apply result_bind_no_exit.
  - intros s. destruct (dict_get section (sections_map cfg)); [congruence|].
    destruct (String.eqb section default_section); [congruence|].
    unfold raise. congruence.
  - intros d s. destruct (dict_get (optionxform option) d);
      [apply interpolate_some_no_exit|unfold raise; congruence].
Qed.

Lemma console_level_no_exit verbose config status :
  console_level verbose config <> Raise (SystemExit status).
Proof.
  unfold console_level. apply result_bind_no_exit; [|congruence].
  intros s. destruct (negb verbose && has_option config _ _); [|congruence].
  apply result_bind_no_exit; [intros s'; apply get_no_exit|congruence].
Qed.

Lemma check_level_no_exit v status :
  logging.check_level v <> Raise (SystemExit status).
Proof.
  destruct v as [n|s|]; unfold logging.check_level;
    [congruence| |unfold raise; congruence].
  destruct (dict_get s logging.name_to_level); [|unfold raise]; congruence.
Qed.

Lemma logs_into_app name hs h :
  logs_into name hs -> (forall n, target h = ToFile n -> n = name) ->
  logs_into name (hs ++ [h]).
Proof.
  intros Hl Hh h' Hin. apply in_app_or in Hin as [Hin|[<-|[]]];
    [exact (Hl h' Hin)|exact Hh].
Qed.

Lemma tame_initialize_logging P verbose message :
  tame P (initialize_logging verbose message).
Proof.
  unfold initialize_logging.
  apply tame_bind; [apply tame_config_read|intros config].
  apply tame_bind; [apply tame_lift; intros s; apply console_level_no_exit|].
  intros v.
  apply tame_bind; [apply tame_modify; intros st; simpl; auto|intros _].
  apply tame_bind.
  { apply tame_modify; intros st; destruct (handlers st) eqn:E; simpl; auto.
    - now rewrite E.
    - intros _ h' Hin. destruct Hin. }
  intros _.
  apply tame_bind; [apply tame_log_file_write|intros _].
  apply tame_bind.
  { apply tame_modify; intros st; simpl; auto.
    intros Hl. apply logs_into_app; auto.
    simpl. intros n H. now injection H as <-. }
  intros _.
  apply tame_bind; [apply tame_lift; intros s; apply check_level_no_exit|].
  intros lvl.
  apply tame_bind.
  { apply tame_modify; intros st; simpl; auto.
    intros Hl. apply logs_into_app; auto. simpl. discriminate. }
  intros _. destruct message as [[|c m]|]; try apply tame_ret. apply tame_log.
Qed.

Lemma tame_confined P {A} (m : M A) : tame P m -> confined P m.
Proof. intros Hm st r st' H. exact (proj2 (Hm st r st' H)). Qed.

Lemma confined_bind P {A B} (m : M A) (k : A -> M B) :
  confined P m -> (forall a, confined P (k a)) -> confined P (bind m k).
Proof.
  intros Hm Hk st r st' H Hl. unfold bind in H.
  destruct (m st) as [[a|e] st1] eqn:E.
  - destruct (Hm _ _ _ E Hl) as [H1 H2].
    destruct (Hk a _ _ _ H H1) as [H3 H4]. split; [exact H3|].
    intros x Hx HP. rewrite H4, H2; auto.
  - injection H as <- <-. exact (Hm _ _ _ E Hl).
Qed.

Lemma confined_sys_exit P {A} status : confined P (@sys_exit A status).
Proof. intros st r st' H Hl. injection H as <- <-. auto. Qed.

Lemma initialize_logging_post verbose st st1 :
  initialize_logging verbose None st = (Ok tt, st1) ->
  exists lvl,
    handlers st1 = [file_handler; console_handler lvl]
    /\ root_level st1 = logging.DEBUG
    /\ entry log_file (cwd st1) = Some (File "")
    /\ excepthook st1 = excepthook st
    /\ stdout st1 = stdout st.
Proof.
  unfold initialize_logging, bind, lift, modify, write_text, ret.
  pose proof (config_read_state [config_file] st) as Hs.
  destruct (config_read [config_file] st) as [[cfg|e] st0]; [|discriminate].
  simpl in Hs. subst st0.
  destruct (console_level verbose cfg) as [v|e]; [|discriminate].
  match goal with
  | |- context [node_write [log_file] "" (cwd ?s)] => set (st2 := s)
  end.
  assert (H2 : handlers st2 = [] /\ root_level st2 = logging.DEBUG
               /\ excepthook st2 = excepthook st /\ stdout st2 = stdout st).
  { subst st2. simpl. destruct (handlers st) eqn:E; simpl; auto. }
  destruct H2 as (A2 & R2 & X2 & O2). clearbody st2.
  destruct (node_write [log_file] "" (cwd st2)) as [n|e] eqn:Hw; [|discriminate].
  destruct (logging.check_level v) as [lvl|e]; [|discriminate].
  intros H. injection H as <-. exists lvl. simpl. rewrite A2.
  destruct (node_write_top _ _ _ _ Hw) as (He & _). auto.
Qed.

Lemma check_latest_version_no_exit r status :
  check_latest_version r <> Raise (SystemExit status).
Proof.
  destruct (version_message_is_no_version r) as (vm & _ & -> & _). congruence.
Qed.

Lemma logs_into_nil name : logs_into name [].
Proof. intros h []. Qed.

(** The run of [main] when neither [--upgrade] nor [--help] is given. *)
Lemma main_plain argv args unknown_args r clone st st1 :
  upgrade args = false -> help args = false ->
  initialize_logging (verbose args) None st = (Ok tt, st1) ->
  exists st' vm before,
    check_latest_version r = Ok vm
    /\ main argv args unknown_args r clone st = (Ok tt, st')
    /\ entry log_file (cwd st')
       = Some (File (before
                     +:+ (file_format logging.INFO (startup_message vm)
                          +:+ newline))).
Proof.
  intros Hu Hh Hinit.
  destruct (initialize_logging_post _ _ _ Hinit) as (lvl & A1 & R1 & E1 & _).
  destruct (version_message_is_no_version r) as (vm & what & Hc & _).
  assert (Hd : logging.DEBUG <= logging.INFO)
    by (unfold logging.DEBUG, logging.INFO; lia).
  destruct (log_initialized lvl logging.INFO
              ("Command-line arguments: " +:+ Str.join " " argv) None st1 ""
              A1 R1 E1 Hd)
    as (st2 & H2 & A2 & R2 & E2 & _).
  set (st3 := with_excepthook true st2).
  destruct (log_initialized lvl logging.INFO (startup_message vm) None st3 _
              (eq_trans A2 A1) (eq_trans R2 R1) E2 Hd)
    as (st4 & H4 & A4 & R4 & E4 & _).
  exists st4, vm. eexists. split; [exact Hc|]. split; [|exact E4].
  unfold main. unfold bind at 1. rewrite Hinit.
  unfold bind at 1. unfold log_command_line_arguments, logging_info.
  rewrite H2.
  unfold bind at 1. unfold modify at 1.
  unfold bind at 1. unfold lift at 1. rewrite Hc.
  unfold bind at 1. fold st3. rewrite H4. rewrite Hu, Hh. reflexivity.
Qed.

(** *** Dictionaries *)

Lemma dict_get_set_eq {V} k (v : V) d : dict_get k (dict_set k v d) = Some v.
Proof.
  induction d as [|[k' v'] d IH]; simpl.
  - now rewrite String.eqb_refl.
  - destruct (String.eqb k' k) eqn:E; simpl; rewrite E; auto.
Qed.

Lemma dict_get_set_ne {V} k k' (v : V) d :
  k <> k' -> dict_get k' (dict_set k v d) = dict_get k' d.
Proof.
  intros Hne. induction d as [|[k0 v0] d IH]; simpl.
  - destruct (String.eqb k k') eqn:E; [|reflexivity].
    apply String.eqb_eq in E. contradiction.
  - destruct (String.eqb k0 k) eqn:E; simpl.
    + apply String.eqb_eq in E. subst k0.
      destruct (String.eqb k k') eqn:E'; [|reflexivity].
      apply String.eqb_eq in E'. contradiction.
    + now rewrite IH.
Qed.

Lemma dict_set_id {V} k (v : V) d : dict_get k d = Some v -> dict_set k v d = d.
Proof.
  induction d as [|[k' v'] d IH]; simpl; [discriminate|].
  destruct (String.eqb k' k) eqn:E.
  - intros H. now injection H as ->.
  - intros H. now rewrite IH.
Qed.

Lemma dict_get_In {V} k (v : V) d : dict_get k d = Some v -> In (k, v) d.
Proof.
  induction d as [|[k' v'] d IH]; simpl; [discriminate|].
  destruct (String.eqb k' k) eqn:E.
  - apply String.eqb_eq in E. subst k'. intros H. injection H as ->. now left.
  - intros H. right. auto.
Qed.

Lemma dict_get_key {V} k (d : list (string * V)) :
  In k (List.map fst d) -> exists v, dict_get k d = Some v.
Proof.
  induction d as [|[k' v'] d IH]; simpl; [intros []|].
  destruct (String.eqb k' k) eqn:E; [eauto|].
  intros [H|H]; [|auto]. subst k'. now rewrite String.eqb_refl in E.
Qed.

Lemma dict_set_keys {V} k (v : V) d k' :
  In k' (List.map fst (dict_set k v d)) -> k' = k \/ In k' (List.map fst d).
Proof.
  induction d as [|[k0 v0] d IH]; simpl.
  - intros [H|[]]. now left.
  - destruct (String.eqb k0 k) eqn:E; simpl.
    + intros [H|H]; right; auto.
    + intros [H|H]; [right; now left|].
      destruct (IH H); [now left|right; now right].
Qed.

Lemma dict_update_keys {V} (e d : list (string * V)) k :
  In k (List.map fst (dict_update d e)) ->
  In k (List.map fst d) \/ In k (List.map fst e).
Proof.
  unfold dict_update. revert d. induction e as [|[k0 v0] e IH]; intros d; simpl.
  - now left.
  - intros H. destruct (IH _ H) as [H'|H'].
    + destruct (dict_set_keys _ _ _ _ H'); [right; now left|now left].
    + right. now right.
Qed.

(** *** The configuration merge *)

Lemma before_set_value v v' : before_set v = Ok v' -> v' = v.
Proof.
  unfold before_set. destruct (Str.mem "%" _); [discriminate|].
  intros H. now injection H.
Qed.

Lemma set_spec cfg s k v cfg' :
  is_default s = false ->
  set cfg s k v = Ok cfg' ->
  settable v
  /\ defaults cfg' = defaults cfg
  /\ exists d,
       section_of cfg s = Some d
       /\ sections_map cfg'
          = dict_set s (dict_set (optionxform k) v d) (sections_map cfg).
Proof.
  intros Hs. unfold set, settable, section_of. rewrite Hs.
  destruct (String.eqb v "") eqn:Ev; simpl.
  - destruct (dict_get s (sections_map cfg)) as [d|]; [|discriminate].
    intros H. injection H as <-. simpl. eauto.
  - destruct (before_set v) as [v'|e] eqn:Eb; [|discriminate]. simpl.
    apply before_set_value in Eb. subst v'.
    destruct (dict_get s (sections_map cfg)) as [d|]; [|discriminate].
    intros H. injection H as <-. simpl. eauto.
Qed.

Lemma set_noop m s k v d :
  is_default s = false ->
  section_of m s = Some d ->
  dict_get (optionxform k) d = Some v ->
  settable v ->
  set m s k v = Ok m.
Proof.
  unfold set, settable, section_of. intros Hs Hd Hk Hv. rewrite Hv. simpl.
  rewrite Hs, Hd. rewrite (dict_set_id _ _ _ Hk).
  rewrite (dict_set_id (V:=list (string * string)) _ _ _ Hd).
  now destruct m.
Qed.

Lemma mapM_In {A B} (f : A -> result B) l l' y :
  mapM f l = Ok l' -> In y l' -> exists x, In x l /\ f x = Ok y.
Proof.
  revert l'. induction l as [|a l IH]; intros l'; simpl.
  - intros H. injection H as <-. intros [].
  - destruct (f a) as [b|e] eqn:Ef; [|discriminate]. simpl.
    destruct (mapM f l) as [bs|e]; [|discriminate]. simpl.
    intros H. injection H as <-. intros [<-|Hin]; [eauto|].
    destruct (IH bs eq_refl Hin) as (x & Hx & Hf). eauto.
Qed.

(** The settings [items] reports are a function of the option name, and
    the names are those of the defaults and of the section. *)
Lemma items_spec o s settings :
  items o s = Ok settings ->
  exists d,
    (forall k, In k (List.map fst d) ->
       In k (List.map fst (defaults o))
       \/ exists sect, section_of o s = Some sect /\ In k (List.map fst sect))
    /\ forall k v, In (k, v) settings ->
         In k (List.map fst d)
         /\ exists raw, dict_get k d = Some raw /\ before_get raw d = Ok v.
Proof.
  unfold items, section_of.
  destruct (dict_get s (sections_map o)) as [sect|] eqn:Es; simpl.
  - intros H. exists (dict_update (defaults o) sect). split.
    + intros k Hk. destruct (dict_update_keys _ _ _ Hk); eauto.
    + intros k v Hin. destruct (mapM_In _ _ _ _ H Hin) as (x & Hx & Hf).
      destruct (dict_get x _) as [raw|] eqn:Er; [|discriminate].
      destruct (before_get raw _) as [value|] eqn:Eb; [|discriminate].
      simpl in Hf. injection Hf as <- <-. eauto.
  - destruct (String.eqb s default_section); [|discriminate]. simpl.
    intros H. exists (defaults o). split; [auto|].
    intros k v Hin. destruct (mapM_In _ _ _ _ H Hin) as (x & Hx & Hf).
    destruct (dict_get x _) as [raw|] eqn:Er; [|discriminate].
    destruct (before_get raw _) as [value|] eqn:Eb; [|discriminate].
    simpl in Hf. injection Hf as <- <-. eauto.
Qed.

Lemma items_functional o s settings :
  well_formed o ->
  items o s = Ok settings ->
  forall k1 v1 k2 v2,
    In (k1, v1) settings -> In (k2, v2) settings ->
    optionxform k1 = optionxform k2 -> v1 = v2.
Proof.
  intros [Hd Hs] Hi k1 v1 k2 v2 H1 H2 Hx.
  destruct (items_spec _ _ _ Hi) as (d & Hkeys & Hval).
  destruct (Hval _ _ H1) as (K1 & raw1 & R1 & B1).
  destruct (Hval _ _ H2) as (K2 & raw2 & R2 & B2).
  assert (Hn : forall k, In k (List.map fst d) -> optionxform k = k).
  { intros k Hk. destruct (Hkeys k Hk) as [H|(sect & Hsect & H)]; [auto|].
    apply dict_get_In in Hsect. destruct (Hs _ _ Hsect) as [_ Hk']. auto. }
  rewrite (Hn _ K1), (Hn _ K2) in Hx. subst k2. congruence.
Qed.

Lemma section_of_set cfg s k v cfg' :
  is_default s = false ->
  set cfg s k v = Ok cfg' ->
  (forall s', s' <> s -> section_of cfg' s' = section_of cfg s')
  /\ exists d, section_of cfg s = Some d
               /\ section_of cfg' s = Some (dict_set (optionxform k) v d).
Proof.
  intros Hs H. destruct (set_spec _ _ _ _ _ Hs H) as (_ & _ & d & Hd & Hm).
  unfold section_of in *. rewrite Hm. split.
  - intros s' Hne. apply dict_get_set_ne. congruence.
  - exists d. split; [exact Hd|]. apply dict_get_set_eq.
Qed.

(** After the loop of line 182 every setting is in the section, all
    values passed the check, and nothing else moved. *)
Lemma set_all_spec s : forall settings cfg cfg',
  is_default s = false ->
  (forall k1 v1 k2 v2, In (k1, v1) settings -> In (k2, v2) settings ->
     optionxform k1 = optionxform k2 -> v1 = v2) ->
  set_all s cfg settings = Ok cfg' ->
  defaults cfg' = defaults cfg
  /\ (forall s', s' <> s -> section_of cfg' s' = section_of cfg s')
  /\ (forall d, section_of cfg s = Some d -> exists d', section_of cfg' s = Some d')
  /\ (forall k v, In (k, v) settings -> settable v)
  /\ (forall k v, In (k, v) settings ->
        exists d', section_of cfg' s = Some d'
                   /\ dict_get (optionxform k) d' = Some v)
  /\ (forall k0 v0 d, section_of cfg s = Some d -> dict_get k0 d = Some v0 ->
        (forall k v, In (k, v) settings -> optionxform k = k0 -> v = v0) ->
        exists d', section_of cfg' s = Some d' /\ dict_get k0 d' = Some v0).
Proof.
  unfold set_all.
  induction settings as [|[k v] settings IH]; intros cfg cfg' Hs Hfun; simpl.
  - intros H. injection H as <-.
    split; [reflexivity|]. split; [reflexivity|]. split; [eauto|].
    split; [intros k v []|]. split; [intros k v []|]. eauto.
  - destruct (set cfg s k v) as [cfg1|e] eqn:Hset; [|discriminate]. simpl.
    intros Hrest.
    destruct (set_spec _ _ _ _ _ Hs Hset) as (Hv & Hdef & _).
    destruct (section_of_set _ _ _ _ _ Hs Hset) as (Hother & d & Hd & Hd1).
    destruct (IH cfg1 cfg' Hs) as (I1 & I2 & I3 & I4 & I5 & I6); auto.
    { intros k1 v1 k2 v2 H1 H2. apply Hfun; now right. }
    split; [congruence|]. split.
    { intros s' Hne. rewrite I2, Hother; auto. }
    split.
    { intros d0 _. apply (I3 _ Hd1). }
    split.
    { intros k' v' [H|H]; [now injection H as <- <-|eauto]. }
    split.
    { intros k' v' [H|H]; [|eauto]. injection H as <- <-.
      apply (I6 (optionxform k) v _ Hd1); [apply dict_get_set_eq|].
      intros k2 v2 Hin Hx. symmetry. apply (Hfun k v k2 v2); auto.
      - now left.
      - now right. }
    intros k0 v0 d0 Hd0 Hk0 Hkeep.
    rewrite Hd in Hd0. injection Hd0 as <-.
    apply (I6 k0 v0 _ Hd1).
    + destruct (String.eqb (optionxform k) k0) eqn:E.
      * apply String.eqb_eq in E. subst k0.
        rewrite (Hkeep k v (or_introl eq_refl) eq_refl). apply dict_get_set_eq.
      * apply String.eqb_neq in E. now rewrite dict_get_set_ne.
    + intros k2 v2 Hin. apply Hkeep. now right.
Qed.

Lemma set_all_noop s m d : forall settings,
  is_default s = false ->
  section_of m s = Some d ->
  (forall k v, In (k, v) settings ->
     dict_get (optionxform k) d = Some v /\ settable v) ->
  set_all s m settings = Ok m.
Proof.
  unfold set_all. induction settings as [|[k v] settings IH];
    intros Hs Hd Hall; simpl; [reflexivity|].
  destruct (Hall k v (or_introl eq_refl)) as [Hk Hv].
  rewrite (set_noop m s k v d Hs Hd Hk Hv). simpl.
  apply IH; auto. intros k' v' Hin. apply Hall. now right.
Qed.

Lemma has_section_section_of cfg s :
  has_section cfg s = true <-> exists d, section_of cfg s = Some d.
Proof.
  unfold has_section, dict_has, section_of.
  destruct (dict_get s (sections_map cfg)) as [d|]; split; eauto.
  - discriminate.
  - intros [d H]. discriminate.
Qed.

Lemma merge_section_spec o cfg s cfg' :
  well_formed o ->
  is_default s = false ->
  merge_section o cfg s = Ok cfg' ->
  absorbed o s cfg'
  /\ (forall s', s' <> s -> is_default s' = false ->
        forall d, section_of cfg s' = Some d -> section_of cfg' s' = Some d).
Proof.
  intros Hwf Hs. unfold merge_section.
  destruct (if has_section cfg s then Ok cfg else add_section cfg s)
    as [cfg0|e] eqn:H0; [|discriminate]. simpl.
  destruct (items o s) as [settings|e] eqn:Hi; [|discriminate]. simpl.
  fold (set_all s cfg0 settings). intros Hall.
  assert (Hsec : (exists d0, section_of cfg0 s = Some d0)
                 /\ forall s', s' <> s ->
                      section_of cfg0 s' = section_of cfg s').
  { destruct (has_section cfg s) eqn:Hhas.
    - injection H0 as <-. split; [now apply has_section_section_of|auto].
    - unfold add_section in H0.
      destruct (String.eqb s default_section); [discriminate|].
      rewrite Hhas in H0. injection H0 as <-. unfold section_of. simpl. split.
      + exists []. apply dict_get_set_eq.
      + intros s' Hne. apply dict_get_set_ne. congruence. }
  destruct Hsec as [[d0 Hd0] Hother0].
  destruct (set_all_spec s settings cfg0 cfg' Hs
              (items_functional o s settings Hwf Hi) Hall)
    as (_ & I2 & I3 & I4 & I5 & _).
  destruct (I3 _ Hd0) as [d' Hd']. split.
  - exists settings, d'. split; [exact Hi|]. split; [exact Hd'|].
    intros k v Hin. split; [|eauto].
    destruct (I5 _ _ Hin) as (d'' & Hd'' & Hk). congruence.
  - intros s' Hne _ d Hd. rewrite I2, Hother0; auto.
Qed.

Lemma absorbed_kept o s cfg s' cfg' :
  well_formed o ->
  is_default s = false -> is_default s' = false ->
  absorbed o s' cfg ->
  merge_section o cfg s = Ok cfg' ->
  absorbed o s' cfg'.
Proof.
  intros Hwf Hs Hs' Habs Hm.
  destruct (merge_section_spec _ _ _ _ Hwf Hs Hm) as [Hnew Hold].
  destruct (String.eqb s' s) eqn:E.
  - apply String.eqb_eq in E. now subst s'.
  - apply String.eqb_neq in E.
    destruct Habs as (settings & d & Hi & Hd & Hall).
    exists settings, d. split; [exact Hi|]. split; [|exact Hall].
    apply Hold; auto.
Qed.

Lemma merge_absorbs o : forall l cfg m,
  well_formed o ->
  (forall s, In s l -> is_default s = false) ->
  foldM (merge_section o) cfg l = Ok m ->
  (forall s, is_default s = false -> absorbed o s cfg -> absorbed o s m)
  /\ forall s, In s l -> absorbed o s m.
Proof.
  induction l as [|s l IH]; intros cfg m Hwf Hl; simpl.
  - intros H. injection H as <-. split; [auto|intros s []].
  - destruct (merge_section o cfg s) as [cfg1|e] eqn:H1; [|discriminate]. simpl.
    intros Hrest.
    assert (Hs : is_default s = false) by (apply Hl; now left).
    destruct (IH cfg1 m Hwf) as [Hkeep Hin]; auto.
    { intros s' Hs'. apply Hl. now right. }
    split.
    + intros s' Hs' Habs. apply Hkeep; [exact Hs'|].
      exact (absorbed_kept o s cfg s' cfg1 Hwf Hs Hs' Habs H1).
    + intros s' [<-|Hs']; [|auto].
      apply Hkeep; [exact Hs|].
      exact (proj1 (merge_section_spec o cfg s cfg1 Hwf Hs H1)).
Qed.

Lemma merge_section_noop o m s :
  is_default s = false -> absorbed o s m -> merge_section o m s = Ok m.
Proof.
  intros Hs (settings & d & Hi & Hd & Hall). unfold merge_section.
  assert (Hhas : has_section m s = true)
    by (apply has_section_section_of; eauto).
  rewrite Hhas. simpl. rewrite Hi. simpl.
  now apply (set_all_noop s m d).
Qed.

Lemma merge_noop o m : forall l,
  (forall s, In s l -> is_default s = false /\ absorbed o s m) ->
  foldM (merge_section o) m l = Ok m.
Proof.
  induction l as [|s l IH]; intros Hl; simpl; [reflexivity|].
  destruct (Hl s (or_introl eq_refl)) as [Hs Habs].
  rewrite (merge_section_noop o m s Hs Habs). simpl.
  apply IH. intros s' Hs'. apply Hl. now right.
Qed.

Lemma well_formed_sections o s :
  well_formed o -> In s (sections o) -> is_default s = false.
Proof.
  intros [_ Hs] Hin. unfold sections in Hin.
  apply in_map_iff in Hin as ([s' d] & <- & Hin). apply (Hs _ _ Hin).
Qed.

Lemma merge_idempotent_ok base overrides merged :
  well_formed overrides ->
  merge base overrides = Ok merged ->
  merge merged overrides = Ok merged.
Proof.
  intros Hwf Hm. unfold merge in *.
  destruct (merge_absorbs overrides (sections overrides) base merged Hwf)
    as [_ Hin]; auto.
  { intros s. now apply well_formed_sections. }
  apply merge_noop. intros s Hs. split; [|auto].
  now apply (well_formed_sections overrides).
Qed.

Lemma dict_has_set {V} k (v : V) d k0 :
  dict_has k0 d = true -> dict_has k0 (dict_set k v d) = true.
Proof.
  unfold dict_has. destruct (String.eqb k k0) eqn:E.
  - apply String.eqb_eq in E. subst k0. now rewrite dict_get_set_eq.
  - apply String.eqb_neq in E. now rewrite dict_get_set_ne.
Qed.

Lemma set_keeps cfg s k v cfg' s0 k0 :
  is_default s = false ->
  set cfg s k v = Ok cfg' ->
  holds cfg s0 k0 -> holds cfg' s0 k0.
Proof.
  intros Hs Hset (d0 & Hd0 & Hk0).
  destruct (section_of_set _ _ _ _ _ Hs Hset) as (Hother & d & Hd & Hd').
  destruct (String.eqb s0 s) eqn:E.
  - apply String.eqb_eq in E. subst s0. rewrite Hd in Hd0. injection Hd0 as <-.
    eexists. split; [exact Hd'|]. now apply dict_has_set.
  - apply String.eqb_neq in E. exists d0. split; [|exact Hk0].
    rewrite Hother; auto.
Qed.

Lemma merge_section_keeps o cfg s cfg' :
  is_default s = false ->
  merge_section o cfg s = Ok cfg' ->
  defaults cfg' = defaults cfg
  /\ forall s0 k0, holds cfg s0 k0 -> holds cfg' s0 k0.
Proof.
  intros Hs. unfold merge_section.
  destruct (if has_section cfg s then Ok cfg else add_section cfg s)
    as [cfg0|e] eqn:H0; [|discriminate]. simpl.
  destruct (items o s) as [settings|e]; [|discriminate]. simpl.
  assert (Hpre : defaults cfg0 = defaults cfg
                 /\ forall s0 k0, holds cfg s0 k0 -> holds cfg0 s0 k0).
  { destruct (has_section cfg s) eqn:Hhas.
    - injection H0 as <-. auto.
    - unfold add_section in H0.
      destruct (String.eqb s default_section); [discriminate|].
      rewrite Hhas in H0. injection H0 as <-. split; [reflexivity|].
      intros s0 k0 (d & Hd & Hk). exists d. split; [|exact Hk].
      unfold section_of in *. simpl. rewrite dict_get_set_ne; [exact Hd|].
      intros <-. unfold has_section, dict_has in Hhas. now rewrite Hd in Hhas. }
  destruct Hpre as [Hdef Hkeep]. clear H0. revert cfg0 Hdef Hkeep.
  induction settings as [|[k v] settings IH]; intros cfg0 Hdef Hkeep; simpl.
  - intros H. injection H as <-. auto.
  - destruct (set cfg0 s k v) as [cfg1|e] eqn:Hset; [|discriminate]. simpl.
    apply IH.
    + destruct (set_spec _ _ _ _ _ Hs Hset) as (_ & Hd & _). congruence.
    + intros s0 k0 H. eapply set_keeps; eauto.
Qed.

(** What the merge does keep: the fetched defaults section as it is, and
    every option of every fetched section. *)
Lemma merge_keeps_base base overrides merged :
  well_formed overrides ->
  merge base overrides = Ok merged ->
  defaults merged = defaults base
  /\ forall s k, holds base s k -> holds merged s k.
Proof.
  intros Hwf. unfold merge.
  assert (Hl : forall s, In s (sections overrides) -> is_default s = false)
    by (intros s; now apply well_formed_sections).
  revert base Hl. induction (sections overrides) as [|s l IH];
    intros base Hl; simpl.
  - intros H. injection H as <-. auto.
  - destruct (merge_section overrides base s) as [cfg1|e] eqn:H1;
      [|discriminate]. simpl. intros H.
    destruct (merge_section_keeps _ _ _ _ (Hl s (or_introl eq_refl)) H1)
      as [D1 K1].
    destruct (IH cfg1 (fun s' Hs' => Hl s' (or_intror Hs')) H) as [D2 K2].
    split; [congruence|auto].
Qed.

(** And the settings of every section of the previous configuration. *)
Lemma merge_carries_sections base overrides merged s :
  well_formed overrides ->
  merge base overrides = Ok merged ->
  In s (sections overrides) ->
  absorbed overrides s merged.
Proof.
  intros Hwf Hm Hs. unfold merge in Hm.
  destruct (merge_absorbs overrides (sections overrides) base merged Hwf)
    as [_ Hin]; auto.
  intros s'. now apply well_formed_sections.
Qed.

(** *** [upgrade_autocrew] *)

Lemma bind_ok {A B} (m : M A) (k : A -> M B) st b st' :
  bind m k st = (Ok b, st') ->
  exists a st1, m st = (Ok a, st1) /\ k a st1 = (Ok b, st').
Proof.
  unfold bind. destruct (m st) as [[a|e] st1]; [eauto|discriminate].
Qed.

Lemma bind_exit {A B} (m : M A) (k : A -> M B) st status st' :
  bind m k st = (Raise (SystemExit status), st') -> tame (fun _ => True) m ->
  exists a st1, m st = (Ok a, st1) /\ k a st1 = (Raise (SystemExit status), st').
Proof.
  unfold bind. intros H Hm. destruct (m st) as [[a|e] st1] eqn:E; [eauto|].
  injection H as -> <-. destruct (Hm _ _ _ E) as [Hn _].
  now destruct (Hn status).
Qed.

Lemma entry_dir name n m : entry name n = Some m -> exists es, n = Dir es.
Proof. destruct n as [c|es]; [discriminate|eauto]. Qed.

Lemma node_lookup_top x n m :
  node_lookup [x] n = Ok m <-> entry x n = Some m.
Proof.
  destruct n as [c|es]; simpl; [split; discriminate|].
  destruct (es !! x); split; try discriminate; congruence.
Qed.

Lemma node_lookup_cons x p n m :
  entry x n = Some m -> node_lookup (x :: p) n = node_lookup p m.
Proof. destruct n as [c|es]; simpl; [discriminate|]. now intros ->. Qed.

Lemma path_exists_top x st :
  path_exists [x] st
  = (Ok match entry x (cwd st) with Some _ => true | None => false end, st).
Proof.
  unfold path_exists. f_equal. f_equal.
  destruct (node_lookup [x] (cwd st)) as [m|e] eqn:E.
  - apply node_lookup_top in E. now rewrite E.
  - destruct (entry x (cwd st)) as [m|] eqn:E'; [|reflexivity].
    apply node_lookup_top in E'. congruence.
Qed.

(** A write one level down: the directory gets the file. *)
Lemma node_write_in_dir d x text n n' :
  node_write [d; x] text n = Ok n' ->
  exists es, entry d n = Some (Dir es)
             /\ entry d n' = Some (Dir (<[x := File text]> es)).
Proof.
  intros H. destruct n as [c|top]; simpl in H; [discriminate|].
  simpl. destruct (top !! d) as [[c|es]|] eqn:Ed; simpl in H; try discriminate.
  exists es. split; [reflexivity|].
  destruct (es !! x) as [[c|es']|]; simpl in H; try discriminate;
    injection H as <-; simpl; now rewrite lookup_insert_eq.
Qed.

Lemma tame_backup_logfile latest_version :
  tame (fun x => x = backup_dir) (backup_logfile latest_version).
Proof.
  unfold backup_logfile.
  apply tame_bind; [apply tame_path_exists|intros present].
  apply tame_bind; [apply tame_when; now apply tame_makedirs|intros _].
  apply tame_bind; [apply tame_path_exists|intros present'].
  apply tame_when. apply tame_bind; [now apply tame_copyfile|intros _].
  apply tame_log.
Qed.

Lemma tame_backup_config : tame (fun x => x = backup_dir) backup_config.
Proof.
  unfold backup_config.
  apply tame_bind; [now apply tame_copyfile|intros _]. apply tame_log.
Qed.

Lemma tame_backup latest_version :
  tame (fun x => x = backup_dir) (backup latest_version).
Proof.
  unfold backup.
  apply tame_bind; [apply tame_backup_logfile|intros _].
  apply tame_backup_config.
Qed.

Lemma tame_fetch clone : tame (fun x => x = update_dir) (fetch clone).
Proof.
  unfold fetch.
  apply tame_bind; [apply tame_path_exists|intros present].
  apply tame_bind; [apply tame_when; now apply tame_rmtree|intros _].
  apply tame_bind; [apply tame_log|intros _]. now apply tame_git_clone.
Qed.

(** If the copy of the configuration file returns, the file was there and
    its text is now in the backup directory. *)
Lemma backup_config_post st st1 :
  logs_into log_file (handlers st) ->
  backup_config st = (Ok tt, st1) ->
  exists previous bes,
    entry "config.ini" (cwd st) = Some (File previous)
    /\ entry backup_dir (cwd st1) = Some (Dir bes)
    /\ bes !! "config_backup.ini" = Some (File previous).
Proof.
  intros Hl H. unfold backup_config in H.
  apply bind_ok in H as ([] & s5 & H5 & H).
  unfold copyfile in H5. apply bind_ok in H5 as (text & s4' & Hr & Hw).
  unfold read_text in Hr.
  destruct (node_lookup ["config.ini"] (cwd st)) as [[c|es]|e] eqn:En;
    try discriminate.
  injection Hr as <- <-. apply node_lookup_top in En.
  unfold write_text, config_backup_path in Hw.
  destruct (node_write [backup_dir; "config_backup.ini"] c (cwd st))
    as [n|e] eqn:Ew; [|discriminate].
  injection Hw as <-.
  destruct (node_write_in_dir _ _ _ _ _ Ew) as (bes & _ & Hb).
  exists c, (<["config_backup.ini" := File c]> bes).
  split; [exact En|]. split; [|apply lookup_insert_eq].
  assert (L5 : logs_into log_file (handlers (with_cwd n st))) by exact Hl.
  destruct (log_spec log_file logging.INFO
              "Backing up the current config.ini file..." None _ L5)
    as (s6 & Hr & [G _] & _).
  unfold logging_info in H. rewrite Hr in H. injection H as <-.
  rewrite G; [exact Hb|discriminate].
Qed.

Lemma backup_post latest_version st st1 :
  logs_into log_file (handlers st) ->
  backup latest_version st = (Ok tt, st1) ->
  exists previous bes,
    entry "config.ini" (cwd st) = Some (File previous)
    /\ entry backup_dir (cwd st1) = Some (Dir bes)
    /\ bes !! "config_backup.ini" = Some (File previous).
Proof.
  intros Hl H. unfold backup in H.
  apply bind_ok in H as ([] & s4 & H4 & H).
  destruct (tame_backup_logfile latest_version _ _ _ H4) as [_ F4].
  destruct (F4 Hl) as [L4 F4'].
  destruct (backup_config_post _ _ L4 H) as (previous & bes & E1 & E2 & E3).
  exists previous, bes. split; [|auto].
  rewrite <- F4'; [exact E1|discriminate|discriminate].
Qed.

(** Without a configuration file the backup cannot return. *)
Lemma backup_needs_config latest_version st :
  logs_into log_file (handlers st) ->
  entry "config.ini" (cwd st) = None ->
  fst (backup latest_version st) <> Ok tt.
Proof.
  intros Hl Hnone H.
  destruct (backup latest_version st) as [r st1] eqn:E. simpl in H. subst r.
  destruct (backup_post _ _ _ Hl E) as (previous & _ & Hc & _). congruence.
Qed.

(** After [fetch] the update directory holds what the clone produced:
    nothing when the clone failed. *)
Lemma fetch_post clone st st2 :
  logs_into log_file (handlers st) ->
  (exists m, entry backup_dir (cwd st) = Some m) ->
  fetch clone st = (Ok tt, st2) ->
  entry update_dir (cwd st2) = Dir <$> left_behind clone.
Proof.
  intros Hl [m Hm] H. unfold fetch in H.
  apply bind_ok in H as (p1 & s1 & H1 & H).
  apply bind_ok in H as ([] & s2 & H2 & H).
  apply bind_ok in H as ([] & s3 & H3 & H).
  rewrite path_exists_top in H1. injection H1 as <- <-.
  assert (E2 : entry update_dir (cwd s2) = None
               /\ entry backup_dir (cwd s2) = Some m
               /\ logs_into log_file (handlers s2)).
  { destruct (entry update_dir (cwd st)) as [[c|es]|] eqn:E; simpl in H2.
    - unfold rmtree in H2. rewrite E in H2. discriminate.
    - unfold rmtree in H2. rewrite E in H2. injection H2 as <-. simpl.
      destruct (entry_dir _ _ _ Hm) as [top Htop]. rewrite Htop in *. simpl.
      rewrite lookup_delete_eq. split; [reflexivity|]. split; [|exact Hl].
      rewrite lookup_delete_ne; [exact Hm|discriminate].
    - injection H2 as <-. auto. }
  destruct E2 as (E2 & B2 & L2).
  destruct (log_spec log_file logging.INFO
              "Cloning the latest version from GitHub..." None s2 L2)
    as (s3' & Hr & [G _] & L3 & _).
  unfold logging_info in H3. rewrite Hr in H3. injection H3 as <-.
  assert (E3 : entry update_dir (cwd s3') = None)
    by (rewrite G; [exact E2|discriminate]).
  assert (B3 : entry backup_dir (cwd s3') = Some m)
    by (rewrite G; [exact B2|discriminate]).
  destruct clone as [tree| | |tree]; simpl in H.
  - injection H as <-. rewrite E3. simpl.
    destruct (entry_dir _ _ _ B3) as [top ->]. apply entry_set_entry_eq.
  - injection H as <-. exact E3.
  - discriminate.
  - injection H as <-. rewrite E3. simpl.
    destruct (entry_dir _ _ _ B3) as [top ->]. apply entry_set_entry_eq.
Qed.


Lemma replace_one_post tree filename st st' :
  logs_into log_file (handlers st) ->
  entry update_dir (cwd st) = Some (Dir tree) ->
  replace_one filename st = (Ok tt, st') ->
  logs_into log_file (handlers st')
  /\ (forall x, x <> log_file ->
        x <> filename \/ (exists d, entry x (cwd st) = Some (Dir d)) ->
        entry x (cwd st') = entry x (cwd st))
  /\ (forall content, tree !! filename = Some (File content) ->
        filename <> "config.ini" -> filename <> log_file ->
        entry filename (cwd st') = Some (File content)).
Proof.
  intros Hl Hu H. unfold replace_one in H.
  apply bind_ok in H as (regular & s1 & H1 & H).
  unfold isfile in H1. rewrite (node_lookup_cons _ _ _ _ Hu) in H1.
  simpl in H1. injection H1 as <- <-.
  destruct (tree !! filename) as [[content|sub]|] eqn:Et; simpl in H;
    try (injection H as <-; split; [exact Hl|]; split; [auto|]; discriminate).
  destruct (String.eqb filename "config.ini") eqn:Ec; simpl in H.
  { injection H as <-. split; [exact Hl|]. split; [auto|].
    apply String.eqb_eq in Ec. intros c _ Hne. contradiction. }
  apply bind_ok in H as ([] & s2 & H2 & H).
  unfold copyfile in H2. apply bind_ok in H2 as (text & s1 & Hr & Hw).
  unfold read_text in Hr. rewrite (node_lookup_cons _ _ _ _ Hu) in Hr.
  simpl in Hr. rewrite Et in Hr. injection Hr as <- <-.
  unfold write_text in Hw.
  destruct (node_write [filename] content (cwd st)) as [n|e] eqn:Ew;
    [|discriminate].
  injection Hw as <-.
  destruct (node_write_top _ _ _ _ Ew) as (Hnew & Hnodir & _).
  assert (L2 : logs_into log_file (handlers (with_cwd n st))) by exact Hl.
  destruct (log_spec log_file logging.INFO
              ("Copied " +:+ filename +:+ " to the current directory.")
              None _ L2)
    as (s3 & Hr & [G _] & L3 & _).
  unfold logging_info in H. rewrite Hr in H. injection H as <-.
  split; [exact L3|]. split.
  - intros x Hx Hcase. rewrite G; [|exact Hx]. simpl.
    assert (Hne : x <> filename).
    { destruct Hcase as [Hne|[d Hd]]; [exact Hne|].
      intros ->. exact (Hnodir d Hd). }
    eapply node_write_frame; eauto.
  - intros c Hc _ Hnl. injection Hc as <-. rewrite G; [exact Hnew|exact Hnl].
Qed.

Lemma replace_loop tree : forall l st st',
  NoDup l ->
  logs_into log_file (handlers st) ->
  entry update_dir (cwd st) = Some (Dir tree) ->
  for_each l replace_one st = (Ok tt, st') ->
  logs_into log_file (handlers st')
  /\ (forall x, x <> log_file ->
        ~ In x l \/ (exists d, entry x (cwd st) = Some (Dir d)) ->
        entry x (cwd st') = entry x (cwd st))
  /\ (forall name content, In name l ->
        tree !! name = Some (File content) ->
        name <> "config.ini" -> name <> log_file ->
        entry name (cwd st') = Some (File content)).
Proof.
  induction l as [|f l IH]; intros st st' Hnd Hl Hu H; simpl in H.
  - injection H as <-. split; [exact Hl|]. split; [auto|]. intros n c [].
  - apply bind_ok in H as ([] & s1 & H1 & H).
    inversion Hnd as [|? ? Hnotin Hnd']; subst.
    destruct (replace_one_post tree f st s1 Hl Hu H1) as (L1 & F1 & C1).
    assert (U1 : entry update_dir (cwd s1) = Some (Dir tree)).
    { rewrite F1; [exact Hu|discriminate|right; eauto]. }
    destruct (IH s1 st' Hnd' L1 U1 H) as (L2 & F2 & C2).
    split; [exact L2|]. split.
    + intros x Hx Hcase.
      assert (E1 : entry x (cwd s1) = entry x (cwd st)).
      { apply F1; [exact Hx|]. destruct Hcase as [Hn|Hd]; [|now right].
        left. intros ->. apply Hn. now left. }
      rewrite F2; [exact E1|exact Hx|].
      destruct Hcase as [Hn|[d Hd]].
      * left. intros Hin. apply Hn. now right.
      * right. exists d. now rewrite E1.
    + intros name content [<-|Hin] Ht Hc Hn.
      * rewrite F2; [now apply C1|exact Hn|].
        left. rewrite <- list_elem_of_In. exact Hnotin.
      * now apply C2.
Qed.

Lemma replace_files_post tree st st' :
  logs_into log_file (handlers st) ->
  entry update_dir (cwd st) = Some (Dir tree) ->
  replace_files st = (Ok tt, st') ->
  logs_into log_file (handlers st')
  /\ (forall x d, x <> log_file -> entry x (cwd st) = Some (Dir d) ->
        entry x (cwd st') = Some (Dir d))
  /\ (forall name content,
        tree !! name = Some (File content) ->
        name <> "config.ini" -> name <> log_file ->
        entry name (cwd st') = Some (File content)).
Proof.
  intros Hl Hu H. unfold replace_files in H.
  apply bind_ok in H as (filenames & s1 & H1 & H).
  unfold listdir in H1. rewrite Hu in H1. injection H1 as <- <-.
  destruct (replace_loop tree _ st st' (NoDup_fst_map_to_list tree) Hl Hu H)
    as (L & F & C).
  split; [exact L|]. split.
  - intros x d Hx Hd. rewrite F; [exact Hd|exact Hx|right; eauto].
  - intros name content Ht. apply C; [|exact Ht].
    apply in_map_iff. exists (name, File content). split; [reflexivity|].
    apply list_elem_of_In. now apply elem_of_map_to_list.
Qed.

(** If lines 174-185 return, the configuration file holds the merge of the
    fetched defaults with the settings saved by the backup. *)
Lemma update_config_post tree bes previous st st' :
  logs_into log_file (handlers st) ->
  entry update_dir (cwd st) = Some (Dir tree) ->
  entry backup_dir (cwd st) = Some (Dir bes) ->
  bes !! "config_backup.ini" = Some (File previous) ->
  update_config st = (Ok tt, st') ->
  logs_into log_file (handlers st')
  /\ (forall x, x <> log_file -> x <> "config.ini" ->
        entry x (cwd st') = entry x (cwd st))
  /\ exists fetched settings merged,
       load_config (node_lookup ["config.ini"] (Dir tree)) = Ok fetched
       /\ parse_ini previous = inl settings
       /\ merge fetched settings = Ok merged
       /\ entry "config.ini" (cwd st') = Some (File (write_ini merged)).
Proof.
  intros Hl Hu Hb Hp H. unfold update_config in H.
  apply bind_ok in H as ([] & s1 & H1 & H).
  destruct (log_spec log_file logging.INFO
              "Updating the config.ini file with your previous settings..."
              None st Hl)
    as (s1' & Hr & [G _] & L1 & _).
  unfold logging_info in H1. rewrite Hr in H1. injection H1 as <-.
  assert (U1 : entry update_dir (cwd s1') = Some (Dir tree))
    by (rewrite G; [exact Hu|discriminate]).
  assert (B1 : entry backup_dir (cwd s1') = Some (Dir bes))
    by (rewrite G; [exact Hb|discriminate]).
  apply bind_ok in H as (fetched & s2 & H2 & H).
  unfold config_read in H2. rewrite (node_lookup_cons _ _ _ _ U1) in H2.
  injection H2 as H2 <-.
  apply bind_ok in H as (settings & s3 & H3 & H).
  unfold config_read, config_backup_path in H3.
  rewrite (node_lookup_cons _ _ _ _ B1) in H3. simpl in H3. rewrite Hp in H3.
  unfold load_config in H3.
  destruct (parse_ini previous) as [cfg|[cls msg]] eqn:Ep;
    [|unfold raise in H3; discriminate].
  injection H3 as <- <-.
  apply bind_ok in H as (merged & s4 & H4 & H).
  unfold lift in H4. injection H4 as H4 <-.
  unfold write_text in H.
  destruct (node_write ["config.ini"] (write_ini merged) (cwd s1'))
    as [n|e] eqn:Ew; [|discriminate].
  injection H as <-. simpl.
  destruct (node_write_top _ _ _ _ Ew) as (Hnew & _).
  split; [exact L1|]. split.
  - intros x Hx Hc. rewrite <- G; [|exact Hx].
    eapply node_write_frame; eauto.
  - exists fetched, cfg, merged. auto.
Qed.

Lemma confined_finish latest_version :
  confined (fun x => x = update_dir) (finish latest_version).
Proof.
  unfold finish.
  apply confined_bind; [apply tame_confined; now apply tame_rmtree|intros _].
  apply confined_bind; [apply tame_confined, tame_log|intros _].
  apply confined_bind; [apply tame_confined, tame_log|intros _].
  apply confined_bind; [apply tame_confined, tame_print|intros _].
  apply confined_sys_exit.
Qed.

Lemma tame_replace_files : tame (fun _ => True) replace_files.
Proof.
  unfold replace_files.
  apply tame_bind; [apply tame_listdir|intros filenames].
  apply tame_for_each. intros filename. unfold replace_one.
  apply tame_bind; [apply tame_isfile|intros regular].
  apply tame_when. apply tame_bind; [now apply tame_copyfile|intros _].
  apply tame_log.
Qed.

Lemma mapM_no_exit {A B} (f : A -> result B) l :
  (forall a status, f a <> Raise (SystemExit status)) ->
  forall status, mapM f l <> Raise (SystemExit status).
Proof.
  intros Hf. induction l as [|a l IH]; intros status; simpl; [congruence|].
  apply result_bind_no_exit; [intros s; apply Hf|].
  intros b s. apply result_bind_no_exit; [exact IH|congruence].
Qed.

Lemma foldM_no_exit {A B} (f : B -> A -> result B) :
  (forall b a status, f b a <> Raise (SystemExit status)) ->
  forall l b status, foldM f b l <> Raise (SystemExit status).
Proof.
  intros Hf. induction l as [|a l IH]; intros b status; simpl; [congruence|].
  apply result_bind_no_exit; [intros s; apply Hf|intros b' s; apply IH].
Qed.

Lemma set_no_exit cfg s k v status :
  set cfg s k v <> Raise (SystemExit status).
Proof.
  unfold set. apply result_bind_no_exit.
  - intros st. destruct (String.eqb v ""); [congruence|].
    unfold before_set. destruct (Str.mem "%" _); [unfold raise|]; congruence.
  - intros v' st. destruct (is_default s); [congruence|].
    destruct (dict_get s (sections_map cfg)); [|unfold raise]; congruence.
Qed.

Lemma items_no_exit o s status : items o s <> Raise (SystemExit status).
Proof.
  unfold items. apply result_bind_no_exit.
  - intros st. destruct (dict_get s (sections_map o)); [congruence|].
    destruct (String.eqb s default_section); [|unfold raise]; congruence.
  - intros d st. apply mapM_no_exit. intros k st'.
    destruct (dict_get k d); [|unfold raise; congruence].
    apply result_bind_no_exit; [|congruence].
    intros st''. apply interpolate_some_no_exit.
Qed.

Lemma merge_section_no_exit o cfg s status :
  merge_section o cfg s <> Raise (SystemExit status).
Proof.
  unfold merge_section. apply result_bind_no_exit.
  - intros st. destruct (has_section cfg s); [congruence|].
    unfold add_section. destruct (String.eqb s default_section);
      [unfold raise; congruence|].
    destruct (has_section cfg s); [unfold raise|]; congruence.
  - intros cfg0 st. apply result_bind_no_exit; [intros st'; apply items_no_exit|].
    intros settings st'. apply foldM_no_exit.
    intros b a st''. apply set_no_exit.
Qed.

Lemma merge_no_exit config config_backup status :
  merge config config_backup <> Raise (SystemExit status).
Proof.
  unfold merge. apply foldM_no_exit. intros b a st.
  apply merge_section_no_exit.
Qed.

Lemma tame_update_config : tame (fun _ => True) update_config.
Proof.
  unfold update_config.
  apply tame_bind; [apply tame_log|intros _].
  apply tame_bind; [apply tame_config_read|intros config].
  apply tame_bind; [apply tame_config_read|intros config_backup].
  apply tame_bind; [apply tame_lift; intros s; apply merge_no_exit|].
  intros merged. now apply tame_write_text.
Qed.

(** ** The claims *)

Lemma initialize_logging_no_exit verbose message st status :
  fst (initialize_logging verbose message st) <> Raise (SystemExit status).
Proof.
  destruct (initialize_logging verbose message st) as [r st'] eqn:E.
  exact (proj1 (tame_initialize_logging (fun _ => False) _ _ _ _ _ E) status).
Qed.

(** With [--upgrade] and no unrecognized argument the process always ends
    with status 1: the sentence returned by the version check is parsed as
    a version number on line 232. *)
Lemma upgrade_flag_never_succeeds argv args r clone fs keyboard :
  upgrade args = true ->
  fst (run argv args [] r clone fs keyboard) = Exits 1.
Proof.
  intros Hu. rewrite run_termination, Hu. simpl.
  pose proof (initialize_logging_no_exit (verbose args) None (boot fs keyboard)) as Hn.
  destruct (fst (initialize_logging (verbose args) None (boot fs keyboard)))
    as [[]|[cls msg|status]]; try reflexivity.
  now destruct (Hn status).
Qed.

(** X26: when the clone leaves no update directory behind (the command
    failed and removed what it had created, or there is no [git]), the
    upgrade ends with an exception, at line 166 or at the [os.listdir] of
    line 168, and the program files are as they were: [config.ini] is
    unchanged, and so is every entry of the working directory other than
    the log file, the backup directory and the update directory. *)
Theorem failed_fetch_leaves_installation clone latest_version st r st' :
  left_behind clone = None ->
  logs_into log_file (handlers st) ->
  upgrade_autocrew clone latest_version st = (r, st') ->
  (exists cls msg, r = Raise (Exception cls msg))
  /\ entry "config.ini" (cwd st') = entry "config.ini" (cwd st)
  /\ forall name,
       name <> log_file -> name <> backup_dir -> name <> update_dir ->
       entry name (cwd st') = entry name (cwd st).
Proof.
  intros Hclone Hl H.
  assert (Hmain :
    (exists cls msg, r = Raise (Exception cls msg))
    /\ forall name,
         name <> log_file -> name <> backup_dir -> name <> update_dir ->
         entry name (cwd st') = entry name (cwd st)).
  { unfold upgrade_autocrew in H. unfold bind at 1 in H.
    destruct (backup latest_version st) as [[[]|e] s1] eqn:Hb.
    - destruct (tame_backup latest_version _ _ _ Hb) as [_ F1].
      destruct (F1 Hl) as [L1 F1'].
      destruct (backup_post _ _ _ Hl Hb) as (previous & bes & _ & B1 & _).
      unfold bind at 1 in H.
      destruct (fetch clone s1) as [[[]|e] s2] eqn:Hf.
      + destruct (tame_fetch clone _ _ _ Hf) as [_ F2].
        destruct (F2 L1) as [L2 F2'].
        pose proof (fetch_post clone s1 s2 L1 (ex_intro _ _ B1) Hf) as U2.
        assert (U2' : entry update_dir (cwd s2) = None).
        { rewrite U2, Hclone. reflexivity. }
        unfold bind at 1 in H. unfold replace_files in H.
        unfold bind at 1 in H. unfold listdir in H. rewrite U2' in H.
        injection H as <- <-. split; [unfold raise; eauto|].
        intros name N1 N2 N3. rewrite F2', F1'; auto.
      + injection H as <- <-.
        destruct (tame_fetch clone _ _ _ Hf) as [E2 F2].
        destruct (F2 L1) as [L2 F2']. split.
        * destruct e as [cls msg|status]; [eauto|now destruct (E2 status)].
        * intros name N1 N2 N3. rewrite F2', F1'; auto.
    - injection H as <- <-.
      destruct (tame_backup latest_version _ _ _ Hb) as [E1 F1].
      destruct (F1 Hl) as [L1 F1']. split.
      + destruct e as [cls msg|status]; [eauto|now destruct (E1 status)].
      + intros name N1 N2 N3. apply F1'; auto. }
  destruct Hmain as [Hr Hf]. split; [exact Hr|]. split; [|exact Hf].
  apply Hf; discriminate.
Qed.


(** C6: merging the previous settings into a document that already is
    the result of merging them changes nothing; when the first merge
    raises, so does the repeated one, with the same exception. *)
Theorem merge_is_idempotent base overrides :
  well_formed overrides ->
  result_bind (merge base overrides) (fun merged => merge merged overrides)
  = merge base overrides.
Proof.
  intros Hwf. destruct (merge base overrides) as [merged|e] eqn:Hm; simpl;
    [|reflexivity].
  exact (merge_idempotent_ok base overrides merged Hwf Hm).
Qed.

(** C8: the version check never raises: whatever goes wrong inside it
    comes back as the sentence "Error checking for the latest version",
    followed by the text of the exception; and such a failure changes
    nothing in how the process ends: the run ends as it does when the
    check reports the installed version, and without [--upgrade] and
    [--help] the crew workflow is entered, with the sentence in the
    startup message of the log. *)
Theorem version_check_failure_is_contained r :
  (exists message, check_latest_version r = Ok message)
  /\ forall cls e,
       fetch_latest_version r = Raise (Exception cls e) ->
       check_latest_version r
       = Ok ("Error checking for the latest version: " +:+ e)
       /\ forall argv args unknown_args clone fs keyboard,
            fst (run argv args unknown_args r clone fs keyboard)
            = fst (run argv args unknown_args up_to_date clone fs keyboard)
            /\ forall st1,
                 upgrade args = false -> help args = false ->
                 initialize_logging (verbose args) None (boot fs keyboard)
                 = (Ok tt, st1) ->
                 fst (run argv args unknown_args r clone fs keyboard)
                 = EntersWorkflow
                 /\ exists before,
                      entry log_file
                        (cwd (snd (run argv args unknown_args r clone fs keyboard)))
                      = Some (File
                          (before
                           +:+ (file_format logging.INFO
                                  (startup_message
                                     ("Error checking for the latest version: "
                                      +:+ e))
                                +:+ newline))).
Proof.
  split.
  - destruct (version_message_is_no_version r) as (vm & _ & Hc & _). eauto.
  - intros cls e Hf.
    assert (Hc : check_latest_version r
                 = Ok ("Error checking for the latest version: " +:+ e))
      by (unfold check_latest_version; now rewrite Hf).
    split; [exact Hc|]. intros argv args unknown_args clone fs keyboard.
    split; [now rewrite !run_termination|].
    intros st1 Hu Hh Hinit.
    destruct (main_plain argv args unknown_args r clone _ _ Hu Hh Hinit)
      as (st' & vm & before & Hvm & Hm & He).
    rewrite Hc in Hvm. injection Hvm as <-.
    unfold run. rewrite Hm. simpl. split; [reflexivity|eauto].
Qed.


(** C10: once [initialize_logging] is past the reading of the settings
    (lines 48-53: [config.ini] is absent or parses, and the level option,
    if there is one, can be read), in a working directory in which
    [autocrew.log] is not a directory, the root logger is left without the
    handlers it had: it has the new file handler and, when line 74 accepts
    the console level, the new console handler.  [autocrew.log] holds only
    what this call logged (the message, if one was given and line 74 was
    passed), whatever it held before, and no other entry of the working
    directory is touched.  The call returns unless line 74 raises. *)
Theorem initialize_logging_starts_afresh verbose message st es config v :
  cwd st = Dir es ->
  (forall sub, es !! log_file <> Some (Dir sub)) ->
  fst (config_read [config_file] st) = Ok config ->
  console_level verbose config = Ok v ->
  exists st',
    initialize_logging verbose message st
    = (result_bind (logging.check_level v) (fun _ => Ok tt), st')
    /\ handlers st'
       = file_handler
         :: match logging.check_level v with
            | Ok lvl => [console_handler lvl]
            | Raise _ => []
            end
    /\ entry log_file (cwd st')
       = Some (File match logging.check_level v, message with
                    | Ok _, Some (String c m) =>
                        file_format logging.INFO (String c m) +:+ newline
                    | _, _ => ""
                    end)
    /\ forall name, name <> log_file ->
         entry name (cwd st') = entry name (cwd st).
Proof.
  intros Hcwd Hlog Hcfg Hv.
  destruct (logging.check_level v) as [lvl|e] eqn:Hlvl.
  - destruct (initialize_logging_spec verbose message st es config lvl
                Hcwd Hlog Hcfg) as (st' & H1 & H2 & _ & H3 & H4 & _).
    { rewrite Hv. exact Hlvl. }
    exists st'. simpl. auto.
  - unfold initialize_logging. unfold bind at 1.
    pose proof (config_read_state [config_file] st) as Hs.
    destruct (config_read [config_file] st) as [rc st0]. simpl in Hcfg, Hs.
    subst rc st0. rewrite Hv.
    unfold bind at 1. unfold lift at 1.
    unfold bind at 1. unfold modify at 1.
    unfold bind at 1. unfold modify at 1.
    unfold bind at 1. unfold write_text.
    set (st1 := match handlers (with_root_level logging.DEBUG st) with
                | [] => with_root_level logging.DEBUG st
                | _ :: _ => with_handlers [] (with_root_level logging.DEBUG st)
                end).
    assert (H1 : cwd st1 = Dir es /\ handlers st1 = []).
    { subst st1. simpl. destruct (handlers st) eqn:E; simpl; auto. }
    destruct H1 as (C1 & A1). rewrite C1.
    assert (Hw : node_write [log_file] "" (Dir es)
                 = Ok (Dir (<[log_file := File ""]> es))).
    { simpl. destruct (es !! log_file) as [[c|sub]|] eqn:E; simpl; auto.
      exfalso. now apply (Hlog sub). }
    rewrite Hw.
    unfold bind at 1. unfold modify at 1.
    unfold bind at 1. unfold lift at 1. rewrite Hlvl.
    eexists. split; [reflexivity|]. simpl. rewrite A1.
    split; [reflexivity|]. split; [apply lookup_insert_eq|].
    intros name Hn. rewrite Hcwd. simpl. apply lookup_insert_ne. congruence.
Qed.

(** ** Further properties of the script *)

(** *** The configuration merge (lines 175-183) *)

Lemma take_while_all c s :
  Str.mem c s = false ->
  Str.take_while (fun x => negb (Ascii.eqb x c)) s = (s, EmptyString).
Proof.
  induction s as [|x s IH]; simpl; [reflexivity|].
  destruct (Ascii.eqb c x) eqn:E; simpl; [discriminate|].
  intros H. rewrite (Ascii.eqb_sym x c), E. simpl. now rewrite (IH H).
Qed.

(** A value without a percent sign is its own interpolation. *)
Lemma scan_plain deeper map fuel rest :
  Str.mem "%" rest = false -> scan deeper map (S fuel) rest = Ok rest.
Proof. intros H. simpl. now rewrite (take_while_all _ _ H). Qed.

Lemma before_get_plain value d :
  Str.mem "%" value = false -> before_get value d = Ok value.
Proof.
  intros H. unfold before_get.
  change (interpolate_some MAX_INTERPOLATION_DEPTH d value)
    with (scan (interpolate_some 9 d) d (S (String.length value)) value).
  now apply scan_plain.
Qed.

Lemma dict_update_absent {V} (e : list (string * V)) : forall d k,
  dict_get k e = None -> dict_get k (dict_update d e) = dict_get k d.
Proof.
  unfold dict_update. induction e as [|[k0 v0] e IH]; intros d k; simpl;
    [reflexivity|].
  destruct (String.eqb k0 k) eqn:E; [discriminate|]. intros H.
  rewrite IH; [|exact H]. apply dict_get_set_ne. now apply String.eqb_neq.
Qed.

Lemma dict_update_present {V} (e : list (string * V)) : forall d k v,
  unique_keys e = true ->
  dict_get k e = Some v -> dict_get k (dict_update d e) = Some v.
Proof.
  induction e as [|[k0 v0] e IH]; intros d k v; simpl; [discriminate|].
  intros Hu. apply andb_true_iff in Hu as [Hn Hu].
  destruct (String.eqb k0 k) eqn:E.
  - apply String.eqb_eq in E. subst k0. intros H. injection H as ->.
    change (dict_get k (dict_update (dict_set k v d) e) = Some v).
    rewrite dict_update_absent; [apply dict_get_set_eq|].
    unfold dict_has in Hn. destruct (dict_get k e); [discriminate|reflexivity].
  - intros H. exact (IH (dict_set k0 v0 d) k v Hu H).
Qed.

Lemma unique_keys_set {V} k (v : V) d :
  unique_keys d = true -> unique_keys (dict_set k v d) = true.
Proof.
  induction d as [|[k0 v0] d IH]; simpl; [reflexivity|].
  intros H. apply andb_true_iff in H as [Hn Hu].
  destruct (String.eqb k0 k) eqn:E; simpl.
  - now rewrite Hn, Hu.
  - rewrite (IH Hu), andb_true_r. unfold dict_has in *.
    rewrite dict_get_set_ne; [exact Hn|].
    apply String.eqb_neq in E. congruence.
Qed.

Lemma tidy_set cfg s k v cfg' :
  is_default s = false -> set cfg s k v = Ok cfg' -> tidy cfg -> tidy cfg'.
Proof.
  intros Hs Hset Ht s0 d0 H0.
  destruct (section_of_set _ _ _ _ _ Hs Hset) as (Hother & d & Hd & Hd').
  destruct (String.eqb s0 s) eqn:E.
  - apply String.eqb_eq in E. subst s0. rewrite Hd' in H0. injection H0 as <-.
    apply unique_keys_set. exact (Ht s d Hd).
  - apply String.eqb_neq in E. rewrite Hother in H0; [|exact E].
    exact (Ht s0 d0 H0).
Qed.

Lemma tidy_merge_section o cfg s cfg' :
  is_default s = false ->
  merge_section o cfg s = Ok cfg' -> tidy cfg -> tidy cfg'.
Proof.
  intros Hs. unfold merge_section.
  destruct (if has_section cfg s then Ok cfg else add_section cfg s)
    as [cfg0|e] eqn:H0; [|discriminate]. simpl.
  destruct (items o s) as [settings|e]; [|discriminate]. simpl.
  intros Hall Ht.
  assert (Ht0 : tidy cfg0).
  { destruct (has_section cfg s) eqn:Hhas.
    - injection H0 as <-. exact Ht.
    - unfold add_section in H0.
      destruct (String.eqb s default_section); [discriminate|].
      rewrite Hhas in H0. injection H0 as <-. intros s0 d0.
      unfold section_of. simpl.
      destruct (String.eqb s0 s) eqn:E.
      + apply String.eqb_eq in E. subst s0. rewrite dict_get_set_eq.
        intros H. now injection H as <-.
      + apply String.eqb_neq in E.
        rewrite dict_get_set_ne; [apply Ht|congruence]. }
  clear H0 Ht. revert cfg0 Ht0 Hall.
  induction settings as [|[k v] settings IH]; intros cfg0 Ht0; simpl.
  - intros H. now injection H as <-.
  - destruct (set cfg0 s k v) as [cfg1|e] eqn:Hset; [|discriminate]. simpl.
    apply IH. eapply tidy_set; eauto.
Qed.

Lemma tidy_merge base overrides merged :
  well_formed overrides ->
  tidy base -> merge base overrides = Ok merged -> tidy merged.
Proof.
  intros Hwf. unfold merge.
  assert (Hl : forall s, In s (sections overrides) -> is_default s = false)
    by (intros s; now apply well_formed_sections).
  revert base Hl. induction (sections overrides) as [|s l IH];
    intros base Hl Ht; simpl.
  - intros H. now injection H as <-.
  - destruct (merge_section overrides base s) as [cfg1|e] eqn:H1;
      [|discriminate]. simpl.
    apply IH; [intros s' Hs'; apply Hl; now right|].
    eapply tidy_merge_section; eauto. apply Hl. now left.
Qed.

Lemma items_keys_normal o s settings k v :
  well_formed o ->
  items o s = Ok settings -> In (k, v) settings -> optionxform k = k.
Proof.
  intros [Hd Hs] Hi Hin.
  destruct (items_spec _ _ _ Hi) as (d & Hkeys & Hval).
  destruct (Hval _ _ Hin) as (K & _).
  destruct (Hkeys k K) as [H|(sect & Hsect & H)]; [auto|].
  apply dict_get_In in Hsect. destruct (Hs _ _ Hsect) as [_ Hk']. auto.
Qed.

Lemma merge_section_keeps_option o cfg s cfg' s0 d k v :
  well_formed o ->
  is_default s = false ->
  merge_section o cfg s = Ok cfg' ->
  section_of cfg s0 = Some d ->
  dict_get k d = Some v ->
  (forall settings,
     items o s0 = Ok settings -> ~ In k (List.map fst settings)) ->
  exists d', section_of cfg' s0 = Some d' /\ dict_get k d' = Some v.
Proof.
  intros Hwf Hs. unfold merge_section.
  destruct (if has_section cfg s then Ok cfg else add_section cfg s)
    as [cfg0|e] eqn:H0; [|discriminate]. simpl.
  destruct (items o s) as [settings|e] eqn:Hi; [|discriminate]. simpl.
  fold (set_all s cfg0 settings). intros Hall Hd Hk Hno.
  assert (Hd0 : section_of cfg0 s0 = Some d).
  { destruct (has_section cfg s) eqn:Hhas.
    - injection H0 as <-. exact Hd.
    - unfold add_section in H0.
      destruct (String.eqb s default_section); [discriminate|].
      rewrite Hhas in H0. injection H0 as <-. unfold section_of in *. simpl.
      rewrite dict_get_set_ne; [exact Hd|].
      intros <-. unfold has_section, dict_has in Hhas. now rewrite Hd in Hhas. }
  destruct (set_all_spec s settings cfg0 cfg' Hs
              (items_functional o s settings Hwf Hi) Hall)
    as (_ & I2 & _ & _ & _ & I6).
  destruct (String.eqb s0 s) eqn:E.
  - apply String.eqb_eq in E. subst s0. apply (I6 k v d Hd0 Hk).
    intros k1 v1 Hin Hx. exfalso. apply (Hno settings Hi).
    rewrite (items_keys_normal o s settings k1 v1 Hwf Hi Hin) in Hx. subst k1.
    apply in_map_iff. exists (k, v1). auto.
  - apply String.eqb_neq in E. exists d. split; [|exact Hk]. rewrite I2; auto.
Qed.

Lemma dict_set_keeps_key {V} k (v : V) d k0 :
  In k0 (List.map fst d) -> In k0 (List.map fst (dict_set k v d)).
Proof.
  induction d as [|[k1 v1] d IH]; simpl; [intros []|].
  destruct (String.eqb k1 k); simpl; intros [H|H]; auto.
Qed.

Lemma dict_update_keeps_key {V} (e : list (string * V)) : forall d k,
  In k (List.map fst d) -> In k (List.map fst (dict_update d e)).
Proof.
  unfold dict_update. induction e as [|[k0 v0] e IH]; intros d k H; simpl;
    [exact H|].
  apply IH. now apply dict_set_keeps_key.
Qed.

Lemma mapM_keys {A} (f : string -> result (string * A)) : forall l l',
  (forall x y, f x = Ok y -> fst y = x) ->
  mapM f l = Ok l' -> List.map fst l' = l.
Proof.
  induction l as [|a l IH]; intros l' Hf; simpl.
  - intros H. now injection H as <-.
  - destruct (f a) as [b|e] eqn:Ef; [|discriminate]. simpl.
    destruct (mapM f l) as [bs|e] eqn:Em; [|discriminate]. simpl.
    intros H. injection H as <-. simpl.
    rewrite (Hf a b Ef), (IH bs Hf eq_refl). reflexivity.
Qed.

Lemma items_option_name (d : dict) x y :
  match dict_get x d with
  | Some raw => value <-? before_get raw d; Ok (x, value)
  | None => raise KeyError x
  end = Ok y ->
  fst y = x.
Proof.
  destruct (dict_get x d) as [raw|]; [|discriminate].
  destruct (before_get raw d); [|discriminate]. simpl.
  intros Hy. now injection Hy as <-.
Qed.

(** [items] reports every option of the defaults, for every section. *)
Lemma items_reports_defaults o s settings k :
  items o s = Ok settings ->
  In k (List.map fst (defaults o)) -> In k (List.map fst settings).
Proof.
  unfold items.
  destruct (dict_get s (sections_map o)) as [sect|] eqn:Es; simpl.
  - intros H Hk. rewrite (mapM_keys _ _ _ (items_option_name _) H).
    now apply dict_update_keeps_key.
  - destruct (String.eqb s default_section); [|discriminate]. simpl.
    intros H Hk. now rewrite (mapM_keys _ _ _ (items_option_name _) H).
Qed.

(** X1: after a merge that succeeds, every setting that the previous
    configuration reports for one of its sections reads back from the
    merged document, through [get], with the value it had; this holds of
    values without a percent sign, which interpolation leaves as they
    are. *)
Theorem merged_settings_read_back base overrides merged s settings k v :
  well_formed overrides ->
  tidy base ->
  merge base overrides = Ok merged ->
  In s (sections overrides) ->
  items overrides s = Ok settings ->
  In (k, v) settings ->
  Str.mem "%" v = false ->
  get merged s k = Ok v.
Proof.
  intros Hwf Ht Hm Hs Hi Hin Hv.
  destruct (merge_carries_sections base overrides merged s Hwf Hm Hs)
    as (settings' & d & Hi' & Hd & Hall).
  rewrite Hi in Hi'. injection Hi' as <-.
  destruct (Hall k v Hin) as [Hk _].
  unfold get. unfold section_of in Hd. rewrite Hd. simpl.
  rewrite (dict_update_present d (defaults merged) (optionxform k) v);
    [now apply before_get_plain| |exact Hk].
  exact (tidy_merge base overrides merged Hwf Ht Hm s d Hd).
Qed.

(** X2: an option of the fetched configuration that the previous
    configuration does not report for the same section is in the merged
    document with its fetched value. *)
Theorem merge_keeps_unset_options base overrides merged s d k v :
  well_formed overrides ->
  merge base overrides = Ok merged ->
  section_of base s = Some d ->
  dict_get k d = Some v ->
  (forall settings,
     items overrides s = Ok settings -> ~ In k (List.map fst settings)) ->
  exists d', section_of merged s = Some d' /\ dict_get k d' = Some v.
Proof.
  intros Hwf Hm Hd Hk Hno. unfold merge in Hm.
  assert (Hl : forall s, In s (sections overrides) -> is_default s = false)
    by (intros s'; now apply well_formed_sections).
  revert base d Hd Hk Hm Hl.
  generalize (sections overrides) as l.
  induction l as [|s1 l IH]; intros base d Hd Hk Hm Hl; simpl in Hm.
  - injection Hm as <-. eauto.
  - destruct (merge_section overrides base s1) as [cfg1|e] eqn:H1;
      [|discriminate]. simpl in Hm.
    destruct (merge_section_keeps_option _ _ _ _ s d k v Hwf
                (Hl s1 (or_introl eq_refl)) H1 Hd Hk Hno)
      as (d1 & Hd1 & Hk1).
    apply (IH cfg1 d1 Hd1 Hk1 Hm). intros s' Hs'. apply Hl. now right.
Qed.

(** X3: the merge cannot succeed when the previous configuration reports
    a value that [set] refuses; such is a value whose text holds a plain
    percent sign after interpolation, as the text [50%] that an escaped
    [50%%] in the file reads as.  The merge then ends with an
    exception. *)
Theorem merge_rejects_unsettable_value base overrides s settings k v :
  well_formed overrides ->
  In s (sections overrides) ->
  items overrides s = Ok settings ->
  In (k, v) settings ->
  ~ settable v ->
  exists cls msg, merge base overrides = Raise (Exception cls msg).
Proof.
  intros Hwf Hs Hi Hin Hv.
  destruct (merge base overrides) as [merged|[cls msg|status]] eqn:Hm.
  - exfalso.
    destruct (merge_carries_sections base overrides merged s Hwf Hm Hs)
      as (settings' & d & Hi' & _ & Hall).
    rewrite Hi in Hi'. injection Hi' as <-.
    apply Hv. exact (proj2 (Hall k v Hin)).
  - eauto.
  - exfalso. exact (merge_no_exit _ _ _ Hm).
Qed.

(** X4: every option of the [DEFAULT] section of the previous
    configuration becomes an option of each section that is carried over:
    [items] reports the defaults along with the section's own options, and
    the loop of line 182 sets them all. *)
Theorem merge_spreads_defaults base overrides merged s k :
  well_formed overrides ->
  merge base overrides = Ok merged ->
  In s (sections overrides) ->
  dict_has k (defaults overrides) = true ->
  holds merged s k.
Proof.
  intros Hwf Hm Hs Hk.
  destruct (merge_carries_sections base overrides merged s Hwf Hm Hs)
    as (settings & d & Hi & Hd & Hall).
  assert (Hin : In k (List.map fst (defaults overrides))).
  { unfold dict_has in Hk.
    destruct (dict_get k (defaults overrides)) as [v|] eqn:E; [|discriminate].
    apply dict_get_In in E. apply in_map_iff. exists (k, v). auto. }
  pose proof (items_reports_defaults _ _ _ _ Hi Hin) as Hset.
  apply in_map_iff in Hset as ([k' v] & Hk' & Hset). simpl in Hk'. subst k'.
  destruct (Hall k v Hset) as [Hget _].
  rewrite (proj1 Hwf k Hin) in Hget.
  exists d. split; [exact Hd|]. unfold dict_has. now rewrite Hget.
Qed.

(** *** [main] up to the crew workflow (lines 198-239) *)

Lemma string_app_nil_r (a : string) : a +:+ "" = a.
Proof.
  induction a as [|x a IH]; [reflexivity|].
  change (String x (a +:+ "") = String x a). now rewrite IH.
Qed.

Lemma main_unfold argv args unknown_args r clone :
  main argv args unknown_args r clone
  = (initialize_logging (verbose args) None;;
     log_command_line_arguments argv;;
     modify (with_excepthook true);;
     version_message <- lift (check_latest_version r);
     logging_info (startup_message version_message);;
     after_startup args unknown_args clone version_message).
Proof. reflexivity. Qed.

Lemma confined_bind_lift_ok P {A B} (a : A) (k : A -> M B) :
  confined P (k a) -> confined P (bind (lift (Ok a)) k).
Proof. intros H st r st' E. exact (H st r st' E). Qed.

Lemma confined_bind_lift_raise P {A B} e (k : A -> M B) :
  confined P (bind (lift (Raise e)) k).
Proof.
  intros st r st' E Hl. unfold bind, lift in E. injection E as <- <-. auto.
Qed.

Lemma confined_after_startup args unknown_args clone vm what :
  version.parse vm = Raise (Exception InvalidVersion what) ->
  confined (fun _ => False) (after_startup args unknown_args clone vm).
Proof.
  intros Hp. unfold after_startup.
  destruct (upgrade args || help args); [|apply tame_confined, tame_ret].
  destruct unknown_args as [|u us].
  - destruct (upgrade args).
    + rewrite Hp. apply confined_bind_lift_raise.
    + apply confined_bind; [|intros _; apply confined_sys_exit].
      apply tame_confined, tame_modify; intros st; simpl; auto.
  - apply confined_bind.
    { apply tame_confined, tame_modify; intros st; simpl; auto. }
    intros _. apply confined_bind; [apply tame_confined, tame_log|intros _].
    apply confined_sys_exit.
Qed.

(** Whatever the flags, [main] touches nothing but the log file: the
    sentence of the version check is not a version number, so that the
    upgrade is never started. *)
Lemma confined_main argv args unknown_args r clone :
  confined (fun _ => False) (main argv args unknown_args r clone).
Proof.
  destruct (version_message_is_no_version r) as (vm & what & Hc & Hp).
  rewrite main_unfold, Hc.
  apply confined_bind; [apply tame_confined, tame_initialize_logging|intros _].
  apply confined_bind; [apply tame_confined, tame_log|intros _].
  apply confined_bind.
  { apply tame_confined, tame_modify; intros st; simpl; auto. }
  intros _. apply confined_bind_lift_ok.
  apply confined_bind; [apply tame_confined, tame_log|intros _].
  now apply (confined_after_startup _ _ _ _ what).
Qed.

Lemma parse_failure text e :
  version.parse text = Raise e ->
  e = Exception InvalidVersion ("Invalid version: '" +:+ text +:+ "'")
  \/ exists n, e = Exception ValueError (pyint.limit_message n).
Proof.
  unfold version.parse. destruct (version.match_version text).
  - destruct (find _ _) as [n|]; [|discriminate].
    unfold raise. intros H. injection H as <-. eauto.
  - unfold raise. intros H. injection H as <-. now left.
Qed.

(** X5: up to the point where the crew workflow starts, or the process
    ends, a run changes no entry of the working directory other than the
    log file, whatever the arguments, the answer of the release server and
    the outcome of a clone. *)
Theorem run_changes_only_the_log
  argv args unknown_args r clone fs keyboard name :
  name <> log_file ->
  entry name (cwd (snd (run argv args unknown_args r clone fs keyboard)))
  = entry name fs.
Proof.
  intros Hname. unfold run.
  destruct (main argv args unknown_args r clone (boot fs keyboard))
    as [res st'] eqn:Hm.
  destruct (confined_main argv args unknown_args r clone _ _ _ Hm
              (logs_into_nil log_file)) as [Hl Hf].
  assert (E : entry name (cwd st') = entry name fs)
    by (apply (Hf name Hname); tauto).
  destruct res as [[]|[cls msg|status]]; cbn [snd]; [exact E| |exact E].
  destruct (excepthook st'); [|exact E].
  unfold handle_exception.
  destruct (log_spec log_file logging.ERROR "Uncaught exception"
              (Some (Exception cls msg)) st' Hl) as (s & Hr & [G _] & _).
  rewrite Hr. cbn [snd]. rewrite G; auto.
Qed.

(** *** The whole of [main]: the command line *)

Lemma ask_int_quiet : forall fuel st r st',
  ask_int fuel st = (r, st') ->
  (forall status, r <> Raise (SystemExit status))
  /\ cwd st' = cwd st /\ handlers st' = handlers st
  /\ root_level st' = root_level st /\ excepthook st' = excepthook st
  /\ stderr st' = stderr st.
Proof.
  induction fuel as [|fuel IH]; intros st r st' H; simpl in H.
  - injection H as <- <-. split; [congruence|auto 6].
  - unfold bind at 1 in H. unfold input in H.
    destruct (stdin st) as [|l rest].
    { injection H as <- <-. split; [unfold raise; congruence|auto 6]. }
    destruct (pyint.int l).
    { injection H as <- <-. split; [congruence|auto 6]. }
    unfold bind, print, modify in H.
    destruct (IH _ _ _ H) as (N & A & B & C & D & E).
    split; [exact N|]. rewrite A, B, C, D, E. auto 6.
Qed.

Lemma positive_int_quiet value st r st' :
  positive_int value st = (r, st') ->
  (forall status, r <> Raise (SystemExit status))
  /\ cwd st' = cwd st /\ handlers st' = handlers st
  /\ root_level st' = root_level st /\ excepthook st' = excepthook st
  /\ stderr st' = stderr st.
Proof.
  unfold positive_int. destruct (pyint.int value) as [i|].
  - destruct (i <=? 0)%Z; intros H; injection H as <- <-;
      (split; [congruence|auto 6]).
  - unfold bind, print, modify. intros H.
    destruct (ask_int_quiet _ _ _ _ H) as (N & A & B & C & D & E).
    split; [exact N|]. rewrite A, B, C, D, E. auto 6.
Qed.

Lemma parser_error_spec {A} prog message st :
  @parser_error A prog message st
  = (Raise (SystemExit 2),
     write_stream Stderr (Line (prog +:+ ": error: " +:+ message))
       (write_stream Stderr UsageText st)).
Proof. reflexivity. Qed.

(** The conversions write to standard output only; when they end the
    process, the status is 2 and the usage and one line of argparse have
    gone to standard error. *)
Lemma convert_multiple_quiet prog values : forall last st r st',
  convert_multiple prog values last st = (r, st') ->
  cwd st' = cwd st /\ handlers st' = handlers st
  /\ root_level st' = root_level st /\ excepthook st' = excepthook st
  /\ match r with
     | Raise (SystemExit status) =>
         status = 2%Z
         /\ exists message,
              stderr st' = stderr st ++ [UsageText; Line message]
     | _ => stderr st' = stderr st
     end.
Proof.
  induction values as [|v values IH]; intros last st r st' H; simpl in H.
  - injection H as <- <-. auto 6.
  - destruct (positive_int v st) as [[i|[cls msg|status]] s1] eqn:E;
      destruct (positive_int_quiet _ _ _ _ E) as (N & A & B & C & D & S).
    + destruct (IH _ _ _ _ H) as (A' & B' & C' & D' & S').
      rewrite A', B', C', D'. repeat (split; [assumption|]).
      destruct r as [a|[cls msg|status]]; rewrite <- S; exact S'.
    + destruct cls;
        try (injection H as <- <-; repeat (split; [assumption|]); exact S).
      rewrite parser_error_spec in H. injection H as <- <-.
      cbn [cwd handlers root_level excepthook stderr write_stream].
      repeat (split; [assumption|]). split; [reflexivity|].
      eexists. rewrite S, <- app_assoc. reflexivity.
    + now destruct (N status).
Qed.

Lemma parse_known_args_quiet cl st r st' :
  parse_known_args cl st = (r, st') ->
  cwd st' = cwd st /\ handlers st' = handlers st
  /\ root_level st' = root_level st /\ excepthook st' = excepthook st
  /\ match r with
     | Raise (SystemExit status) =>
         status = 2%Z
         /\ exists message,
              stderr st' = stderr st ++ [UsageText; Line message]
     | _ => stderr st' = stderr st
     end.
Proof.
  unfold parse_known_args. unfold bind at 1.
  destruct (convert_multiple (prog cl) (multiple_values cl) None st)
    as [[m|e] s1] eqn:E;
    pose proof (convert_multiple_quiet _ _ _ _ _ _ E) as (A & B & C & D & S).
  - destruct (outcome cl) as [args unknown_args|message].
    + intros H. injection H as <- <-. auto 6.
    + rewrite parser_error_spec. intros H. injection H as <- <-.
      cbn [cwd handlers root_level excepthook stderr write_stream].
      repeat (split; [assumption|]). split; [reflexivity|].
      eexists. rewrite S, <- app_assoc. reflexivity.
  - intros H. injection H as <- <-. auto 6.
Qed.

Lemma confined_parse_known_args P cl : confined P (parse_known_args cl).
Proof.
  intros st r st' H Hl.
  destruct (parse_known_args_quiet _ _ _ _ H) as (A & B & _).
  rewrite A, B. auto.
Qed.

(** *** The whole of [main]: the records of the libraries *)

Lemma library_emit_spec name rec st h :
  (forall n, target h = ToFile n -> n = name) ->
  grown_at name (cwd st) (cwd (library_emit rec st h))
  /\ handlers (library_emit rec st h) = handlers st
  /\ root_level (library_emit rec st h) = root_level st
  /\ excepthook (library_emit rec st h) = excepthook st.
Proof.
  intros Hh. unfold library_emit.
  destruct (Nat.leb (level h) (record_level rec));
    [|split; [apply grown_at_refl|auto]].
  destruct (target h) as [n|[|]] eqn:Ht; simpl; (split; [|auto]).
  - rewrite (Hh n eq_refl). apply append_file_grown.
  - apply grown_at_refl.
  - apply grown_at_refl.
Qed.

Lemma library_emit_all_spec name rec hs : forall st,
  logs_into name hs ->
  grown_at name (cwd st) (cwd (fold_left (library_emit rec) hs st))
  /\ handlers (fold_left (library_emit rec) hs st) = handlers st
  /\ root_level (fold_left (library_emit rec) hs st) = root_level st
  /\ excepthook (fold_left (library_emit rec) hs st) = excepthook st.
Proof.
  induction hs as [|h hs IH]; intros st Hl; simpl.
  - split; [apply grown_at_refl|auto].
  - destruct (library_emit_spec name rec st h) as (G & H1 & H2 & H3).
    { intros n Hn. apply (Hl h); [now left|exact Hn]. }
    destruct (IH (library_emit rec st h)) as (G' & H1' & H2' & H3').
    { intros h' Hin. apply Hl. now right. }
    split; [eapply grown_at_trans; eauto|].
    rewrite H1', H2', H3'. auto.
Qed.

Lemma tame_library_log P rec : tame P (library_log rec).
Proof.
  intros st r st' H. unfold library_log, modify in H.
  injection H as <- <-. split; [congruence|]. intros Hl.
  destruct (Nat.leb (root_level st) (record_level rec)); [|auto].
  destruct (handlers st) as [|h hs] eqn:E.
  - match goal with |- context [if ?b then _ else _] => destruct b end;
      cbn [handlers cwd write_stream]; rewrite ?E; auto.
  - destruct (library_emit_all_spec log_file rec (h :: hs) st Hl)
      as ([G _] & H1 & _).
    cbn [fold_left] in G, H1.
    rewrite H1, E. split; [exact Hl|]. intros x Hx _. now apply G.
Qed.

Lemma concat_cons (x : string) l :
  String.concat "" (x :: l) = x +:+ String.concat "" l.
Proof.
  destruct l; [symmetry; apply string_app_nil_r|reflexivity].
Qed.

Lemma logged_cons rec wire : logged (rec :: wire) = logged [rec] +:+ logged wire.
Proof. unfold logged. cbn [List.map]. now rewrite concat_cons. Qed.

(** Once logging is set up, a record of a library goes to the end of the
    log file when its level is [DEBUG] or more. *)
Lemma library_log_initialized lvl rec st old :
  handlers st = [file_handler; console_handler lvl] ->
  root_level st = logging.DEBUG ->
  entry log_file (cwd st) = Some (File old) ->
  exists st',
    library_log rec st = (Ok tt, st')
    /\ handlers st' = handlers st
    /\ root_level st' = root_level st
    /\ entry log_file (cwd st') = Some (File (old +:+ logged [rec]))
    /\ (forall name, name <> log_file ->
          entry name (cwd st') = entry name (cwd st))
    /\ excepthook st' = excepthook st
    /\ (forall o, In o (stdout st) -> In o (stdout st')).
Proof.
  intros Hh Hr He. unfold library_log, modify. eexists.
  split; [reflexivity|]. rewrite Hr, Hh. unfold logged. cbn [List.map String.concat].
  destruct (Nat.leb logging.DEBUG (record_level rec)) eqn:Hleb.
  - cbn [fold_left]. unfold library_emit.
    cbn [level file_handler console_handler target formatter library_text].
    rewrite Hleb.
    destruct (cwd st) as [c|es] eqn:Hcwd; [discriminate|].
    assert (Ha : append_file log_file (file_line rec +:+ newline) (Dir es)
                 = Dir (<[log_file := File (old +:+ (file_line rec +:+ newline))]> es)).
    { unfold append_file. rewrite He. reflexivity. }
    destruct (Nat.leb lvl (record_level rec));
      cbn [cwd handlers root_level excepthook stdout with_cwd write_stream];
      rewrite ?Hcwd, Ha; cbn [entry];
      (split; [exact Hh|]); (split; [exact Hr|]);
      (split; [apply lookup_insert_eq|]);
      (split; [intros name Hn; apply lookup_insert_ne; congruence|]);
      (split; [reflexivity|]); intros o Ho; auto.
    apply in_or_app. now left.
  - rewrite string_app_nil_r. auto 10.
Qed.

Lemma wire_initialized lvl : forall wire st old,
  handlers st = [file_handler; console_handler lvl] ->
  root_level st = logging.DEBUG ->
  entry log_file (cwd st) = Some (File old) ->
  exists st',
    for_each wire library_log st = (Ok tt, st')
    /\ handlers st' = handlers st
    /\ root_level st' = root_level st
    /\ entry log_file (cwd st') = Some (File (old +:+ logged wire))
    /\ (forall name, name <> log_file ->
          entry name (cwd st') = entry name (cwd st))
    /\ excepthook st' = excepthook st
    /\ (forall o, In o (stdout st) -> In o (stdout st')).
Proof.
  induction wire as [|rec wire IH]; intros st old Hh Hr He.
  - exists st. change (logged []) with "". rewrite string_app_nil_r.
    cbn [for_each]. unfold ret. auto 10.
  - destruct (library_log_initialized lvl rec st old Hh Hr He)
      as (s1 & H1 & A1 & R1 & E1 & F1 & X1 & O1).
    destruct (IH s1 _ (eq_trans A1 Hh) (eq_trans R1 Hr) E1)
      as (s2 & H2 & A2 & R2 & E2 & F2 & X2 & O2).
    exists s2. cbn [for_each]. unfold bind at 1. rewrite H1.
    split; [exact H2|]. split; [congruence|]. split; [congruence|].
    split; [rewrite E2, (logged_cons rec wire), string_app_assoc; reflexivity|].
    split; [intros name Hn; rewrite F2, F1; auto|].
    split; [congruence|auto].
Qed.

Lemma check_latest_version_logged_result wire r st a st' :
  check_latest_version_logged wire r st = (Ok a, st') ->
  check_latest_version r = Ok a.
Proof.
  unfold check_latest_version_logged, bind, lift.
  destruct (for_each wire library_log st) as [[[]|e] s]; [|discriminate].
  intros H. now injection H as -> _.
Qed.

Lemma tame_check_latest_version_logged P wire r :
  tame P (check_latest_version_logged wire r).
Proof.
  apply tame_bind.
  - apply tame_for_each. intros rec. apply tame_library_log.
  - intros _. apply tame_lift. intros s. apply check_latest_version_no_exit.
Qed.

(** *** The whole of [main]: the run *)

(** The run of [main] up to line 224: the log holds the record of the
    command line, the records of the libraries and the startup message,
    the hook is installed, and the rest of [main] starts. *)
Lemma script_prologue argv cl wire r clone st args unknown_args st0 st1 :
  parse_known_args cl st = (Ok (args, unknown_args), st0) ->
  initialize_logging (verbose args) None st0 = (Ok tt, st1) ->
  exists vm lvl st4,
    check_latest_version r = Ok vm
    /\ version.parse vm
       = Raise (Exception InvalidVersion ("Invalid version: '" +:+ vm +:+ "'"))
    /\ script argv cl wire r clone st
       = after_startup args unknown_args clone vm st4
    /\ handlers st4 = [file_handler; console_handler lvl]
    /\ root_level st4 = logging.DEBUG
    /\ entry log_file (cwd st4) = Some (File (log_opening argv wire vm))
    /\ excepthook st4 = true
    /\ (forall o, In o (stdout st0) -> In o (stdout st4)).
Proof.
  intros Hparse Hinit.
  destruct (initialize_logging_post _ _ _ Hinit) as (lvl & A1 & R1 & E1 & _ & O1).
  destruct (version_message_is_no_version r) as (vm & what & Hc & Hp).
  destruct (parse_failure _ _ Hp) as [Hw|[n Hw]]; [|discriminate].
  injection Hw as ->.
  assert (Hd : logging.DEBUG <= logging.INFO)
    by (unfold logging.DEBUG, logging.INFO; lia).
  destruct (log_initialized lvl logging.INFO
              ("Command-line arguments: " +:+ Str.join " " argv) None st1 ""
              A1 R1 E1 Hd)
    as (st2 & H2 & A2 & R2 & E2 & _ & _ & O2).
  set (st3 := with_excepthook true st2).
  destruct (wire_initialized lvl wire st3 _ (eq_trans A2 A1) (eq_trans R2 R1) E2)
    as (sw & Hw & Aw & Rw & Ew & _ & Xw & Ow).
  destruct (log_initialized lvl logging.INFO (startup_message vm) None sw _
              (eq_trans Aw (eq_trans A2 A1)) (eq_trans Rw (eq_trans R2 R1))
              Ew Hd)
    as (st4 & H4 & A4 & R4 & E4 & _ & X4 & O4).
  exists vm, lvl, st4. split; [exact Hc|]. split; [exact Hp|].
  split; [|split; [exact (eq_trans A4 (eq_trans Aw (eq_trans A2 A1)))|]].
  - unfold script. unfold bind at 1. rewrite Hparse. cbn [fst snd].
    unfold bind at 1. rewrite Hinit.
    unfold bind at 1. unfold log_command_line_arguments, logging_info.
    rewrite H2.
    unfold bind at 1. unfold modify at 1. fold st3.
    unfold bind at 1. unfold check_latest_version_logged.
    unfold bind at 1. rewrite Hw. unfold lift at 1. rewrite Hc.
    unfold bind at 1. rewrite H4. reflexivity.
  - split; [exact (eq_trans R4 (eq_trans Rw (eq_trans R2 R1)))|].
    split.
    { rewrite E4. unfold log_opening. rewrite !string_app_assoc. reflexivity. }
    split; [rewrite X4, Xw; reflexivity|].
    intros o Ho. apply O4, Ow. subst st3. cbn [stdout with_excepthook].
    apply O2. rewrite O1. exact Ho.
Qed.

Lemma confined_bind_result P {A B} (m : M A) (k : A -> M B) (Q : A -> Prop) :
  confined P m ->
  (forall st a st', m st = (Ok a, st') -> Q a) ->
  (forall a, Q a -> confined P (k a)) ->
  confined P (bind m k).
Proof.
  intros Hm HQ Hk st r st' H Hl. unfold bind in H.
  destruct (m st) as [[a|e] s1] eqn:E.
  - destruct (Hm _ _ _ E Hl) as [L1 F1].
    destruct (Hk a (HQ _ _ _ E) _ _ _ H L1) as [L2 F2].
    split; [exact L2|]. intros x Hx HP. rewrite F2, F1; auto.
  - injection H as <- <-. exact (Hm _ _ _ E Hl).
Qed.

(** Whatever the command line, the answer of the server and the records
    of the libraries, [main] touches nothing but the log file. *)
Lemma confined_script argv cl wire r clone :
  confined (fun _ => False) (script argv cl wire r clone).
Proof.
  destruct (version_message_is_no_version r) as (vm & what & Hc & Hp).
  unfold script.
  apply confined_bind; [apply confined_parse_known_args|intros parsed].
  apply confined_bind; [apply tame_confined, tame_initialize_logging|intros _].
  apply confined_bind; [apply tame_confined, tame_log|intros _].
  apply confined_bind.
  { apply tame_confined, tame_modify; intros st; simpl; auto. }
  intros _.
  apply (confined_bind_result _ _ _ (fun a => a = vm)).
  - apply tame_confined, tame_check_latest_version_logged.
  - intros st a st' H. apply check_latest_version_logged_result in H.
    congruence.
  - intros a ->.
    apply confined_bind; [apply tame_confined, tame_log|intros _].
    now apply (confined_after_startup _ _ _ _ what).
Qed.

Lemma launch_frame argv cl wire r clone fs keyboard name :
  name <> log_file ->
  entry name (cwd (snd (launch argv cl wire r clone fs keyboard)))
  = entry name fs.
Proof.
  intros Hname. unfold launch.
  destruct (script argv cl wire r clone (boot fs keyboard))
    as [res st'] eqn:Hm.
  destruct (confined_script argv cl wire r clone _ _ _ Hm
              (logs_into_nil log_file)) as [Hl Hf].
  assert (E : entry name (cwd st') = entry name fs)
    by (apply (Hf name Hname); tauto).
  destruct res as [[]|[cls msg|status]]; cbn [snd]; [exact E| |exact E].
  destruct (excepthook st'); [|exact E].
  unfold handle_exception.
  destruct (log_spec log_file logging.ERROR "Uncaught exception"
              (Some (Exception cls msg)) st' Hl) as (s & Hr & [G _] & _).
  rewrite Hr. cbn [snd]. rewrite G; auto.
Qed.

(** [run] is the run of a command line that argparse accepts without
    having met [-m], when the libraries log nothing. *)
Lemma run_is_launch argv args unknown_args r clone fs keyboard :
  launch argv (accepted args unknown_args) [] r clone fs keyboard
  = run argv args unknown_args r clone fs keyboard.
Proof.
  unfold launch, run.
  assert (H : script argv (accepted args unknown_args) [] r clone
                (boot fs keyboard)
              = main argv args unknown_args r clone (boot fs keyboard)).
  { rewrite main_unfold. unfold script. unfold bind at 1.
    change (parse_known_args (accepted args unknown_args) (boot fs keyboard))
      with (Ok (args, unknown_args), boot fs keyboard).
    cbn [fst snd]. reflexivity. }
  now rewrite H.
Qed.

(** How the run ends once the command line is parsed and logging is set
    up. *)
Lemma launch_after_startup argv cl wire r clone fs keyboard args unknown_args
  st0 st1 :
  parse_known_args cl (boot fs keyboard) = (Ok (args, unknown_args), st0) ->
  initialize_logging (verbose args) None st0 = (Ok tt, st1) ->
  exists vm lvl st4,
    check_latest_version r = Ok vm
    /\ version.parse vm
       = Raise (Exception InvalidVersion ("Invalid version: '" +:+ vm +:+ "'"))
    /\ launch argv cl wire r clone fs keyboard
       = match after_startup args unknown_args clone vm st4 with
         | (Ok tt, st') => (EntersWorkflow, st')
         | (Raise (SystemExit status), st') => (Exits status, st')
         | (Raise (Exception cls msg), st') =>
             (Exits 1,
              if excepthook st'
              then snd (handle_exception (Exception cls msg) st')
              else write_stream Stderr (Traceback (Exception cls msg)) st')
         end
    /\ handlers st4 = [file_handler; console_handler lvl]
    /\ root_level st4 = logging.DEBUG
    /\ entry log_file (cwd st4) = Some (File (log_opening argv wire vm))
    /\ excepthook st4 = true
    /\ (forall o, In o (stdout st0) -> In o (stdout st4)).
Proof.
  intros Hparse Hinit.
  destruct (script_prologue argv cl wire r clone _ _ _ _ _ Hparse Hinit)
    as (vm & lvl & st4 & Hc & Hp & Hm & H).
  exists vm, lvl, st4. split; [exact Hc|]. split; [exact Hp|].
  split; [|exact H]. unfold launch. now rewrite Hm.
Qed.

(** The run when [initialize_logging] raises: the hook is not installed
    yet, and the traceback goes to standard error. *)
Lemma launch_without_logging argv cl wire r clone fs keyboard args
  unknown_args st0 cls msg st1 :
  parse_known_args cl (boot fs keyboard) = (Ok (args, unknown_args), st0) ->
  initialize_logging (verbose args) None st0
  = (Raise (Exception cls msg), st1) ->
  launch argv cl wire r clone fs keyboard
  = (Exits 1,
     if excepthook st1
     then snd (handle_exception (Exception cls msg) st1)
     else write_stream Stderr (Traceback (Exception cls msg)) st1).
Proof.
  intros Hparse Hinit. unfold launch, script. unfold bind at 1.
  rewrite Hparse. cbn [fst snd]. unfold bind at 1. rewrite Hinit.
  reflexivity.
Qed.

(** C2, as amended: for every invocation whose command line argparse
    accepts, with [--upgrade] or [--help] set and at least one
    unrecognized argument left over, the process exits with status 1 and
    no entry of the working directory other than the log file
    [autocrew.log] is changed; once logging is set up, the usage text is
    printed and the conflict is the last record of the log. *)
Theorem unrecognized_argument_is_usage_error
  argv cl wire r clone fs keyboard args u us st0 :
  parse_known_args cl (boot fs keyboard) = (Ok (args, u :: us), st0) ->
  upgrade args || help args = true ->
  fst (launch argv cl wire r clone fs keyboard) = Exits 1
  /\ (forall name, name <> log_file ->
        entry name (cwd (snd (launch argv cl wire r clone fs keyboard)))
        = entry name fs)
  /\ (forall st1,
        initialize_logging (verbose args) None st0 = (Ok tt, st1) ->
        In UsageText (stdout (snd (launch argv cl wire r clone fs keyboard)))
        /\ exists before,
             entry log_file
               (cwd (snd (launch argv cl wire r clone fs keyboard)))
             = Some (File (before
                           +:+ (file_format logging.ERROR usage_conflict
                                +:+ newline)))).
Proof.
  intros Hparse Hflag.
  assert (Hrun : forall st1,
            initialize_logging (verbose args) None st0 = (Ok tt, st1) ->
            exists st' before,
              launch argv cl wire r clone fs keyboard = (Exits 1, st')
              /\ In UsageText (stdout st')
              /\ entry log_file (cwd st')
                 = Some (File (before
                               +:+ (file_format logging.ERROR usage_conflict
                                    +:+ newline)))).
  { intros st1 Hinit.
    destruct (launch_after_startup argv cl wire r clone fs keyboard _ _ _ _
                Hparse Hinit)
      as (vm & lvl & st4 & _ & _ & Hl & A4 & R4 & E4 & _).
    set (st5 := write_stream Stdout UsageText st4).
    destruct (log_initialized lvl logging.ERROR usage_conflict None st5 _
                A4 R4 E4) as (st6 & H6 & _ & _ & E6 & _ & _ & O6).
    { unfold logging.DEBUG, logging.ERROR. lia. }
    exists st6, (log_opening argv wire vm). split; [|split; [|exact E6]].
    - rewrite Hl. unfold after_startup. rewrite Hflag.
      unfold bind at 1. unfold modify at 1. fold st5.
      unfold bind at 1. unfold logging_error. rewrite H6. reflexivity.
    - apply O6. subst st5. cbn [stdout write_stream].
      apply in_or_app. right. now left. }
  split; [|split].
  - destruct (initialize_logging (verbose args) None st0)
      as [[[]|[cls msg|status]] st1] eqn:Hinit.
    + destruct (Hrun st1 eq_refl) as (st' & before & Hl & _). now rewrite Hl.
    + now rewrite (launch_without_logging argv cl wire r clone fs keyboard
                     _ _ _ _ _ _ Hparse Hinit).
    + exfalso.
      apply (initialize_logging_no_exit (verbose args) None st0 status).
      now rewrite Hinit.
  - intros name Hname. now apply launch_frame.
  - intros st1 Hinit. destruct (Hrun st1 Hinit) as (st' & before & Hl & Hu & He).
    rewrite Hl. cbn [snd]. eauto.
Qed.

(** X6: with [--upgrade] and no unrecognized argument, on a command line
    that argparse accepts, the process ends with status 1 whatever release
    the server reports: line 232 parses the sentence of the version check,
    [InvalidVersion] escapes to the hook of line 214, and the log holds
    the record of the command line, the records of the libraries under
    the version check, the startup message and the record of the uncaught
    exception, and nothing of an upgrade. *)
Theorem upgrade_flag_ends_in_invalid_version
  argv cl wire r clone fs keyboard args st0 :
  parse_known_args cl (boot fs keyboard) = (Ok (args, []), st0) ->
  upgrade args = true ->
  fst (launch argv cl wire r clone fs keyboard) = Exits 1
  /\ forall st1,
       initialize_logging (verbose args) None st0 = (Ok tt, st1) ->
       exists version_message,
         check_latest_version r = Ok version_message
         /\ entry log_file
              (cwd (snd (launch argv cl wire r clone fs keyboard)))
            = Some (File
                (log_opening argv wire version_message
                 +:+ uncaught
                       (Exception InvalidVersion
                          ("Invalid version: '" +:+ version_message +:+ "'")))).
Proof.
  intros Hparse Hu.
  assert (Hrun : forall st1,
            initialize_logging (verbose args) None st0 = (Ok tt, st1) ->
            exists vm st',
              check_latest_version r = Ok vm
              /\ launch argv cl wire r clone fs keyboard = (Exits 1, st')
              /\ entry log_file (cwd st')
                 = Some (File
                     (log_opening argv wire vm
                      +:+ uncaught
                            (Exception InvalidVersion
                               ("Invalid version: '" +:+ vm +:+ "'"))))).
  { intros st1 Hinit.
    destruct (launch_after_startup argv cl wire r clone fs keyboard _ _ _ _
                Hparse Hinit)
      as (vm & lvl & st4 & Hc & Hp & Hl & A4 & R4 & E4 & X4 & _).
    destruct (log_initialized lvl logging.ERROR "Uncaught exception"
                (Some (Exception InvalidVersion
                         ("Invalid version: '" +:+ vm +:+ "'")))
                st4 _ A4 R4 E4) as (st5 & H5 & _ & _ & E5 & _).
    { unfold logging.DEBUG, logging.ERROR. lia. }
    exists vm, st5. split; [exact Hc|]. split; [|exact E5].
    rewrite Hl. unfold after_startup. rewrite Hu. cbn [orb].
    unfold bind at 1. unfold lift at 1. rewrite Hp. rewrite X4.
    unfold handle_exception. rewrite H5. reflexivity. }
  split.
  - destruct (initialize_logging (verbose args) None st0)
      as [[[]|[cls msg|status]] st1] eqn:Hinit.
    + destruct (Hrun st1 eq_refl) as (vm & st' & _ & Hl & _). now rewrite Hl.
    + now rewrite (launch_without_logging argv cl wire r clone fs keyboard
                     _ _ _ _ _ _ Hparse Hinit).
    + exfalso.
      apply (initialize_logging_no_exit (verbose args) None st0 status).
      now rewrite Hinit.
  - intros st1 Hinit. destruct (Hrun st1 Hinit) as (vm & st' & Hc & Hl & He).
    exists vm. rewrite Hl. auto.
Qed.

(** X7: with [--help] alone (no [--upgrade], no unrecognized argument),
    on a command line that argparse accepts and with logging set up, the
    process ends with status 0 and the help text is the last thing on
    standard output; the release check has run before, and the log holds
    the record of the command line, the records of the libraries under
    the version check and the startup message, and nothing else. *)
Theorem help_flag_prints_help argv cl wire r clone fs keyboard args st0 st1 :
  parse_known_args cl (boot fs keyboard) = (Ok (args, []), st0) ->
  upgrade args = false ->
  help args = true ->
  initialize_logging (verbose args) None st0 = (Ok tt, st1) ->
  fst (launch argv cl wire r clone fs keyboard) = Exits 0
  /\ (exists before,
        stdout (snd (launch argv cl wire r clone fs keyboard))
        = before ++ [HelpText])
  /\ exists version_message,
       check_latest_version r = Ok version_message
       /\ entry log_file (cwd (snd (launch argv cl wire r clone fs keyboard)))
          = Some (File (log_opening argv wire version_message)).
Proof.
  intros Hparse Hu Hh Hinit.
  destruct (launch_after_startup argv cl wire r clone fs keyboard _ _ _ _
              Hparse Hinit)
    as (vm & lvl & st4 & Hc & Hp & Hl & A4 & R4 & E4 & X4 & _).
  rewrite Hl. unfold after_startup. rewrite Hu, Hh. cbn [orb].
  unfold bind, modify, sys_exit. cbn [fst snd].
  split; [reflexivity|]. split; [exists (stdout st4); reflexivity|].
  exists vm. split; [exact Hc|exact E4].
Qed.

(** X8: whenever the command line is accepted and logging is set up, the
    log of the run starts with the record of the command line, which the
    records of the libraries under the version check follow, and then the
    record of the startup message, which carries the sentence of the
    version check. *)
Theorem log_starts_with_the_command_line
  argv cl wire r clone fs keyboard args unknown_args st0 st1 :
  parse_known_args cl (boot fs keyboard) = (Ok (args, unknown_args), st0) ->
  initialize_logging (verbose args) None st0 = (Ok tt, st1) ->
  exists version_message rest,
    check_latest_version r = Ok version_message
    /\ entry log_file
         (cwd (snd (launch argv cl wire r clone fs keyboard)))
       = Some (File (log_opening argv wire version_message +:+ rest)).
Proof.
  intros Hparse Hinit.
  destruct (launch_after_startup argv cl wire r clone fs keyboard _ _ _ _
              Hparse Hinit)
    as (vm & lvl & st4 & Hc & Hp & Hl & A4 & R4 & E4 & X4 & _).
  exists vm. rewrite Hl. unfold after_startup.
  assert (Hplain : exists rest,
            entry log_file (cwd st4)
            = Some (File (log_opening argv wire vm +:+ rest))).
  { exists "". now rewrite string_app_nil_r. }
  destruct (upgrade args || help args) eqn:Hflag;
    [|destruct Hplain as [rest Hrest]; exists rest; auto].
  destruct unknown_args as [|u us].
  - destruct (upgrade args) eqn:Hu.
    + unfold bind at 1. unfold lift at 1. rewrite Hp. cbn [snd]. rewrite X4.
      unfold handle_exception.
      destruct (log_initialized lvl logging.ERROR "Uncaught exception"
                  (Some (Exception InvalidVersion
                           ("Invalid version: '" +:+ vm +:+ "'")))
                  st4 _ A4 R4 E4) as (st5 & H5 & _ & _ & E5 & _).
      { unfold logging.DEBUG, logging.ERROR. lia. }
      rewrite H5. eauto.
    + unfold bind, modify, sys_exit. cbn [snd].
      destruct Hplain as [rest Hrest]. exists rest. auto.
  - unfold bind at 1. unfold modify at 1. unfold bind at 1.
    destruct (log_initialized lvl logging.ERROR usage_conflict None
                (write_stream Stdout UsageText st4) _ A4 R4 E4)
      as (st5 & H5 & _ & _ & E5 & _).
    { unfold logging.DEBUG, logging.ERROR. lia. }
    unfold logging_error. rewrite H5. unfold sys_exit. cbn [snd]. eauto.
Qed.

(** X9: a [config.ini] that cannot be parsed stops every run that gets
    past the command line, [--help] included, at line 48: the exception
    escapes before the hook of line 214 is installed and before the log
    file is opened, so that the traceback goes to standard error, the exit
    status is 1, and nothing is written after the command line was
    parsed; the working directory is as it was. *)
Theorem unreadable_settings_stop_every_run
  argv cl wire r clone fs keyboard args unknown_args st0 text cls msg :
  parse_known_args cl (boot fs keyboard) = (Ok (args, unknown_args), st0) ->
  entry config_file fs = Some (File text) ->
  parse_ini text = inr (cls, msg) ->
  launch argv cl wire r clone fs keyboard
  = (Exits 1, write_stream Stderr (Traceback (Exception cls msg)) st0)
  /\ cwd st0 = fs
  /\ stderr st0 = [].
Proof.
  intros Hparse He Hp.
  destruct (parse_known_args_quiet _ _ _ _ Hparse) as (C0 & _ & _ & X0 & S0).
  cbn [cwd excepthook stderr boot] in C0, X0, S0.
  split; [|auto].
  assert (Hinit : initialize_logging (verbose args) None st0
                  = (Raise (Exception cls msg), st0)).
  { unfold initialize_logging. unfold bind at 1. unfold config_read.
    rewrite C0.
    rewrite (proj2 (node_lookup_top config_file fs (File text)) He).
    unfold load_config. rewrite Hp. reflexivity. }
  rewrite (launch_without_logging argv cl wire r clone fs keyboard
             _ _ _ _ _ _ Hparse Hinit).
  now rewrite X0.
Qed.

(** X28: when the command line ends the process, by a refusal of argparse
    or by the [ArgumentTypeError] of [positive_int] for a value of [-m]
    that is zero or less, the exit status is 2, the usage and one line of
    argparse are on standard error, and nothing else has happened: the
    process ends in the state in which [parse_known_args] left it, no
    handler is installed and the working directory is as it was. *)
Theorem refused_command_line_exits_with_status_2
  argv cl wire r clone fs keyboard status st0 :
  parse_known_args cl (boot fs keyboard) = (Raise (SystemExit status), st0) ->
  launch argv cl wire r clone fs keyboard = (Exits 2, st0)
  /\ cwd st0 = fs
  /\ handlers st0 = []
  /\ exists message, stderr st0 = [UsageText; Line message].
Proof.
  intros Hparse.
  destruct (parse_known_args_quiet _ _ _ _ Hparse)
    as (C0 & A0 & _ & _ & -> & message & S0).
  cbn [cwd handlers stderr boot app] in C0, A0, S0.
  split; [|split; [exact C0|split; [exact A0|exists message; exact S0]]].
  unfold launch, script. unfold bind at 1. now rewrite Hparse.
Qed.

(** X29: whatever the command line, what is typed, the answer of the
    release server, the records of the libraries and the outcome of a
    clone, a run changes no entry of the working directory other than the
    log file, up to the point where the crew workflow starts or the
    process ends. *)
Theorem launch_changes_only_the_log
  argv cl wire r clone fs keyboard name :
  name <> log_file ->
  entry name (cwd (snd (launch argv cl wire r clone fs keyboard)))
  = entry name fs.
Proof. apply launch_frame. Qed.


(** *** [upgrade_autocrew], step by step (lines 145-192) *)

Lemma logfile_backup_is_not_config latest_version :
  logfile_backup_name latest_version <> "config_backup.ini".
Proof. unfold logfile_backup_name. intros H. vm_compute in H. discriminate H. Qed.

(** Lines 146-155 when there is a log: its text goes to the backup
    directory. *)
Lemma backup_logfile_post latest_version st st1 old :
  logs_into log_file (handlers st) ->
  entry log_file (cwd st) = Some (File old) ->
  backup_logfile latest_version st = (Ok tt, st1) ->
  logs_into log_file (handlers st1)
  /\ (forall x, x <> log_file -> x <> backup_dir ->
        entry x (cwd st1) = entry x (cwd st))
  /\ exists bes,
       entry backup_dir (cwd st1) = Some (Dir bes)
       /\ bes !! logfile_backup_name latest_version = Some (File old).
Proof.
  intros Hl Hlog H.
  destruct (tame_backup_logfile latest_version _ _ _ H) as [_ F].
  destruct (F Hl) as [L1 F1]. split; [exact L1|]. split.
  { intros x Hx Hb. apply F1; auto. }
  unfold backup_logfile in H.
  apply bind_ok in H as (p1 & s1 & H1 & H).
  rewrite path_exists_top in H1. injection H1 as <- <-.
  apply bind_ok in H as ([] & s2 & H2 & H).
  assert (E2 : entry log_file (cwd s2) = Some (File old)
               /\ handlers s2 = handlers st).
  { destruct (entry backup_dir (cwd st)) as [m|] eqn:Eb; simpl in H2.
    - injection H2 as <-. auto.
    - unfold makedirs in H2. rewrite Eb in H2. injection H2 as <-. simpl.
      split; [|reflexivity].
      rewrite entry_set_entry_ne; [exact Hlog|discriminate]. }
  destruct E2 as [E2 A2].
  apply bind_ok in H as (p3 & s3 & H3 & H).
  rewrite path_exists_top in H3. change "autocrew.log" with log_file in H3, H.
  rewrite E2 in H3. injection H3 as <- <-. simpl in H.
  apply bind_ok in H as ([] & s4 & H4 & H).
  unfold copyfile in H4. apply bind_ok in H4 as (text & s3 & Hr & Hw).
  unfold read_text in Hr.
  rewrite (proj2 (node_lookup_top log_file (cwd s2) (File old)) E2) in Hr.
  injection Hr as <- <-.
  unfold write_text in Hw.
  destruct (node_write [backup_dir; logfile_backup_name latest_version] old
              (cwd s2)) as [n|e] eqn:Ew; [|discriminate].
  injection Hw as <-.
  destruct (node_write_in_dir _ _ _ _ _ Ew) as (es & _ & Hb).
  assert (L4 : logs_into log_file (handlers (with_cwd n s2)))
    by (simpl; now rewrite A2).
  match type of H with
  | logging_info ?m ?s = _ =>
      destruct (log_spec log_file logging.INFO m None s L4)
        as (s5 & Hr & [G _] & _)
  end.
  unfold logging_info in H. rewrite Hr in H. injection H as <-.
  exists (<[logfile_backup_name latest_version := File old]> es).
  split; [|apply lookup_insert_eq].
  rewrite G; [exact Hb|discriminate].
Qed.

(** Lines 157-159: the backup directory gets the text of the settings,
    beside what it held. *)
Lemma backup_config_adds st st1 bes :
  logs_into log_file (handlers st) ->
  entry backup_dir (cwd st) = Some (Dir bes) ->
  backup_config st = (Ok tt, st1) ->
  exists previous,
    entry "config.ini" (cwd st) = Some (File previous)
    /\ entry backup_dir (cwd st1)
       = Some (Dir (<["config_backup.ini" := File previous]> bes))
    /\ entry "config.ini" (cwd st1) = Some (File previous).
Proof.
  intros Hl Hb H. unfold backup_config in H.
  apply bind_ok in H as ([] & s5 & H5 & H).
  unfold copyfile in H5. apply bind_ok in H5 as (text & s4' & Hr & Hw).
  unfold read_text in Hr.
  destruct (node_lookup ["config.ini"] (cwd st)) as [[c|es]|e] eqn:En;
    try discriminate.
  injection Hr as <- <-. apply node_lookup_top in En.
  unfold write_text, config_backup_path in Hw.
  destruct (node_write [backup_dir; "config_backup.ini"] c (cwd st))
    as [n|e] eqn:Ew; [|discriminate].
  injection Hw as <-.
  destruct (node_write_in_dir _ _ _ _ _ Ew) as (bes' & Hb' & Hn).
  rewrite Hb in Hb'. injection Hb' as <-.
  assert (Hc : entry "config.ini" n = Some (File c)).
  { rewrite (node_write_frame _ _ _ _ _ "config.ini" Ew); [exact En|].
    discriminate. }
  assert (L5 : logs_into log_file (handlers (with_cwd n st))) by exact Hl.
  destruct (log_spec log_file logging.INFO
              "Backing up the current config.ini file..." None _ L5)
    as (s6 & Hr & [G _] & _).
  unfold logging_info in H. rewrite Hr in H. injection H as <-.
  exists c. split; [exact En|]. split.
  - rewrite G; [exact Hn|discriminate].
  - rewrite G; [exact Hc|discriminate].
Qed.

(** X10: when the backup of lines 146-159 returns on an installation
    that has a log, the backup directory holds the text the log had when
    the upgrade started and the text of [config.ini], and [config.ini]
    itself is as it was. *)
Theorem backup_holds_log_and_settings latest_version st st1 old :
  logs_into log_file (handlers st) ->
  entry log_file (cwd st) = Some (File old) ->
  backup latest_version st = (Ok tt, st1) ->
  exists previous,
    entry "config.ini" (cwd st) = Some (File previous)
    /\ node_lookup [backup_dir; logfile_backup_name latest_version] (cwd st1)
       = Ok (File old)
    /\ node_lookup config_backup_path (cwd st1) = Ok (File previous)
    /\ entry "config.ini" (cwd st1) = Some (File previous).
Proof.
  intros Hl Hlog H. unfold backup in H.
  apply bind_ok in H as ([] & s1 & H1 & H).
  destruct (backup_logfile_post _ _ _ _ Hl Hlog H1)
    as (L1 & F1 & bes & B1 & O1).
  destruct (backup_config_adds _ _ _ L1 B1 H) as (previous & C1 & B2 & C2).
  exists previous. split.
  { rewrite <- F1; [exact C1|discriminate|discriminate]. }
  unfold config_backup_path.
  rewrite !(node_lookup_cons _ _ _ _ B2). simpl.
  rewrite lookup_insert_eq.
  rewrite lookup_insert_ne;
    [|intros E; exact (logfile_backup_is_not_config latest_version (eq_sym E))].
  rewrite O1. auto.
Qed.

(** Lines 187-192 with the update directory in place. *)
Lemma finish_post latest_version tree st r st' :
  logs_into log_file (handlers st) ->
  entry update_dir (cwd st) = Some (Dir tree) ->
  finish latest_version st = (r, st') ->
  r = Raise (SystemExit 0)
  /\ entry update_dir (cwd st') = None
  /\ forall x, x <> log_file -> x <> update_dir ->
       entry x (cwd st') = entry x (cwd st).
Proof.
  intros Hl Hu H.
  destruct (confined_finish latest_version _ _ _ H Hl) as [_ F].
  unfold finish in H. unfold bind at 1 in H. unfold rmtree in H.
  rewrite Hu in H.
  set (s1 := with_cwd (remove_entry update_dir (cwd st)) st) in H.
  assert (E1 : entry update_dir (cwd s1) = None).
  { subst s1. simpl. destruct (entry_dir _ _ _ Hu) as [top ->]. simpl.
    apply lookup_delete_eq. }
  assert (L1 : logs_into log_file (handlers s1)) by exact Hl.
  clearbody s1.
  destruct (log_spec log_file logging.INFO "Cleaned up the update directory."
              None s1 L1) as (s2 & H2 & [G2 _] & L2 & _).
  unfold bind at 1 in H. unfold logging_info at 1 in H. rewrite H2 in H.
  cbv zeta in H.
  destruct (log_spec log_file logging.INFO
              ("Upgrade successful. AutoCrew has been updated from version "
               +:+ AUTOCREW_VERSION +:+ " to version " +:+ latest_version
               +:+ ".") None s2 L2) as (s3 & H3 & [G3 _] & L3 & _).
  unfold bind at 1 in H. unfold logging_info at 1 in H. rewrite H3 in H.
  unfold bind, print, modify, sys_exit in H. injection H as <- <-.
  split; [reflexivity|]. split.
  - simpl. rewrite G3, G2; [exact E1|discriminate|discriminate].
  - intros x Hx Hx'. apply F; auto.
Qed.

Lemma replace_one_skips tree filename st :
  entry update_dir (cwd st) = Some (Dir tree) ->
  (forall content, tree !! filename <> Some (File content)) ->
  replace_one filename st = (Ok tt, st).
Proof.
  intros Hu Hn. unfold replace_one, bind, isfile.
  rewrite (node_lookup_cons _ _ _ _ Hu). simpl.
  destruct (tree !! filename) as [[c|d]|]; try reflexivity.
  now destruct (Hn c).
Qed.

(** The loop of line 168 leaves alone every name under which the fetched
    tree has no regular file. *)
Lemma replace_loop_frame tree x : forall l st st',
  logs_into log_file (handlers st) ->
  entry update_dir (cwd st) = Some (Dir tree) ->
  x <> log_file ->
  (forall content, tree !! x <> Some (File content)) ->
  for_each l replace_one st = (Ok tt, st') ->
  entry x (cwd st') = entry x (cwd st).
Proof.
  induction l as [|f l IH]; intros st st' Hl Hu Hx Hn H; simpl in H.
  - now injection H as <-.
  - apply bind_ok in H as ([] & s1 & H1 & H).
    destruct (replace_one_post tree f st s1 Hl Hu H1) as (L1 & F1 & _).
    assert (U1 : entry update_dir (cwd s1) = Some (Dir tree)).
    { rewrite F1; [exact Hu|discriminate|right; eauto]. }
    rewrite (IH s1 st' L1 U1 Hx Hn H).
    destruct (String.eqb x f) eqn:E.
    + apply String.eqb_eq in E. subst f.
      rewrite (replace_one_skips tree x st Hu Hn) in H1. now injection H1 as <-.
    + apply String.eqb_neq in E. apply F1; [exact Hx|now left].
Qed.

Lemma replace_files_frame tree x st st' :
  logs_into log_file (handlers st) ->
  entry update_dir (cwd st) = Some (Dir tree) ->
  x <> log_file ->
  (forall content, tree !! x <> Some (File content)) ->
  replace_files st = (Ok tt, st') ->
  entry x (cwd st') = entry x (cwd st).
Proof.
  intros Hl Hu Hx Hn H. unfold replace_files in H.
  apply bind_ok in H as (filenames & s1 & H1 & H).
  unfold listdir in H1. rewrite Hu in H1. injection H1 as <- <-.
  exact (replace_loop_frame tree x _ st st' Hl Hu Hx Hn H).
Qed.

(** The loop of line 168 never writes [config.ini]. *)
Lemma tame_replace_files_settings :
  tame (fun x => x <> "config.ini") replace_files.
Proof.
  unfold replace_files.
  apply tame_bind; [apply tame_listdir|intros filenames].
  apply tame_for_each. intros filename. unfold replace_one.
  apply tame_bind; [apply tame_isfile|intros regular].
  destruct (String.eqb filename "config.ini") eqn:E.
  - cbn [negb]. rewrite andb_false_r. apply tame_ret.
  - apply tame_when. apply String.eqb_neq in E.
    apply tame_bind; [now apply tame_copyfile|intros _]. apply tame_log.
Qed.

(** Lines 174-185 write [config.ini] last: when they raise, the file is
    as it was. *)
Lemma update_config_failure st e st' :
  logs_into log_file (handlers st) ->
  update_config st = (Raise e, st') ->
  entry "config.ini" (cwd st') = entry "config.ini" (cwd st).
Proof.
  intros Hl H. unfold update_config in H.
  destruct (log_spec log_file logging.INFO
              "Updating the config.ini file with your previous settings..."
              None st Hl) as (s1 & Hr & [G _] & _).
  unfold bind at 1 in H. unfold logging_info in H. rewrite Hr in H.
  assert (E1 : entry "config.ini" (cwd s1) = entry "config.ini" (cwd st))
    by (apply G; discriminate).
  unfold bind at 1 in H. unfold config_read at 1 in H.
  destruct (load_config (node_lookup [update_dir; "config.ini"] (cwd s1)))
    as [config|e1]; [|now injection H as _ <-].
  unfold bind at 1 in H. unfold config_read at 1 in H.
  destruct (load_config (node_lookup config_backup_path (cwd s1)))
    as [config_backup|e2]; [|now injection H as _ <-].
  unfold bind at 1 in H. unfold lift at 1 in H.
  destruct (merge config config_backup) as [merged|e3];
    [|now injection H as _ <-].
  unfold write_text in H.
  destruct (node_write ["config.ini"] (write_ini merged) (cwd s1));
    [discriminate|]. now injection H as _ <-.
Qed.

(** The run of [upgrade_autocrew] on a fetched tree up to line 173. *)
Lemma upgrade_replaced tree latest_version st s1 s2 s3 :
  logs_into log_file (handlers st) ->
  backup latest_version st = (Ok tt, s1) ->
  fetch (Cloned tree) s1 = (Ok tt, s2) ->
  replace_files s2 = (Ok tt, s3) ->
  exists previous bes,
    entry "config.ini" (cwd st) = Some (File previous)
    /\ bes !! "config_backup.ini" = Some (File previous)
    /\ logs_into log_file (handlers s3)
    /\ entry update_dir (cwd s3) = Some (Dir tree)
    /\ entry backup_dir (cwd s3) = Some (Dir bes)
    /\ (forall x, x <> log_file -> x <> backup_dir -> x <> update_dir ->
          (forall content, tree !! x <> Some (File content)) ->
          entry x (cwd s3) = entry x (cwd st))
    /\ entry "config.ini" (cwd s3) = entry "config.ini" (cwd st).
Proof.
  intros Hl Hb Hf Hr.
  destruct (tame_backup latest_version _ _ _ Hb) as [_ F1].
  destruct (F1 Hl) as [L1 F1'].
  destruct (backup_post _ _ _ Hl Hb) as (previous & bes & C0 & B1 & P1).
  destruct (tame_fetch _ _ _ _ Hf) as [_ F2]. destruct (F2 L1) as [L2 F2'].
  pose proof (fetch_post _ s1 s2 L1 (ex_intro _ _ B1) Hf) as U2. simpl in U2.
  assert (B2 : entry backup_dir (cwd s2) = Some (Dir bes)).
  { rewrite F2'; [exact B1|discriminate|discriminate]. }
  destruct (replace_files_post tree s2 s3 L2 U2 Hr) as (L3 & D3 & _).
  destruct (tame_replace_files_settings _ _ _ Hr) as [_ F3].
  destruct (F3 L2) as [_ F3'].
  exists previous, bes. split; [exact C0|]. split; [exact P1|].
  split; [exact L3|].
  split; [apply D3; [discriminate|exact U2]|].
  split; [apply D3; [discriminate|exact B2]|]. split.
  - intros x X1 X2 X3 Hn.
    rewrite (replace_files_frame tree x s2 s3 L2 U2 X1 Hn Hr).
    rewrite F2', F1'; auto.
  - rewrite F3'; [|discriminate|tauto].
    rewrite F2', F1'; auto; discriminate.
Qed.

(** X11: after an upgrade that succeeds, the settings the installation
    had are still there, byte for byte, in [config_backup.ini] of the
    backup directory, and the update directory is gone. *)
Theorem upgrade_keeps_the_previous_settings tree latest_version st st' :
  logs_into log_file (handlers st) ->
  upgrade_autocrew (Cloned tree) latest_version st
  = (Raise (SystemExit 0), st') ->
  exists previous,
    entry "config.ini" (cwd st) = Some (File previous)
    /\ node_lookup config_backup_path (cwd st') = Ok (File previous)
    /\ entry update_dir (cwd st') = None.
Proof.
  intros Hl H. unfold upgrade_autocrew in H.
  apply bind_exit in H as ([] & s1 & Hb & H);
    [|eapply tame_weaken; [|apply tame_backup]; auto].
  apply bind_exit in H as ([] & s2 & Hf & H);
    [|eapply tame_weaken; [|apply tame_fetch]; auto].
  apply bind_exit in H as ([] & s3 & Hr & H); [|apply tame_replace_files].
  apply bind_exit in H as ([] & s4 & Hu & H); [|apply tame_update_config].
  destruct (upgrade_replaced tree latest_version st s1 s2 s3 Hl Hb Hf Hr)
    as (previous & bes & C0 & P1 & L3 & U3 & B3 & _).
  destruct (update_config_post tree bes previous s3 s4 L3 U3 B3 P1 Hu)
    as (L4 & F4 & _).
  assert (U4 : entry update_dir (cwd s4) = Some (Dir tree))
    by (rewrite F4; [exact U3|discriminate|discriminate]).
  assert (B4 : entry backup_dir (cwd s4) = Some (Dir bes))
    by (rewrite F4; [exact B3|discriminate|discriminate]).
  destruct (finish_post latest_version tree s4 _ st' L4 U4 H) as (_ & U5 & F5).
  exists previous. split; [exact C0|]. split; [|exact U5].
  assert (B5 : entry backup_dir (cwd st') = Some (Dir bes))
    by (rewrite F5; [exact B4|discriminate|discriminate]).
  unfold config_backup_path. rewrite (node_lookup_cons _ _ _ _ B5). simpl.
  now rewrite P1.
Qed.

(** X12: an upgrade that succeeds installs regular files only: an entry
    of the working directory under whose name the fetched tree has no
    regular file (it has a directory there, or nothing) is left as it
    was, be it absent; the log file, [config.ini], the backup directory
    and the update directory apart. *)
Theorem upgrade_installs_regular_files_only
  tree latest_version st st' name :
  logs_into log_file (handlers st) ->
  upgrade_autocrew (Cloned tree) latest_version st
  = (Raise (SystemExit 0), st') ->
  name <> log_file -> name <> "config.ini" ->
  name <> backup_dir -> name <> update_dir ->
  (forall content, tree !! name <> Some (File content)) ->
  entry name (cwd st') = entry name (cwd st).
Proof.
  intros Hl H N1 N2 N3 N4 Hn. unfold upgrade_autocrew in H.
  apply bind_exit in H as ([] & s1 & Hb & H);
    [|eapply tame_weaken; [|apply tame_backup]; auto].
  apply bind_exit in H as ([] & s2 & Hf & H);
    [|eapply tame_weaken; [|apply tame_fetch]; auto].
  apply bind_exit in H as ([] & s3 & Hr & H); [|apply tame_replace_files].
  apply bind_exit in H as ([] & s4 & Hu & H); [|apply tame_update_config].
  destruct (upgrade_replaced tree latest_version st s1 s2 s3 Hl Hb Hf Hr)
    as (previous & bes & C0 & P1 & L3 & U3 & B3 & F3 & _).
  destruct (update_config_post tree bes previous s3 s4 L3 U3 B3 P1 Hu)
    as (L4 & F4 & _).
  destruct (confined_finish latest_version _ _ _ H L4) as [_ F5].
  rewrite F5, F4, F3; auto.
Qed.

(** X13: with the fetched tree in place, an upgrade that ends with an
    exception, in the backup, in the copies or in the merge of the
    settings, leaves [config.ini] as it was: the file is written by the
    last step that can fail. *)
Theorem failed_upgrade_keeps_the_settings
  tree latest_version st cls msg st' :
  logs_into log_file (handlers st) ->
  upgrade_autocrew (Cloned tree) latest_version st
  = (Raise (Exception cls msg), st') ->
  entry "config.ini" (cwd st') = entry "config.ini" (cwd st).
Proof.
  intros Hl H. unfold upgrade_autocrew in H. unfold bind at 1 in H.
  destruct (backup latest_version st) as [[[]|e] s1] eqn:Hb.
  2:{ injection H as _ <-.
      destruct (tame_backup latest_version _ _ _ Hb) as [_ F1].
      destruct (F1 Hl) as [_ F1']. apply F1'; discriminate. }
  destruct (tame_backup latest_version _ _ _ Hb) as [_ F1].
  destruct (F1 Hl) as [L1 F1'].
  unfold bind at 1 in H.
  destruct (fetch (Cloned tree) s1) as [[[]|e] s2] eqn:Hf.
  2:{ injection H as _ <-.
      destruct (tame_fetch (Cloned tree) _ _ _ Hf) as [_ F2].
      destruct (F2 L1) as [_ F2']. rewrite F2', F1'; auto; discriminate. }
  destruct (tame_fetch (Cloned tree) _ _ _ Hf) as [_ F2].
  destruct (F2 L1) as [L2 F2'].
  unfold bind at 1 in H.
  destruct (replace_files s2) as [[[]|e] s3] eqn:Hr.
  2:{ injection H as _ <-.
      destruct (tame_replace_files_settings _ _ _ Hr) as [_ F3].
      destruct (F3 L2) as [_ F3']. rewrite F3'; [|discriminate|tauto].
      rewrite F2', F1'; auto; discriminate. }
  destruct (upgrade_replaced tree latest_version st s1 s2 s3 Hl Hb Hf Hr)
    as (previous & bes & C0 & P1 & L3 & U3 & B3 & _ & C3).
  unfold bind at 1 in H.
  destruct (update_config s3) as [[[]|e] s4] eqn:Hu.
  - destruct (update_config_post tree bes previous s3 s4 L3 U3 B3 P1 Hu)
      as (L4 & F4 & _).
    assert (U4 : entry update_dir (cwd s4) = Some (Dir tree))
      by (rewrite F4; [exact U3|discriminate|discriminate]).
    destruct (finish_post latest_version tree s4 _ st' L4 U4 H) as (Hx & _).
    discriminate Hx.
  - injection H as _ <-. rewrite (update_config_failure s3 e s4 L3 Hu).
    exact C3.
Qed.

(** *** [check_latest_version] (lines 130-142) *)

Lemma string_app_inj (p a b : string) : p +:+ a = p +:+ b -> a = b.
Proof.
  induction p as [|c p IH]; [auto|].
  change (String c (p +:+ a) = String c (p +:+ b) -> a = b).
  intros H. injection H as H. auto.
Qed.

(** X14: the check announces an update exactly when the server answers
    with a status outside 400-599 and a JSON object whose [tag_name] is a
    text that reads as a version greater than the installed one; the tag
    shown in the sentence is that text. *)
Theorem update_is_announced_for_newer_releases_only r tag :
  check_latest_version r
  = Ok ("An updated version of AutoCrew is available: " +:+ tag)
  <-> exists status reason fields remote installed,
        r = Response status reason (JsonBody (JObject fields))
        /\ (400 <=? status)%Z && (status <? 600)%Z = false
        /\ field "tag_name" fields = Some (JString tag)
        /\ version.parse tag = Ok remote
        /\ version.parse AUTOCREW_VERSION = Ok installed
        /\ version.compare remote installed = Gt.
Proof.
  split.
  - unfold check_latest_version.
    destruct (fetch_latest_version r) as [m|[cls e|status]] eqn:Hf.
    + intros H. injection H as ->.
      unfold fetch_latest_version, raise in Hf.
      destruct r as [why|code reason b]; [discriminate|].
      destruct ((400 <=? code)%Z && (code <? 600)%Z) eqn:Hc; [discriminate|].
      cbn [result_bind] in Hf.
      destruct b as [why|j]; [discriminate|]. cbn [result_bind] in Hf.
      unfold subscript, raise in Hf.
      destruct j as [| | | |l|fields]; try discriminate.
      destruct (field "tag_name" fields) as [v|] eqn:Ht; [|discriminate].
      cbn [result_bind] in Hf.
      destruct v as [| | |s| |]; try discriminate.
      destruct (version.parse s) as [remote|] eqn:Hp; [|discriminate].
      cbn [result_bind] in Hf.
      destruct (version.parse AUTOCREW_VERSION) as [installed|] eqn:Hi;
        [|discriminate].
      cbn [result_bind] in Hf. unfold version.gt in Hf.
      destruct (version.compare remote installed) eqn:Hcmp;
        injection Hf as Hf;
        try (exfalso; vm_compute in Hf; discriminate Hf).
      apply string_app_inj in Hf. subst s.
      exists code, reason, fields, remote, installed. auto 10.
    + intros H. injection H as H. exfalso. vm_compute in H. discriminate H.
    + discriminate.
  - intros (status & reason & fields & remote & installed
            & -> & Hc & Ht & Hp & Hi & Hcmp).
    unfold check_latest_version, fetch_latest_version. rewrite Hc.
    cbn [result_bind]. unfold subscript. rewrite Ht. cbn [result_bind].
    rewrite Hp. cbn [result_bind]. rewrite Hi. cbn [result_bind].
    unfold version.gt. rewrite Hcmp. reflexivity.
Qed.

(** *** [positive_int] (lines 116-128) *)

Lemma ask_int_runs_out : forall pending fuel st,
  stdin st = pending ->
  Forall (fun l => pyint.int l = None) pending ->
  length pending < fuel ->
  exists st',
    ask_int fuel st
    = (Raise (Exception EOFError "EOF when reading a line"), st')
    /\ stdin st' = []
    /\ stdout st' = stdout st ++ List.map (fun _ => invalid_input) pending
    /\ cwd st' = cwd st.
Proof.
  induction pending as [|l pending IH]; intros fuel st Hin Hrej Hf.
  - destruct fuel as [|fuel]; [inversion Hf|].
    simpl. unfold bind, input. rewrite Hin. exists st.
    split; [reflexivity|]. split; [exact Hin|].
    split; [symmetry; apply app_nil_r|reflexivity].
  - destruct fuel as [|fuel]; [inversion Hf|]. simpl in Hf.
    inversion Hrej as [|? ? Hl Hrej']; subst.
    simpl. unfold bind at 1. unfold input. rewrite Hin, Hl.
    unfold bind at 1. unfold print, modify.
    destruct (IH fuel (write_stream Stdout invalid_input (with_stdin pending st)))
      as (st' & Hr & Hs & Ho & Hc); auto; [lia|].
    exists st'. split; [exact Hr|]. split; [exact Hs|]. split.
    + rewrite Ho. simpl. now rewrite <- app_assoc.
    + rewrite Hc. reflexivity.
Qed.

(** X15: when the value does not read as an integer and no line of
    standard input does either, [positive_int] asks once, answers every
    line with the complaint, and ends with the [EOFError] of [input()] when
    the input is used up; the working directory is not touched. *)
Theorem positive_int_runs_out_of_input value st :
  pyint.int value = None ->
  Forall (fun l => pyint.int l = None) (stdin st) ->
  exists st',
    positive_int value st
    = (Raise (Exception EOFError "EOF when reading a line"), st')
    /\ stdin st' = []
    /\ stdout st'
       = stdout st ++ prompt :: List.map (fun _ => invalid_input) (stdin st)
    /\ cwd st' = cwd st.
Proof.
  intros Hv Hrej. unfold positive_int. rewrite Hv. unfold bind, print, modify.
  set (st0 := write_stream Stdout _ st).
  destruct (ask_int_runs_out (stdin st) (S (length (stdin st0))) st0)
    as (st' & Hr & Hs & Ho & Hc); auto.
  exists st'. split; [exact Hr|]. split; [exact Hs|]. split.
  - rewrite Ho. subst st0. simpl. now rewrite <- app_assoc.
  - rewrite Hc. reflexivity.
Qed.

(** *** [initialize_logging]: the level of the console (lines 50-57) *)

(** X16: when [config.ini] gives [on_screen_logging_level] in the
    section [MISCELLANEOUS] and the value, in upper case, is the name of a
    logging level, the console handler gets that level, in whatever case
    the value is written; with [verbose] it gets [DEBUG] all the same. *)
Theorem console_level_follows_the_settings
  verbose message st es config v l :
  cwd st = Dir es ->
  (forall sub, es !! log_file <> Some (Dir sub)) ->
  fst (config_read [config_file] st) = Ok config ->
  has_option config "MISCELLANEOUS" "on_screen_logging_level" = true ->
  get config "MISCELLANEOUS" "on_screen_logging_level" = Ok v ->
  dict_get (Str.upper v) logging.name_to_level = Some l ->
  exists st',
    initialize_logging verbose message st = (Ok tt, st')
    /\ handlers st'
       = [file_handler;
          console_handler (if verbose then logging.DEBUG else l)].
Proof.
  intros Hcwd Hlog Hcfg Ho Hg Hl.
  destruct (initialize_logging_spec verbose message st es config
              (if verbose then logging.DEBUG else l) Hcwd Hlog Hcfg)
    as (st' & H1 & H2 & _); [|eauto].
  unfold console_level. destruct verbose; [reflexivity|].
  cbn [negb andb]. rewrite Ho, Hg. cbn [result_bind].
  unfold logging.getattr. rewrite Hl. reflexivity.
Qed.

(** X17: without a [config.ini] in the working directory logging is set
    up all the same, with the console handler at [INFO], or at [DEBUG]
    when [verbose] is set. *)
Theorem missing_settings_give_an_info_console verbose message st es :
  cwd st = Dir es ->
  es !! config_file = None ->
  (forall sub, es !! log_file <> Some (Dir sub)) ->
  exists st',
    initialize_logging verbose message st = (Ok tt, st')
    /\ handlers st'
       = [file_handler;
          console_handler (if verbose then logging.DEBUG else logging.INFO)].
Proof.
  intros Hcwd Hnone Hlog.
  destruct (initialize_logging_spec verbose message st es configparser.empty
              (if verbose then logging.DEBUG else logging.INFO) Hcwd Hlog)
    as (st' & H1 & H2 & _); [| |eauto].
  - unfold config_read. rewrite Hcwd. simpl. now rewrite Hnone.
  - destruct verbose; reflexivity.
Qed.

(** *** [install_dependencies] (lines 88-108) *)

(** A logging call in a state with the two handlers of
    [initialize_logging]: what the console gets. *)
Lemma log_console lvl l msg st :
  handlers st = [file_handler; console_handler lvl] ->
  root_level st = logging.DEBUG ->
  logging.DEBUG <= l ->
  exists st',
    log l msg None st = (Ok tt, st')
    /\ handlers st' = handlers st
    /\ root_level st' = root_level st
    /\ stdout st' = stdout st ++ shown lvl l msg.
Proof.
  intros Hh Hr Hl.
  assert (Hleb : Nat.leb logging.DEBUG l = true) by now apply Nat.leb_le.
  unfold log, modify. eexists. split; [reflexivity|].
  assert (Hb : basicConfig st = st) by (unfold basicConfig; now rewrite Hh).
  rewrite Hb. cbv zeta. rewrite Hr, Hleb, Hh. cbn [fold_left].
  unfold emit. cbn [level file_handler console_handler target formatter].
  rewrite Hleb. unfold shown.
  destruct (Nat.leb lvl l); simpl; rewrite ?Hh, ?Hr, ?app_nil_r; auto.
Qed.

(** X18: [install_dependencies] neither logs nor runs anything when
    [requirements.txt] is missing, or when neither [pip] nor [pip3] is
    found: it gives its error, and the state is as it was. *)
Theorem install_is_not_attempted_without_its_means which pip st :
  entry "requirements.txt" (cwd st) = None
  \/ (found (which "pip") = false /\ found (which "pip3") = false) ->
  exists e,
    install_dependencies which pip st = (Ok (inl e), st)
    /\ forall msg, e <> InstallFailed msg.
Proof.
  intros H. unfold install_dependencies. unfold bind at 1.
  rewrite path_exists_top.
  destruct (entry "requirements.txt" (cwd st)) as [m|] eqn:E.
  - destruct H as [H|[H1 H2]]; [discriminate|].
    cbn [negb]. cbv zeta. rewrite H1, H2. cbn [negb].
    eexists. split; [reflexivity|discriminate].
  - cbn [negb]. eexists. split; [reflexivity|discriminate].
Qed.

(** X19: once [requirements.txt] is there and a [pip] is found, the
    outcome follows the return code of the command: with a code other than
    0 the function gives [RuntimeError] after three error records, the
    second and the third with what the command wrote, and the sentence of
    success is not printed; with the code 0 it prints the sentence and
    returns.  The console shows the records its level lets through. *)
Theorem install_reports_what_pip_returns
  which returncode out err effect lvl st m :
  entry "requirements.txt" (cwd st) = Some m ->
  found (which "pip") || found (which "pip3") = true ->
  handlers st = [file_handler; console_handler lvl] ->
  root_level st = logging.DEBUG ->
  exists st',
    install_dependencies which (PipRan returncode out err effect) st
    = (Ok (if (returncode =? 0)%Z then inr tt
           else inl (InstallFailed "Failed to install dependencies.")),
       st')
    /\ stdout st'
       = stdout st
         ++ shown lvl logging.INFO "Installing dependencies..."
         ++ (if (returncode =? 0)%Z
             then [Line "Dependencies installed successfully."]
             else shown lvl logging.ERROR
                    "Error occurred while installing dependencies:"
                  ++ shown lvl logging.ERROR out
                  ++ shown lvl logging.ERROR err).
Proof.
  intros Hreq Hpip Hh Hr.
  assert (Hi : logging.DEBUG <= logging.INFO)
    by (unfold logging.DEBUG, logging.INFO; lia).
  assert (He : logging.DEBUG <= logging.ERROR)
    by (unfold logging.DEBUG, logging.ERROR; lia).
  unfold install_dependencies. unfold bind at 1.
  rewrite path_exists_top, Hreq. cbn [negb]. cbv zeta.
  assert (Hf : found (if found (which "pip") then which "pip"
                      else which "pip3") = true).
  { destruct (found (which "pip")) eqn:E; [exact E|exact Hpip]. }
  rewrite Hf. cbn [negb].
  destruct (log_console lvl logging.INFO "Installing dependencies..." st
              Hh Hr Hi) as (s1 & H1 & A1 & R1 & O1).
  unfold bind at 1. unfold logging_info at 1. rewrite H1.
  unfold bind at 1. unfold subprocess_run.
  set (s2 := with_cwd (effect (cwd s1)) s1).
  assert (A2 : handlers s2 = [file_handler; console_handler lvl])
    by (subst s2; simpl; congruence).
  assert (R2 : root_level s2 = logging.DEBUG) by (subst s2; simpl; congruence).
  assert (O2 : stdout s2 = stdout s1) by reflexivity.
  clearbody s2.
  destruct (returncode =? 0)%Z; cbn [negb].
  - unfold bind, print, modify, ret. eexists. split; [reflexivity|].
    simpl. rewrite O2, O1. now rewrite <- app_assoc.
  - destruct (log_console lvl logging.ERROR
                "Error occurred while installing dependencies:" s2 A2 R2 He)
      as (s3 & H3 & A3 & R3 & O3).
    unfold bind at 1. unfold logging_error at 1. rewrite H3.
    destruct (log_console lvl logging.ERROR out s3
                (eq_trans A3 A2) (eq_trans R3 R2) He)
      as (s4 & H4 & A4 & R4 & O4).
    unfold bind at 1. unfold logging_error at 1. rewrite H4.
    destruct (log_console lvl logging.ERROR err s4
                (eq_trans A4 (eq_trans A3 A2)) (eq_trans R4 (eq_trans R3 R2))
                He)
      as (s5 & H5 & A5 & R5 & O5).
    unfold bind at 1. unfold logging_error at 1. rewrite H5.
    unfold ret. eexists. split; [reflexivity|].
    rewrite O5, O4, O3, O2, O1. now rewrite <- !app_assoc.
Qed.

(** *** [handle_exception] (lines 110-114) *)

(** A logging call in a state with the two handlers of
    [initialize_logging], in full. *)
Lemma log_full lvl l msg exc st :
  handlers st = [file_handler; console_handler lvl] ->
  root_level st = logging.DEBUG ->
  logging.DEBUG <= l ->
  exists st',
    log l msg exc st = (Ok tt, st')
    /\ cwd st'
       = append_file log_file
           (record_text FileFormat l msg exc +:+ newline) (cwd st)
    /\ stdout st'
       = stdout st ++ shown lvl l (record_text MessageFormat l msg exc)
    /\ stderr st' = stderr st
    /\ stdin st' = stdin st
    /\ handlers st' = handlers st
    /\ root_level st' = root_level st
    /\ excepthook st' = excepthook st.
Proof.
  intros Hh Hr Hl.
  assert (Hleb : Nat.leb logging.DEBUG l = true) by now apply Nat.leb_le.
  unfold log, modify. eexists. split; [reflexivity|].
  assert (Hb : basicConfig st = st) by (unfold basicConfig; now rewrite Hh).
  rewrite Hb. cbv zeta. rewrite Hr, Hleb, Hh. cbn [fold_left].
  unfold emit. cbn [level file_handler console_handler target formatter].
  rewrite Hleb. unfold shown.
  destruct (Nat.leb lvl l); simpl; rewrite ?Hh, ?Hr, ?app_nil_r; auto 10.
Qed.

(** X20: once logging is set up, the hook of line 214 records an
    exception that escapes [main] as one [ERROR] record, [Uncaught
    exception] followed by the traceback, at the end of the log file and,
    the console level permitting, on standard output; nothing goes to
    standard error, and no other entry of the working directory is
    touched. *)
Theorem hook_records_the_exception cls msg lvl old st :
  handlers st = [file_handler; console_handler lvl] ->
  root_level st = logging.DEBUG ->
  entry log_file (cwd st) = Some (File old) ->
  exists st',
    handle_exception (Exception cls msg) st = (Ok tt, st')
    /\ entry log_file (cwd st')
       = Some (File (old +:+ uncaught (Exception cls msg)))
    /\ stdout st'
       = stdout st
         ++ shown lvl logging.ERROR
              ("Uncaught exception" +:+ newline
               +:+ traceback_text (Exception cls msg))
    /\ stderr st' = stderr st
    /\ forall name, name <> log_file ->
         entry name (cwd st') = entry name (cwd st).
Proof.
  intros Hh Hr He. unfold handle_exception.
  destruct (log_full lvl logging.ERROR "Uncaught exception"
              (Some (Exception cls msg)) st Hh Hr)
    as (st' & H1 & C1 & O1 & E1 & _).
  { unfold logging.DEBUG, logging.ERROR. lia. }
  exists st'. split; [exact H1|]. rewrite C1. unfold append_file. rewrite He.
  destruct (entry_dir _ _ _ He) as [es Hes]. rewrite Hes.
  split; [apply entry_set_entry_eq|]. split; [exact O1|]. split; [exact E1|].
  intros name Hn. now apply entry_set_entry_ne.
Qed.

(** *** [positive_int], what it leaves alone *)

Lemma ask_int_frame : forall fuel st r st',
  ask_int fuel st = (r, st') ->
  cwd st' = cwd st /\ handlers st' = handlers st /\ stderr st' = stderr st.
Proof.
  induction fuel as [|fuel IH]; intros st r st' H; simpl in H.
  - injection H as _ <-. auto.
  - unfold bind at 1 in H. unfold input in H.
    destruct (stdin st) as [|l rest]; [injection H as _ <-; auto|].
    destruct (pyint.int l); [injection H as _ <-; auto|].
    unfold bind, print, modify in H.
    destruct (IH _ _ _ H) as (A & B & C). rewrite A, B, C. auto.
Qed.

(** X21: whatever the value and whatever is typed, [positive_int]
    writes to standard output only: the working directory, the handlers of
    the logger and standard error are as they were. *)
Theorem positive_int_touches_no_file value st :
  cwd (snd (positive_int value st)) = cwd st
  /\ handlers (snd (positive_int value st)) = handlers st
  /\ stderr (snd (positive_int value st)) = stderr st.
Proof.
  unfold positive_int. destruct (pyint.int value) as [i|].
  - destruct (i <=? 0)%Z; auto.
  - unfold bind, print, modify.
    match goal with
    | |- context [ask_int ?f ?s] =>
        destruct (ask_int f s) as [r st'] eqn:E;
        destruct (ask_int_frame _ _ _ _ E) as (A & B & C)
    end.
    cbn [snd]. rewrite A, B, C. auto.
Qed.

(** *** [positive_int] on decimal numerals *)

Lemma rev_onto_rev_onto (s a b : string) :
  Str.rev_onto (Str.rev_onto s a) b = Str.rev_onto a (s +:+ b).
Proof.
  revert a. induction s as [|c s IH]; intros a; [reflexivity|].
  simpl. rewrite IH. reflexivity.
Qed.

Lemma rev_rev (s : string) : Str.rev (Str.rev s) = s.
Proof.
  unfold Str.rev. rewrite rev_onto_rev_onto. simpl. apply string_app_nil_r.
Qed.

Lemma drop_space_digits d :
  Str.drop_while pyint.is_c_space (DecimalString.NilEmpty.string_of_uint d)
  = DecimalString.NilEmpty.string_of_uint d.
Proof. destruct d; reflexivity. Qed.

Lemma drop_space_rev_digits d : forall acc,
  Str.drop_while pyint.is_c_space acc = acc ->
  Str.drop_while pyint.is_c_space
    (Str.rev_onto (DecimalString.NilEmpty.string_of_uint d) acc)
  = Str.rev_onto (DecimalString.NilEmpty.string_of_uint d) acc.
Proof.
  induction d; intros acc Hacc; simpl; [exact Hacc|..]; apply IHd; reflexivity.
Qed.

(** A text of digits has nothing to strip. *)
Lemma strip_digits d :
  pyint.strip (DecimalString.NilEmpty.string_of_uint d)
  = DecimalString.NilEmpty.string_of_uint d.
Proof.
  unfold pyint.strip. rewrite drop_space_digits. unfold Str.rev at 2.
  rewrite drop_space_rev_digits; [|reflexivity].
  fold (Str.rev (DecimalString.NilEmpty.string_of_uint d)). apply rev_rev.
Qed.

Lemma digits_uint d : forall after_digit acc,
  pyint.digits (DecimalString.NilEmpty.string_of_uint d) after_digit acc
  = match d with
    | Decimal.Nil => if after_digit then Some acc else None
    | _ => Some (uint_value d acc)
    end.
Proof.
  induction d; intros after_digit acc; [reflexivity|..];
    cbn [DecimalString.NilEmpty.string_of_uint pyint.digits uint_value];
    (match goal with
     | |- context [Str.is_digit ?c] =>
         change (Str.is_digit c) with true; cbv iota
     end);
    rewrite IHd; destruct d; reflexivity.
Qed.

Lemma uint_value_pos d : forall p,
  uint_value d (N.pos p) = N.pos (Pos.of_uint_acc d p).
Proof.
  induction d; intros p; [reflexivity|..];
    cbn [uint_value Pos.of_uint_acc]; rewrite <- IHd; f_equal; lia.
Qed.

Lemma uint_value_zero d : uint_value d 0 = Pos.of_uint d.
Proof.
  induction d; [reflexivity|exact IHd|..];
    cbn [uint_value Pos.of_uint]; apply uint_value_pos.
Qed.

Lemma count_digits_uint d :
  pyint.count_digits (DecimalString.NilEmpty.string_of_uint d)
  = N.of_nat (String.length (DecimalString.NilEmpty.string_of_uint d)).
Proof.
  induction d; [reflexivity|..];
    cbn [DecimalString.NilEmpty.string_of_uint pyint.count_digits
         String.length];
    (match goal with
     | |- context [Str.is_digit ?c] => change (Str.is_digit c) with true
     end);
    rewrite IHd; lia.
Qed.

(** [int(str(n)) == n] for a positive [n] whose numeral is within the limit
    of [int()]. *)
Lemma int_decimal p :
  (N.of_nat (String.length (decimal p)) <= pyint.max_str_digits)%N ->
  pyint.int (decimal p) = Some (Z.pos p).
Proof.
  unfold decimal, pyint.int. intros Hlen. rewrite strip_digits.
  pose proof (DecimalPos.Unsigned.to_uint_nonnil p) as Hn.
  pose proof (DecimalPos.Unsigned.of_to p) as Hv.
  pose proof (digits_uint (Pos.to_uint p) false 0%N) as Hd.
  rewrite uint_value_zero, Hv in Hd.
  assert (Hm : pyint.magnitude
                 (DecimalString.NilEmpty.string_of_uint (Pos.to_uint p))
               = Some (N.pos p)).
  { unfold pyint.magnitude. rewrite count_digits_uint.
    apply N.ltb_ge in Hlen. rewrite Hlen.
    destruct (Pos.to_uint p); [now destruct Hn|..]; exact Hd. }
  destruct (Pos.to_uint p); [now destruct Hn|..];
    cbn [DecimalString.NilEmpty.string_of_uint] in *;
    cbv iota beta; rewrite Hm; reflexivity.
Qed.

(** X22: for every positive integer whose decimal numeral, as [str()]
    writes it, has no more than 4300 digits, the limit of [int()],
    [positive_int] takes the numeral for the integer: it returns the number
    and neither asks nor prints anything. *)
Theorem positive_int_reads_decimal_numerals p st :
  (N.of_nat (String.length (decimal p)) <= pyint.max_str_digits)%N ->
  positive_int (decimal p) st = (Ok (Z.pos p), st).
Proof.
  intros Hlen. unfold positive_int. rewrite (int_decimal p Hlen). reflexivity.
Qed.

(** *** How [upgrade_autocrew] ends *)

Lemma finish_ends latest_version st r st' :
  finish latest_version st = (r, st') ->
  r = Raise (SystemExit 0) \/ exists cls msg, r = Raise (Exception cls msg).
Proof.
  unfold finish. unfold bind at 1. unfold rmtree.
  destruct (entry update_dir (cwd st)) as [[c|es]|].
  - intros H. injection H as <- _. unfold raise. eauto.
  - unfold bind, logging_info, log, modify, print, sys_exit.
    intros H. injection H as <- _. now left.
  - intros H. injection H as <- _. unfold raise. eauto.
Qed.

(** X23: [upgrade_autocrew] never returns to its caller: it ends the
    process with status 0, at line 192, or it raises an exception; no
    other exit status comes out of it. *)
Theorem upgrade_exits_or_raises clone latest_version st :
  fst (upgrade_autocrew clone latest_version st) = Raise (SystemExit 0)
  \/ exists cls msg,
       fst (upgrade_autocrew clone latest_version st)
       = Raise (Exception cls msg).
Proof.
  destruct (upgrade_autocrew clone latest_version st) as [r st'] eqn:H.
  cbn [fst]. revert H.
  assert (Hstep : forall (m : M unit) (k : M unit) s r' s',
            tame (fun _ => True) m ->
            (forall s1 r1 s2, k s1 = (r1, s2) ->
               r1 = Raise (SystemExit 0)
               \/ exists cls msg, r1 = Raise (Exception cls msg)) ->
            bind m (fun _ => k) s = (r', s') ->
            r' = Raise (SystemExit 0)
            \/ exists cls msg, r' = Raise (Exception cls msg)).
  { intros m k s r' s' Hm Hk H. unfold bind in H.
    destruct (m s) as [[a|[cls msg|status]] s1] eqn:E.
    - eauto.
    - injection H as <- _. eauto.
    - destruct (Hm _ _ _ E) as [Hn _]. now destruct (Hn status). }
  unfold upgrade_autocrew.
  apply Hstep; [eapply tame_weaken; [|apply tame_backup]; auto|].
  intros s1 r1 s2.
  apply Hstep; [eapply tame_weaken; [|apply tame_fetch]; auto|].
  intros s3 r3 s4. apply Hstep; [apply tame_replace_files|].
  intros s5 r5 s6. apply Hstep; [apply tame_update_config|].
  intros s7 r7 s8. apply finish_ends.
Qed.

(** *** The sections of the merged document *)

Lemma has_section_set cfg s k v cfg' s0 :
  is_default s = false ->
  set cfg s k v = Ok cfg' -> has_section cfg' s0 = has_section cfg s0.
Proof.
  intros Hs H.
  destruct (section_of_set _ _ _ _ _ Hs H) as (Hother & d & Hd & Hd').
  unfold has_section, dict_has. unfold section_of in *.
  destruct (String.eqb s0 s) eqn:E.
  - apply String.eqb_eq in E. subst. now rewrite Hd, Hd'.
  - apply String.eqb_neq in E. now rewrite Hother.
Qed.

Lemma merge_section_sections o cfg s1 cfg' s :
  is_default s1 = false ->
  merge_section o cfg s1 = Ok cfg' ->
  has_section cfg' s = true <-> has_section cfg s = true \/ s = s1.
Proof.
  intros Hs. unfold merge_section.
  destruct (if has_section cfg s1 then Ok cfg else add_section cfg s1)
    as [cfg0|e] eqn:H0; [|discriminate]. simpl.
  destruct (items o s1) as [settings|e]; [|discriminate]. simpl.
  intros Hall.
  assert (H1 : has_section cfg' s = has_section cfg0 s).
  { clear H0. revert cfg0 Hall.
    induction settings as [|[k v] settings IH]; intros cfg0; simpl.
    - intros H. now injection H as <-.
    - destruct (set cfg0 s1 k v) as [cfg1|e] eqn:Hset; [|discriminate]. simpl.
      intros H. rewrite (IH _ H). eapply has_section_set; eauto. }
  rewrite H1. clear H1 Hall.
  destruct (has_section cfg s1) eqn:Hhas.
  - injection H0 as <-. split; [auto|]. intros [H| ->]; auto.
  - unfold add_section in H0.
    destruct (String.eqb s1 default_section); [discriminate|].
    rewrite Hhas in H0. injection H0 as <-.
    unfold has_section, dict_has. simpl.
    destruct (String.eqb s s1) eqn:E.
    + apply String.eqb_eq in E. subst s. rewrite dict_get_set_eq.
      split; auto.
    + apply String.eqb_neq in E. rewrite dict_get_set_ne; [|congruence].
      split; [auto|]. intros [H|H]; [exact H|contradiction].
Qed.

(** X24: the merged document has the sections of the fetched document
    and those of the previous one, and no other; its [DEFAULT] section is
    the fetched one, untouched. *)
Theorem merged_sections_are_the_union base overrides merged s :
  well_formed overrides ->
  merge base overrides = Ok merged ->
  (has_section merged s = true
   <-> has_section base s = true \/ In s (sections overrides))
  /\ defaults merged = defaults base.
Proof.
  intros Hwf Hm. split; [|exact (proj1 (merge_keeps_base _ _ _ Hwf Hm))].
  unfold merge in Hm.
  assert (Hl : forall s, In s (sections overrides) -> is_default s = false)
    by (intros s'; now apply well_formed_sections).
  revert base Hm Hl. generalize (sections overrides) as l.
  induction l as [|s1 l IH]; intros base Hm Hl; simpl in Hm.
  - injection Hm as <-. simpl. split; [auto|]. intros [H|[]]. exact H.
  - destruct (merge_section overrides base s1) as [cfg1|e] eqn:H1;
      [|discriminate]. simpl in Hm.
    rewrite (IH cfg1 Hm (fun s' Hs' => Hl s' (or_intror Hs'))).
    rewrite (merge_section_sections overrides base s1 cfg1 s
               (Hl s1 (or_introl eq_refl)) H1).
    simpl. split.
    + intros [[H|H]|H]; auto.
    + intros [H|[H|H]]; auto.
Qed.

(** *** The version check on tags of the form [a.b.c] *)

Lemma app_cons c (a b : string) : String c a +:+ b = String c (a +:+ b).
Proof. reflexivity. Qed.

Lemma digit_facts c :
  Str.is_digit c = true ->
  Str.is_space c = false /\ Ascii.eqb c "v" = false.
Proof.
  destruct c as [[] [] [] [] [] [] [] []]; intros H;
    try discriminate H; split; reflexivity.
Qed.

Lemma take_digits d rest :
  (forall c r, rest = String c r -> Str.is_digit c = false) ->
  Str.take_while Str.is_digit
    (DecimalString.NilEmpty.string_of_uint d +:+ rest)
  = (DecimalString.NilEmpty.string_of_uint d, rest).
Proof.
  intros Hrest. induction d;
    cbn [DecimalString.NilEmpty.string_of_uint];
    [|rewrite app_cons; cbn [Str.take_while];
      (match goal with
       | |- context [Str.is_digit ?c] =>
           change (Str.is_digit c) with true; cbv iota
       end);
      rewrite IHd; reflexivity..].
  change ("" +:+ rest) with rest. destruct rest as [|c r]; [reflexivity|].
  cbn [Str.take_while]. now rewrite (Hrest c r eq_refl).
Qed.

Lemma digits_value_uint d : forall acc,
  Str.digits_value (DecimalString.NilEmpty.string_of_uint d) acc
  = uint_value d acc.
Proof.
  induction d; intros acc; [reflexivity|..];
    cbn [DecimalString.NilEmpty.string_of_uint Str.digits_value uint_value];
    rewrite IHd; reflexivity.
Qed.

Lemma to_uint_nonnil n : N.to_uint n <> Decimal.Nil.
Proof.
  destruct n; [discriminate|]. apply DecimalPos.Unsigned.to_uint_nonnil.
Qed.

Lemma numeral_head n :
  exists c s, numeral n = String c s /\ Str.is_digit c = true.
Proof.
  unfold numeral. pose proof (to_uint_nonnil n) as Hn.
  destruct (N.to_uint n); [now destruct Hn|..];
    cbn [DecimalString.NilEmpty.string_of_uint]; eauto.
Qed.

(** The parser of numbers reads a numeral back. *)
Lemma number_numeral n rest :
  (forall c r, rest = String c r -> Str.is_digit c = false) ->
  version.number (numeral n +:+ rest) = Some (n, rest).
Proof.
  intros Hrest. unfold version.number, numeral.
  rewrite (take_digits _ _ Hrest).
  pose proof (digits_value_uint (N.to_uint n) 0%N) as Hv.
  rewrite uint_value_zero in Hv.
  change (Pos.of_uint (N.to_uint n)) with (N.of_uint (N.to_uint n)) in Hv.
  rewrite DecimalN.Unsigned.of_to in Hv.
  destruct (numeral_head n) as (c & s & Hs & _). unfold numeral in Hs.
  rewrite Hs in *. now rewrite Hv.
Qed.

Lemma map_app f (a b : string) :
  Str.map f (a +:+ b) = Str.map f a +:+ Str.map f b.
Proof.
  induction a as [|x a IH]; [reflexivity|].
  rewrite app_cons. cbn [Str.map]. rewrite app_cons. now rewrite IH.
Qed.

Lemma lower_numeral n : Str.lower (numeral n) = numeral n.
Proof.
  unfold numeral, Str.lower. induction (N.to_uint n); [reflexivity|..];
    cbn [DecimalString.NilEmpty.string_of_uint Str.map]; rewrite IHu;
    reflexivity.
Qed.

Lemma lower_release_tag prefixed a b c :
  Str.lower (release_tag prefixed a b c) = release_tag prefixed a b c.
Proof.
  unfold release_tag, Str.lower. rewrite !map_app.
  fold (Str.lower (numeral a)) (Str.lower (numeral b)) (Str.lower (numeral c)).
  rewrite !lower_numeral. now destruct prefixed.
Qed.

Lemma not_a_digit_dot c r (rest : string) :
  "." +:+ rest = String c r -> Str.is_digit c = false.
Proof. intros H. injection H as <- _. reflexivity. Qed.

Lemma release_tail_two fuel b c :
  version.release_tail (S (S fuel)) ("." +:+ numeral b +:+ "." +:+ numeral c)
  = ([b; c], "").
Proof.
  rewrite app_cons. change ("" +:+ ?x) with x.
  cbn [version.release_tail].
  rewrite (number_numeral b ("." +:+ numeral c));
    [|intros x r; apply not_a_digit_dot].
  rewrite app_cons. change ("" +:+ numeral c) with (numeral c).
  rewrite <- (string_app_nil_r (numeral c)) at 1.
  rewrite (number_numeral c ""); [|discriminate].
  destruct fuel; reflexivity.
Qed.

(** The text [a.b.c], with or without a leading [v], reads as the version
    with the release numbers [a], [b], [c] and nothing else. *)
Lemma match_release_tag prefixed a b c :
  version.match_version (release_tag prefixed a b c)
  = Some {| version.epoch := 0; version.release := [a; b; c];
            version.pre := None; version.post := None;
            version.dev := None; version.local := None |}.
Proof.
  unfold version.match_version. rewrite lower_release_tag. cbv zeta.
  destruct (numeral_head a) as (ca & sa & Ha & Da).
  destruct (numeral_head b) as (cb & sb & Hb & Db).
  destruct (digit_facts ca Da) as [Sa Va].
  set (body := numeral a +:+ "." +:+ numeral b +:+ "." +:+ numeral c).
  assert (Hdrop : Str.drop_while Str.is_space (release_tag prefixed a b c)
                  = release_tag prefixed a b c).
  { unfold release_tag. destruct prefixed; [reflexivity|].
    change ("" +:+ ?x) with x. rewrite Ha, app_cons.
    cbn [Str.drop_while]. now rewrite Sa. }
  rewrite Hdrop. clear Hdrop.
  assert (Hv : match release_tag prefixed a b c with
               | String "v" r => r
               | _ => release_tag prefixed a b c
               end = body).
  { unfold release_tag. fold body. destruct prefixed; [reflexivity|].
    change ("" +:+ body) with body. subst body. rewrite Ha, app_cons.
    destruct ca as [[] [] [] [] [] [] [] []]; try reflexivity;
      discriminate Va. }
  rewrite Hv. clear Hv.
  assert (Hnum : version.number body
                 = Some (a, "." +:+ numeral b +:+ "." +:+ numeral c)).
  { subst body. apply number_numeral. intros x r. apply not_a_digit_dot. }
  unfold version.epoch_seg. rewrite Hnum. rewrite app_cons.
  change ("" +:+ ?x) with x. cbv iota beta.
  unfold version.release_seg. rewrite Hnum.
  assert (Hlen : exists fuel,
            String.length ("." +:+ numeral b +:+ "." +:+ numeral c)
            = S (S fuel)).
  { rewrite Hb. eexists. reflexivity. }
  destruct Hlen as [fuel ->]. rewrite release_tail_two. reflexivity.
Qed.

Lemma gt_release a b c :
  version.gt
    {| version.epoch := 0; version.release := [a; b; c];
       version.pre := None; version.post := None;
       version.dev := None; version.local := None |}
    {| version.epoch := 0; version.release := [2; 1; 4]%N;
       version.pre := None; version.post := None;
       version.dev := None; version.local := None |}
  = newer_than_installed a b c.
Proof.
  unfold version.gt, version.compare, newer_than_installed.
  cbn [version.epoch version.release version.key_pre version.key_post
       version.key_dev version.key_local version.pre version.post
       version.dev version.local version.compare_bounded].
  change (0 ?= 0)%N with Eq.
  change (version.strip_zeros [2; 1; 4]%N) with [2; 1; 4]%N.
  cbn [version.strip_zeros version.lex].
  destruct (N.eqb_spec c 0) as [Hc|Hc];
    destruct (N.eqb_spec b 0) as [Hb|Hb];
    destruct (N.eqb_spec a 0) as [Ha|Ha];
    cbn [version.compare_release version.lex];
    repeat match goal with
           | |- context [(?x ?= ?y)%N] =>
               let E := fresh "E" in
               destruct (x ?= y)%N eqn:E;
               [assert (x = y) by (now apply N.compare_eq_iff)
               |assert (x < y)%N by (now apply N.compare_lt_iff)
               |assert (y < x)%N by (now apply N.compare_gt_iff)];
               cbn [version.lex]
           end;
    repeat match goal with
           | |- context [(?x <? ?y)%N] => destruct (N.ltb_spec x y)
           | |- context [(?x =? ?y)%N] => destruct (N.eqb_spec x y)
           end;
    try reflexivity; lia.
Qed.

Lemma numerals_uint d rest : forall run,
  version.numerals (DecimalString.NilEmpty.string_of_uint d +:+ rest) run
  = version.numerals rest
      (run + N.of_nat (String.length
                         (DecimalString.NilEmpty.string_of_uint d)))%N.
Proof.
  induction d; intros run;
    cbn [DecimalString.NilEmpty.string_of_uint String.length];
    [change ("" +:+ rest) with rest; f_equal; lia|..];
    rewrite app_cons; cbn [version.numerals];
    (match goal with
     | |- context [Ascii.eqb ?c "+"] =>
         change (Ascii.eqb c "+") with false;
         change (Str.is_digit c) with true; cbv iota
     end);
    rewrite IHd; f_equal; lia.
Qed.

Lemma find_flush n l :
  (n <= pyint.max_str_digits)%N ->
  find (fun n => (pyint.max_str_digits <? n)%N) (version.flush n ++ l)
  = find (fun n => (pyint.max_str_digits <? n)%N) l.
Proof.
  intros Hn. unfold version.flush. destruct (n =? 0)%N; [reflexivity|].
  cbn [app find]. apply N.ltb_ge in Hn. now rewrite Hn.
Qed.

(** The numerals of [a.b.c] are its three components. *)
Lemma numerals_release_tag prefixed a b c :
  version.numerals (release_tag prefixed a b c) 0%N
  = version.flush (digits_of a)
    ++ version.flush (digits_of b) ++ version.flush (digits_of c).
Proof.
  assert (H : version.numerals
                (numeral a +:+ "." +:+ numeral b +:+ "." +:+ numeral c) 0%N
              = version.flush (digits_of a)
                ++ version.flush (digits_of b)
                ++ version.flush (digits_of c)).
  { unfold numeral, digits_of. rewrite numerals_uint.
    rewrite app_cons. change ("" +:+ ?x) with x. cbn [version.numerals].
    change (Ascii.eqb "." "+") with false.
    change (Str.is_digit ".") with false. cbv iota.
    rewrite numerals_uint.
    rewrite app_cons. change ("" +:+ ?x) with x. cbn [version.numerals].
    change (Ascii.eqb "." "+") with false.
    change (Str.is_digit ".") with false. cbv iota.
    rewrite <- (string_app_nil_r
                  (DecimalString.NilEmpty.string_of_uint (N.to_uint c))) at 1.
    rewrite numerals_uint. cbn [version.numerals].
    now rewrite !N.add_0_l. }
  unfold release_tag. destruct prefixed; [|exact H].
  rewrite app_cons. change ("" +:+ ?x) with x. cbn [version.numerals].
  change (Ascii.eqb "v" "+") with false.
  change (Str.is_digit "v") with false. cbv iota. exact H.
Qed.

(** X25: for a release tag of the form [a.b.c], with or without a
    leading [v], whose three numerals have no more than 4300 digits each,
    the limit of [int()], the check announces an update exactly when the
    triple [(a, b, c)] is greater than [(2, 1, 4)], and shows the tag as
    the server gave it; for every other such tag it reports that the
    latest version is running. *)
Theorem newer_releases_are_announced prefixed a b c :
  (digits_of a <= pyint.max_str_digits)%N ->
  (digits_of b <= pyint.max_str_digits)%N ->
  (digits_of c <= pyint.max_str_digits)%N ->
  check_latest_version (release_descriptor (release_tag prefixed a b c))
  = Ok (if newer_than_installed a b c
        then "An updated version of AutoCrew is available: "
             +:+ release_tag prefixed a b c
        else "You are running the latest version of AutoCrew.").
Proof.
  intros Ha Hb Hc.
  unfold check_latest_version, fetch_latest_version, release_descriptor.
  cbn [result_bind Z.leb Z.ltb Z.compare andb Pos.compare Pos.compare_cont].
  unfold subscript. cbn [field]. cbn [String.eqb Ascii.eqb Bool.eqb].
  cbn [result_bind]. unfold version.parse at 1.
  rewrite match_release_tag, numerals_release_tag.
  rewrite !find_flush by assumption.
  rewrite <- (app_nil_r (version.flush (digits_of c))).
  rewrite find_flush by assumption. cbn [find result_bind].
  change (version.parse AUTOCREW_VERSION)
    with (Ok {| version.epoch := 0%N; version.release := [2; 1; 4]%N;
                version.pre := None; version.post := None;
                version.dev := None; version.local := None |}).
  cbn [result_bind]. rewrite gt_release.
  now destruct (newer_than_installed a b c).
Qed.

End Script.

(** ** The claims on concrete runs *)

(** C1: [--upgrade] while the remote release is the installed one.  The
    check compares the two versions as equal and answers "You are running
    the latest version"; [main] then parses that sentence as a version
    number (line 232), [InvalidVersion] is raised and not caught, and the
    process ends with status 1 without the "No new version" report. *)
Theorem upgrade_with_installed_version_fails :
  (exists v, version.parse "2.1.4" = Ok v
             /\ version.parse AUTOCREW_VERSION = Ok v
             /\ version.compare v v = Eq)
  /\ check_latest_version up_to_date
     = Ok "You are running the latest version of AutoCrew."
  /\ (exists what,
        version.parse "You are running the latest version of AutoCrew."
        = Raise (Exception InvalidVersion what))
  /\ fst (run plain_format short_traceback ini.read ini.write
            ["--upgrade"] (flags true false None) [] up_to_date CloneFailed
            installation []) = Exits 1
  /\ ~ In (Line no_new_version)
         (stdout (snd (run plain_format short_traceback ini.read ini.write
                         ["--upgrade"] (flags true false None) [] up_to_date
                         CloneFailed installation []))).
Proof.
  split; [eexists; repeat split; reflexivity|].
  split; [reflexivity|]. split; [eexists; reflexivity|].
  split; [vm_compute; reflexivity|].
  vm_compute. intuition discriminate.
Qed.

(** C2 as stated fails: with an unrecognized argument the process exits
    with status 1 only after logging has truncated and rewritten
    [autocrew.log]; and with a recognized argument, here a goal next to
    [--help], no conflict is detected and the status is 0. *)
Lemma usage_conflict_claim_counterexample :
  ~ usage_conflict_claim plain_format short_traceback ini.read ini.write
      ["--upgrade"; "--bogus"] (flags true false None) ["--bogus"] installation
  /\ ~ usage_conflict_claim plain_format short_traceback ini.read ini.write
         ["--help"; "build a site"] (flags false true (Some "build a site"))
         [] installation.
Proof.
  split.
  - intros [_ H]. apply (f_equal (entry log_file)) in H.
    vm_compute in H. discriminate H.
  - intros [H _]. vm_compute in H. discriminate H.
Qed.

(** C3: a clone that fails once the update directory is there.  Line 166
    drops the return code of [git], so the upgrade goes on with what the
    command left behind: the files that were checked out are copied over
    the installation, [config.ini] is rewritten, and the process ends with
    status 0 and the message of success. *)
Theorem failed_checkout_is_installed :
  git_failed (CheckoutFailed partial_checkout) = true
  /\ fst (upgrade_autocrew plain_format short_traceback ini.read ini.write
            (CheckoutFailed partial_checkout) "2.2.0"
            (logging_ready installation))
     = Raise (SystemExit 0)
  /\ entry "autocrew.py"
       (cwd (snd (upgrade_autocrew plain_format short_traceback ini.read
                    ini.write (CheckoutFailed partial_checkout) "2.2.0"
                    (logging_ready installation))))
     = Some (File "AUTOCREW_VERSION = '2.2.0'")
  /\ entry "core.py"
       (cwd (snd (upgrade_autocrew plain_format short_traceback ini.read
                    ini.write (CheckoutFailed partial_checkout) "2.2.0"
                    (logging_ready installation))))
     = None
  /\ entry "config.ini" installation = Some (File user_settings)
  /\ entry "config.ini"
       (cwd (snd (upgrade_autocrew plain_format short_traceback ini.read
                    ini.write (CheckoutFailed partial_checkout) "2.2.0"
                    (logging_ready installation))))
     = Some (File (ini.write upgraded))
  /\ ini.write upgraded <> user_settings
  /\ stdout (snd (upgrade_autocrew plain_format short_traceback ini.read
                    ini.write (CheckoutFailed partial_checkout) "2.2.0"
                    (logging_ready installation)))
     = [Line "Backing up the current logfile to .backup/autocrew-upgrade-logfile_(v-2.1.4--to--v-2.2.0).log...";
        Line "Backing up the current config.ini file...";
        Line "Cloning the latest version from GitHub...";
        Line "Copied autocrew.py to the current directory.";
        Line "Updating the config.ini file with your previous settings...";
        Line "Cleaned up the update directory.";
        Line "Upgrade successful. AutoCrew has been updated from version 2.1.4 to version 2.2.0.";
        Line "Upgrade successful. AutoCrew has been updated from version 2.1.4 to version 2.2.0."].
Proof.
  repeat split; try (vm_compute; reflexivity).
  vm_compute. discriminate.
Qed.

(** C4: an upgrade on an installation whose setting is in the [DEFAULT]
    section of [config.ini].  The upgrade succeeds and the program files
    are replaced, but the loop of line 179 runs over [sections()], which
    leaves [DEFAULT] out: what is written to [config.ini] is the fetched
    document as it was read, and the setting of the user is in it
    nowhere. *)
Theorem upgrade_writes_the_fetched_settings :
  ini.read default_section_settings = inl defaults_only
  /\ ini.read default_settings = inl release_settings
  /\ fst (upgrade_autocrew plain_format short_traceback ini.read ini.write
            (Cloned release_tree) "2.2.0"
            (logging_ready default_section_installation))
     = Raise (SystemExit 0)
  /\ entry "config.ini"
       (cwd (snd (upgrade_autocrew plain_format short_traceback ini.read
                    ini.write (Cloned release_tree) "2.2.0"
                    (logging_ready default_section_installation))))
     = Some (File (ini.write release_settings))
  /\ ini.read (ini.write release_settings) = inl release_settings
  /\ get defaults_only "DEFAULT" "llm_endpoint" = Ok "ollama"
  /\ has_option release_settings "DEFAULT" "llm_endpoint" = false
  /\ get release_settings "BASIC" "llm_endpoint" = Ok "openai".
Proof. repeat split; vm_compute; reflexivity. Qed.

Lemma logging_ready_logs_into fs :
  logs_into log_file (handlers (logging_ready fs)).
Proof.
  intros h [<-|[<-|[]]] n Hn; simpl in Hn; [now injection Hn as <-|discriminate].
Qed.

Lemma failed_fetch_leaves_installation_witness :
  left_behind CloneFailed = None
  /\ logs_into log_file (handlers (logging_ready installation))
  /\ (exists cls msg,
        fst (upgrade_autocrew plain_format short_traceback ini.read ini.write
               CloneFailed "2.2.0" (logging_ready installation))
        = Raise (Exception cls msg))
  /\ entry "config.ini"
       (cwd (snd (upgrade_autocrew plain_format short_traceback ini.read
                    ini.write CloneFailed "2.2.0" (logging_ready installation))))
     = Some (File user_settings).
Proof.
  assert (H1 : left_behind CloneFailed = None) by reflexivity.
  pose proof (logging_ready_logs_into installation) as H2.
  split; [exact H1|]. split; [exact H2|].
  destruct (failed_fetch_leaves_installation plain_format short_traceback
              ini.read ini.write CloneFailed "2.2.0"
              (logging_ready installation) _ _ H1 H2
              (pair_eta _ _ eq_refl)) as (A & B & _).
  split; [exact A|]. rewrite B. reflexivity.
Defined.


(** C5: settings kept in the [DEFAULT] section of the previous
    configuration.  The loop of line 179 runs over [sections()], which
    leaves the defaults out; with no other section in the file nothing is
    carried over, and the merged document has the fetched value of the
    option and no default for it. *)
Theorem merge_drops_default_settings :
  has_option defaults_only "DEFAULT" "llm_endpoint" = true
  /\ get defaults_only "DEFAULT" "llm_endpoint" = Ok "ollama"
  /\ merge shipped defaults_only = Ok shipped
  /\ has_option shipped "DEFAULT" "llm_endpoint" = false
  /\ get shipped "BASIC" "llm_endpoint" = Ok "openai".
Proof. repeat split; vm_compute; reflexivity. Qed.

Lemma kept_well_formed : well_formed kept.
Proof.
  split; [intros k []|].
  intros s d [H|[H|[]]]; injection H as <- <-; (split; [reflexivity|]);
    intros k [<-|[]]; reflexivity.
Qed.

Lemma merge_is_idempotent_witness :
  well_formed kept
  /\ result_bind (merge shipped kept) (fun merged => merge merged kept)
     = merge shipped kept.
Proof.
  split; [exact kept_well_formed|].
  exact (merge_is_idempotent shipped kept kept_well_formed).
Defined.

(** C7: the backup on an installation that has a log but no
    [config.ini].  The copy of the log is guarded by [os.path.exists]
    (line 153), the copy of the configuration file (line 158) is not: the
    upgrade ends there with [FileNotFoundError], after the log went to the
    backup directory.  With the configuration file and no log the same
    lines run through. *)
Theorem backup_without_config_file_raises :
  entry "config.ini" unconfigured = None
  /\ fst (upgrade_autocrew plain_format short_traceback ini.read ini.write
            (Cloned release_tree) "2.2.0" (logging_ready unconfigured))
     = Raise (Exception FileNotFoundError "config.ini")
  /\ node_lookup [backup_dir; logfile_backup_name "2.2.0"]
       (cwd (snd (upgrade_autocrew plain_format short_traceback ini.read
                    ini.write (Cloned release_tree) "2.2.0"
                    (logging_ready unconfigured))))
     = Ok (File (lines ["log of the previous run"]))
  /\ fst (backup plain_format short_traceback "2.2.0" (logging_ready never_run))
     = Ok tt
  /\ entry backup_dir
       (cwd (snd (backup plain_format short_traceback "2.2.0"
                    (logging_ready never_run))))
     = Some (Dir (<["config_backup.ini" := File user_settings]> ∅)).
Proof. repeat split; vm_compute; reflexivity. Qed.

Lemma version_check_failure_is_contained_witness :
  fetch_latest_version (GetFails "Max retries exceeded")
  = Raise (Exception ConnectionError "Max retries exceeded")
  /\ check_latest_version (GetFails "Max retries exceeded")
     = Ok "Error checking for the latest version: Max retries exceeded"
  /\ fst (run plain_format short_traceback ini.read ini.write
            ["build a site"] (flags false false (Some "build a site")) []
            (GetFails "Max retries exceeded") CloneFailed installation [])
     = EntersWorkflow.
Proof.
  assert (H : fetch_latest_version (GetFails "Max retries exceeded")
              = Raise (Exception ConnectionError "Max retries exceeded"))
    by reflexivity.
  destruct (proj2 (version_check_failure_is_contained plain_format
                     short_traceback ini.read ini.write
                     (GetFails "Max retries exceeded")) _ _ H) as [A B].
  split; [exact H|]. split; [exact A|].
  destruct (B ["build a site"] (flags false false (Some "build a site")) []
              CloneFailed installation []) as [_ C].
  assert (Hi : fst (initialize_logging plain_format short_traceback ini.read
                      false None (boot installation [])) = Ok tt)
    by (vm_compute; reflexivity).
  exact (proj1 (C _ eq_refl eq_refl (pair_eta _ _ Hi))).
Defined.


Lemma initialize_logging_starts_afresh_witness :
  fst (config_read ini.read [config_file] stale_session) = Ok kept
  /\ console_level false kept = Ok (logging.Int logging.WARNING)
  /\ exists st',
       initialize_logging plain_format short_traceback ini.read false
         (Some "AutoCrew starts") stale_session = (Ok tt, st')
       /\ handlers st' = [file_handler; console_handler logging.WARNING]
       /\ entry log_file (cwd st')
          = Some (File (plain_format logging.INFO "AutoCrew starts" +:+ newline)).
Proof.
  assert (H1 : fst (config_read ini.read [config_file] stale_session) = Ok kept)
    by (vm_compute; reflexivity).
  assert (H2 : console_level false kept = Ok (logging.Int logging.WARNING))
    by (vm_compute; reflexivity).
  split; [exact H1|]. split; [exact H2|].
  destruct (initialize_logging_starts_afresh plain_format short_traceback
              ini.read false (Some "AutoCrew starts")
              stale_session _ kept (logging.Int logging.WARNING)
              eq_refl
              ltac:(intros sub; vm_compute; discriminate) H1 H2)
    as (st' & A & B & C & _).
  exists st'. auto.
Defined.

(** C10 as stated fails: in a directory whose [config.ini] does not parse
    the call ends at line 48, before the handlers are cleared and before
    the log file is opened; the handler of an earlier [basicConfig] is
    still there and the log holds what it held. *)
Lemma starts_afresh_claim_counterexample :
  fst (initialize_logging plain_format short_traceback ini.read false None
         (with_cwd unreadable stale_session))
  = Raise (Exception MissingSectionHeaderError "llm_endpoint = ollama")
  /\ handlers (snd (initialize_logging plain_format short_traceback ini.read
                      false None (with_cwd unreadable stale_session)))
     = [stale_handler]
  /\ entry log_file
       (cwd (snd (initialize_logging plain_format short_traceback ini.read
                    false None (with_cwd unreadable stale_session))))
     = Some (File (lines ["log of the previous run"]))
  /\ ~ starts_afresh_claim plain_format short_traceback ini.read false None
        (with_cwd unreadable stale_session).
Proof.
  split; [vm_compute; reflexivity|]. split; [vm_compute; reflexivity|].
  split; [vm_compute; reflexivity|].
  intros [H _]. apply H with (h := stale_handler); vm_compute; auto.
Qed.

(** ** The further properties on concrete runs *)

Lemma tidy_shipped : tidy shipped.
Proof.
  intros s d H. unfold section_of, shipped in H.
  cbn [sections_map dict_get] in H.
  destruct (String.eqb "BASIC" s); [|discriminate]. now injection H as <-.
Qed.

Lemma discounted_well_formed : well_formed discounted.
Proof.
  split; [intros k []|].
  intros s d [H|[]]; injection H as <- <-; (split; [reflexivity|]);
    intros k [<-|[]]; reflexivity.
Qed.

Lemma with_default_well_formed : well_formed with_default.
Proof.
  split; [intros k [<-|[]]; reflexivity|].
  intros s d [H|[]]; injection H as <- <-; (split; [reflexivity|]);
    intros k [<-|[]]; reflexivity.
Qed.

Lemma merged_settings_read_back_witness :
  well_formed kept
  /\ tidy shipped
  /\ merge shipped kept = Ok upgraded
  /\ items kept "BASIC" = Ok [("llm_endpoint", "ollama")]
  /\ get upgraded "BASIC" "llm_endpoint" = Ok "ollama".
Proof.
  assert (Hm : merge shipped kept = Ok upgraded) by (vm_compute; reflexivity).
  assert (Hi : items kept "BASIC" = Ok [("llm_endpoint", "ollama")])
    by (vm_compute; reflexivity).
  split; [exact kept_well_formed|]. split; [exact tidy_shipped|].
  split; [exact Hm|]. split; [exact Hi|].
  apply (merged_settings_read_back shipped kept upgraded "BASIC"
           [("llm_endpoint", "ollama")] "llm_endpoint" "ollama"
           kept_well_formed tidy_shipped Hm).
  - simpl. now left.
  - exact Hi.
  - now left.
  - reflexivity.
Defined.

Lemma merge_keeps_unset_options_witness :
  merge shipped kept = Ok upgraded
  /\ section_of shipped "BASIC"
     = Some [("llm_endpoint", "openai"); ("llm_context", "4096")]
  /\ exists d',
       section_of upgraded "BASIC" = Some d'
       /\ dict_get "llm_context" d' = Some "4096".
Proof.
  assert (Hm : merge shipped kept = Ok upgraded) by (vm_compute; reflexivity).
  split; [exact Hm|]. split; [reflexivity|].
  apply (merge_keeps_unset_options shipped kept upgraded "BASIC"
           [("llm_endpoint", "openai"); ("llm_context", "4096")]
           "llm_context" "4096" kept_well_formed Hm eq_refl eq_refl).
  intros settings H. vm_compute in H. injection H as <-. simpl.
  intros [E|[]]. discriminate E.
Defined.

Lemma merge_rejects_unsettable_value_witness :
  well_formed discounted
  /\ items discounted "APP" = Ok [("discount", "50%")]
  /\ ~ settable "50%"
  /\ exists cls msg, merge shipped discounted = Raise (Exception cls msg).
Proof.
  assert (Hi : items discounted "APP" = Ok [("discount", "50%")])
    by (vm_compute; reflexivity).
  assert (Hs : ~ settable "50%")
    by (intros H; vm_compute in H; discriminate H).
  split; [exact discounted_well_formed|]. split; [exact Hi|].
  split; [exact Hs|].
  apply (merge_rejects_unsettable_value shipped discounted "APP"
           [("discount", "50%")] "discount" "50%" discounted_well_formed);
    [now left|exact Hi|now left|exact Hs].
Defined.

Lemma merge_spreads_defaults_witness :
  well_formed with_default
  /\ dict_has "timeout" (defaults with_default) = true
  /\ exists merged,
       merge shipped with_default = Ok merged
       /\ holds merged "BASIC" "timeout".
Proof.
  split; [exact with_default_well_formed|]. split; [reflexivity|].
  eexists. split; [vm_compute; reflexivity|].
  apply (merge_spreads_defaults shipped with_default _ "BASIC" "timeout"
           with_default_well_formed);
    [vm_compute; reflexivity|now left|reflexivity].
Defined.

Lemma merged_sections_are_the_union_witness :
  well_formed kept
  /\ merge shipped kept = Ok upgraded
  /\ (has_section upgraded "MISCELLANEOUS" = true
      <-> has_section shipped "MISCELLANEOUS" = true
          \/ In "MISCELLANEOUS" (sections kept)).
Proof.
  assert (Hm : merge shipped kept = Ok upgraded) by (vm_compute; reflexivity).
  split; [exact kept_well_formed|]. split; [exact Hm|].
  exact (proj1 (merged_sections_are_the_union shipped kept upgraded
                  "MISCELLANEOUS" kept_well_formed Hm)).
Defined.

Lemma run_changes_only_the_log_witness :
  "config.ini" <> log_file
  /\ entry "config.ini"
       (cwd (snd (run plain_format short_traceback ini.read ini.write
                    ["--upgrade"] (flags true false None) [] newer_release
                    (Cloned release_tree) installation [])))
     = entry "config.ini" installation.
Proof.
  assert (H : "config.ini" <> log_file) by discriminate.
  split; [exact H|].
  exact (run_changes_only_the_log plain_format short_traceback ini.read
           ini.write ["--upgrade"] (flags true false None) [] newer_release
           (Cloned release_tree) installation [] "config.ini" H).
Defined.

Lemma backup_holds_log_and_settings_witness :
  logs_into log_file (handlers (logging_ready installation))
  /\ entry log_file (cwd (logging_ready installation))
     = Some (File (lines ["log of the previous run"]))
  /\ fst (backup plain_format short_traceback "2.2.0"
            (logging_ready installation)) = Ok tt
  /\ node_lookup [backup_dir; logfile_backup_name "2.2.0"]
       (cwd (snd (backup plain_format short_traceback "2.2.0"
                    (logging_ready installation))))
     = Ok (File (lines ["log of the previous run"])).
Proof.
  pose proof (logging_ready_logs_into installation) as H1.
  assert (H2 : entry log_file (cwd (logging_ready installation))
               = Some (File (lines ["log of the previous run"])))
    by (vm_compute; reflexivity).
  assert (H3 : fst (backup plain_format short_traceback "2.2.0"
                      (logging_ready installation)) = Ok tt)
    by (vm_compute; reflexivity).
  split; [exact H1|]. split; [exact H2|]. split; [exact H3|].
  destruct (backup_holds_log_and_settings plain_format short_traceback "2.2.0"
              (logging_ready installation) _ _ H1 H2 (pair_eta _ _ H3))
    as (previous & _ & B & _).
  exact B.
Defined.

Lemma upgrade_keeps_the_previous_settings_witness :
  logs_into log_file (handlers (logging_ready installation))
  /\ fst (upgrade_autocrew plain_format short_traceback ini.read ini.write
            (Cloned release_tree) "2.2.0" (logging_ready installation))
     = Raise (SystemExit 0)
  /\ exists previous,
       entry "config.ini" installation = Some (File previous)
       /\ node_lookup config_backup_path
            (cwd (snd (upgrade_autocrew plain_format short_traceback ini.read
                         ini.write (Cloned release_tree) "2.2.0"
                         (logging_ready installation))))
          = Ok (File previous)
       /\ entry update_dir
            (cwd (snd (upgrade_autocrew plain_format short_traceback ini.read
                         ini.write (Cloned release_tree) "2.2.0"
                         (logging_ready installation))))
          = None.
Proof.
  pose proof (logging_ready_logs_into installation) as H1.
  assert (H2 : fst (upgrade_autocrew plain_format short_traceback ini.read
                      ini.write (Cloned release_tree) "2.2.0"
                      (logging_ready installation))
               = Raise (SystemExit 0)) by (vm_compute; reflexivity).
  split; [exact H1|]. split; [exact H2|].
  exact (upgrade_keeps_the_previous_settings plain_format short_traceback
           ini.read ini.write release_tree "2.2.0"
           (logging_ready installation) _ H1 (pair_eta _ _ H2)).
Defined.

Lemma upgrade_installs_regular_files_only_witness :
  logs_into log_file (handlers (logging_ready installation))
  /\ fst (upgrade_autocrew plain_format short_traceback ini.read ini.write
            (Cloned release_tree) "2.2.0" (logging_ready installation))
     = Raise (SystemExit 0)
  /\ release_tree !! ".git" = Some (Dir ∅)
  /\ entry ".git"
       (cwd (snd (upgrade_autocrew plain_format short_traceback ini.read
                    ini.write (Cloned release_tree) "2.2.0"
                    (logging_ready installation))))
     = entry ".git" installation.
Proof.
  pose proof (logging_ready_logs_into installation) as H1.
  assert (H2 : fst (upgrade_autocrew plain_format short_traceback ini.read
                      ini.write (Cloned release_tree) "2.2.0"
                      (logging_ready installation))
               = Raise (SystemExit 0)) by (vm_compute; reflexivity).
  assert (H3 : release_tree !! ".git" = Some (Dir ∅))
    by (vm_compute; reflexivity).
  split; [exact H1|]. split; [exact H2|]. split; [exact H3|].
  apply (upgrade_installs_regular_files_only plain_format short_traceback
           ini.read ini.write release_tree "2.2.0"
           (logging_ready installation) _ ".git" H1 (pair_eta _ _ H2));
    discriminate.
Defined.

Lemma failed_upgrade_keeps_the_settings_witness :
  logs_into log_file (handlers (logging_ready discount_installation))
  /\ fst (upgrade_autocrew plain_format short_traceback ini.read ini.write
            (Cloned release_tree) "2.2.0"
            (logging_ready discount_installation))
     = Raise (Exception ValueError "invalid interpolation syntax in '50%' at position 2")
  /\ entry "config.ini"
       (cwd (snd (upgrade_autocrew plain_format short_traceback ini.read
                    ini.write (Cloned release_tree) "2.2.0"
                    (logging_ready discount_installation))))
     = entry "config.ini" discount_installation.
Proof.
  pose proof (logging_ready_logs_into discount_installation) as H1.
  assert (H2 : fst (upgrade_autocrew plain_format short_traceback ini.read
                      ini.write (Cloned release_tree) "2.2.0"
                      (logging_ready discount_installation))
               = Raise (Exception ValueError
                          "invalid interpolation syntax in '50%' at position 2"))
    by (vm_compute; reflexivity).
  split; [exact H1|]. split; [exact H2|].
  exact (failed_upgrade_keeps_the_settings plain_format short_traceback
           ini.read ini.write release_tree "2.2.0"
           (logging_ready discount_installation) _ _ _ H1 (pair_eta _ _ H2)).
Defined.

Lemma positive_int_runs_out_of_input_witness :
  pyint.int "three" = None
  /\ Forall (fun l => pyint.int l = None) ["x"; "y"]
  /\ exists st',
       positive_int "three" (boot installation ["x"; "y"])
       = (Raise (Exception EOFError "EOF when reading a line"), st')
       /\ stdin st' = []
       /\ stdout st' = [prompt; invalid_input; invalid_input].
Proof.
  assert (H1 : pyint.int "three" = None) by reflexivity.
  assert (H2 : Forall (fun l => pyint.int l = None) ["x"; "y"])
    by (repeat constructor).
  split; [exact H1|]. split; [exact H2|].
  destruct (positive_int_runs_out_of_input "three"
              (boot installation ["x"; "y"]) H1 H2) as (st' & A & B & C & _).
  exists st'. split; [exact A|]. split; [exact B|exact C].
Defined.

Lemma console_level_follows_the_settings_witness :
  fst (config_read ini.read [config_file] (boot lowercase []))
  = Ok lowercase_settings
  /\ get lowercase_settings "MISCELLANEOUS" "on_screen_logging_level"
     = Ok "warning"
  /\ exists st',
       initialize_logging plain_format short_traceback ini.read false None
         (boot lowercase []) = (Ok tt, st')
       /\ handlers st' = [file_handler; console_handler logging.WARNING].
Proof.
  assert (H1 : fst (config_read ini.read [config_file] (boot lowercase []))
               = Ok lowercase_settings) by (vm_compute; reflexivity).
  assert (H2 : get lowercase_settings "MISCELLANEOUS" "on_screen_logging_level"
               = Ok "warning") by (vm_compute; reflexivity).
  split; [exact H1|]. split; [exact H2|].
  apply (console_level_follows_the_settings plain_format short_traceback
           ini.read false None (boot lowercase []) _ lowercase_settings
           "warning" logging.WARNING eq_refl);
    [intros sub; vm_compute; discriminate|exact H1|reflexivity|exact H2|
     reflexivity].
Defined.

Lemma missing_settings_give_an_info_console_witness :
  entry config_file unconfigured = None
  /\ exists st',
       initialize_logging plain_format short_traceback ini.read false None
         (boot unconfigured []) = (Ok tt, st')
       /\ handlers st' = [file_handler; console_handler logging.INFO].
Proof.
  split; [vm_compute; reflexivity|].
  apply (missing_settings_give_an_info_console plain_format short_traceback
           ini.read false None (boot unconfigured []) _ eq_refl);
    [vm_compute; reflexivity|intros sub; vm_compute; discriminate].
Defined.

Lemma install_is_not_attempted_without_its_means_witness :
  entry "requirements.txt" (cwd (boot installation [])) = None
  /\ exists e,
       install_dependencies plain_format short_traceback only_pip3
         (PipRan 0 "" "" (fun n => n)) (boot installation [])
       = (Ok (inl e), boot installation []).
Proof.
  assert (H : entry "requirements.txt" (cwd (boot installation [])) = None)
    by (vm_compute; reflexivity).
  split; [exact H|].
  destruct (install_is_not_attempted_without_its_means plain_format
              short_traceback only_pip3 (PipRan 0 "" "" (fun n => n))
              (boot installation []) (or_introl H)) as (e & A & _).
  exists e. exact A.
Defined.

Lemma install_reports_what_pip_returns_witness :
  entry "requirements.txt" (cwd (logging_ready with_requirements))
  = Some (File (lines ["requests"; "packaging"]))
  /\ found (only_pip3 "pip") || found (only_pip3 "pip3") = true
  /\ exists st',
       install_dependencies plain_format short_traceback only_pip3
         (PipRan 1 "" "ERROR: No matching distribution" (fun n => n))
         (logging_ready with_requirements)
       = (Ok (inl (InstallFailed "Failed to install dependencies.")), st')
       /\ stdout st'
          = [Line "Installing dependencies...";
             Line "Error occurred while installing dependencies:";
             Line ""; Line "ERROR: No matching distribution"].
Proof.
  assert (H1 : entry "requirements.txt" (cwd (logging_ready with_requirements))
               = Some (File (lines ["requests"; "packaging"])))
    by (vm_compute; reflexivity).
  assert (H2 : found (only_pip3 "pip") || found (only_pip3 "pip3") = true)
    by reflexivity.
  split; [exact H1|]. split; [exact H2|].
  destruct (install_reports_what_pip_returns plain_format short_traceback
              only_pip3 1 "" "ERROR: No matching distribution" (fun n => n)
              logging.INFO (logging_ready with_requirements) _ H1 H2
              eq_refl eq_refl) as (st' & A & B).
  exists st'. split; [exact A|exact B].
Defined.

Lemma hook_records_the_exception_witness :
  entry log_file (cwd (logging_ready installation))
  = Some (File (lines ["log of the previous run"]))
  /\ exists st',
       handle_exception plain_format short_traceback
         (Exception KeyError "'tag_name'") (logging_ready installation)
       = (Ok tt, st')
       /\ entry log_file (cwd st')
          = Some (File (lines ["log of the previous run"]
                        +:+ uncaught plain_format short_traceback
                              (Exception KeyError "'tag_name'")))
       /\ stderr st' = [].
Proof.
  assert (H : entry log_file (cwd (logging_ready installation))
              = Some (File (lines ["log of the previous run"])))
    by (vm_compute; reflexivity).
  split; [exact H|].
  destruct (hook_records_the_exception plain_format short_traceback KeyError
              "'tag_name'" logging.INFO (lines ["log of the previous run"])
              (logging_ready installation) eq_refl eq_refl H)
    as (st' & A & B & _ & C & _).
  exists st'. split; [exact A|]. split; [exact B|exact C].
Defined.

(** ** The whole of [main] on concrete runs *)

Lemma unrecognized_argument_is_usage_error_witness :
  parse_known_args (accepted (flags true false None) ["--bogus"])
    (boot installation [])
  = (Ok (flags true false None, ["--bogus"]), boot installation [])
  /\ upgrade (flags true false None) || help (flags true false None) = true
  /\ fst (launch plain_format short_traceback ini.read ini.write
            ["--upgrade"; "--bogus"]
            (accepted (flags true false None) ["--bogus"])
            connection_records up_to_date CloneFailed installation [])
     = Exits 1
  /\ entry "config.ini"
       (cwd (snd (launch plain_format short_traceback ini.read ini.write
                    ["--upgrade"; "--bogus"]
                    (accepted (flags true false None) ["--bogus"])
                    connection_records up_to_date CloneFailed installation [])))
     = entry "config.ini" installation.
Proof.
  assert (H1 : parse_known_args (accepted (flags true false None) ["--bogus"])
                 (boot installation [])
               = (Ok (flags true false None, ["--bogus"]),
                  boot installation [])) by reflexivity.
  assert (H2 : upgrade (flags true false None) || help (flags true false None)
               = true) by reflexivity.
  destruct (unrecognized_argument_is_usage_error plain_format short_traceback
              ini.read ini.write ["--upgrade"; "--bogus"]
              (accepted (flags true false None) ["--bogus"])
              connection_records up_to_date CloneFailed installation []
              _ _ _ _ H1 H2) as (A & B & _).
  split; [exact H1|]. split; [exact H2|]. split; [exact A|].
  apply B. discriminate.
Defined.

Lemma upgrade_flag_ends_in_invalid_version_witness :
  parse_known_args (accepted (flags true false None) []) (boot installation [])
  = (Ok (flags true false None, []), boot installation [])
  /\ upgrade (flags true false None) = true
  /\ check_latest_version newer_release
     = Ok "An updated version of AutoCrew is available: 2.2.0"
  /\ fst (launch plain_format short_traceback ini.read ini.write
            ["--upgrade"] (accepted (flags true false None) [])
            connection_records newer_release (Cloned release_tree)
            installation []) = Exits 1.
Proof.
  assert (H1 : parse_known_args (accepted (flags true false None) [])
                 (boot installation [])
               = (Ok (flags true false None, []), boot installation []))
    by reflexivity.
  split; [exact H1|]. split; [reflexivity|]. split; [reflexivity|].
  exact (proj1 (upgrade_flag_ends_in_invalid_version plain_format
                  short_traceback ini.read ini.write ["--upgrade"]
                  (accepted (flags true false None) []) connection_records
                  newer_release (Cloned release_tree) installation []
                  _ _ H1 eq_refl)).
Defined.

Lemma help_flag_prints_help_witness :
  parse_known_args (accepted (flags false true None) []) (boot installation [])
  = (Ok (flags false true None, []), boot installation [])
  /\ upgrade (flags false true None) = false
  /\ help (flags false true None) = true
  /\ fst (initialize_logging plain_format short_traceback ini.read false None
            (boot installation [])) = Ok tt
  /\ fst (launch plain_format short_traceback ini.read ini.write
            ["--help"] (accepted (flags false true None) [])
            connection_records up_to_date CloneFailed installation [])
     = Exits 0
  /\ entry log_file
       (cwd (snd (launch plain_format short_traceback ini.read ini.write
                    ["--help"] (accepted (flags false true None) [])
                    connection_records up_to_date CloneFailed
                    installation [])))
     = Some (File (log_opening plain_format ["--help"] connection_records
                     "You are running the latest version of AutoCrew.")).
Proof.
  assert (H1 : parse_known_args (accepted (flags false true None) [])
                 (boot installation [])
               = (Ok (flags false true None, []), boot installation []))
    by reflexivity.
  assert (Hi : fst (initialize_logging plain_format short_traceback ini.read
                      false None (boot installation [])) = Ok tt)
    by (vm_compute; reflexivity).
  split; [exact H1|]. split; [reflexivity|]. split; [reflexivity|].
  split; [exact Hi|].
  destruct (help_flag_prints_help plain_format short_traceback ini.read
              ini.write ["--help"] (accepted (flags false true None) [])
              connection_records up_to_date CloneFailed installation []
              _ _ _ H1 eq_refl eq_refl (pair_eta _ _ Hi))
    as (A & _ & vm & Hc & B).
  split; [exact A|]. rewrite B. injection Hc as <-. reflexivity.
Defined.

Lemma log_starts_with_the_command_line_witness :
  parse_known_args (accepted (flags false false (Some "build a site")) [])
    (boot installation [])
  = (Ok (flags false false (Some "build a site"), []), boot installation [])
  /\ fst (initialize_logging plain_format short_traceback ini.read false None
            (boot installation [])) = Ok tt
  /\ exists version_message rest,
       check_latest_version up_to_date = Ok version_message
       /\ entry log_file
            (cwd (snd (launch plain_format short_traceback ini.read ini.write
                         ["build a site"]
                         (accepted (flags false false (Some "build a site")) [])
                         connection_records up_to_date CloneFailed
                         installation [])))
          = Some (File (log_opening plain_format ["build a site"]
                          connection_records version_message +:+ rest)).
Proof.
  assert (H1 : parse_known_args
                 (accepted (flags false false (Some "build a site")) [])
                 (boot installation [])
               = (Ok (flags false false (Some "build a site"), []),
                  boot installation [])) by reflexivity.
  assert (Hi : fst (initialize_logging plain_format short_traceback ini.read
                      false None (boot installation [])) = Ok tt)
    by (vm_compute; reflexivity).
  split; [exact H1|]. split; [exact Hi|].
  exact (log_starts_with_the_command_line plain_format short_traceback
           ini.read ini.write ["build a site"]
           (accepted (flags false false (Some "build a site")) [])
           connection_records up_to_date CloneFailed installation []
           _ _ _ _ H1 (pair_eta _ _ Hi)).
Defined.

Lemma unreadable_settings_stop_every_run_witness :
  fst (parse_known_args three_scripts (boot headless ["x"; "3"]))
  = Ok (set_multiple (Some 3%Z) (flags false true None), [])
  /\ entry config_file headless = Some (File (lines ["llm_endpoint = ollama"]))
  /\ ini.read (lines ["llm_endpoint = ollama"])
     = inr (MissingSectionHeaderError, "llm_endpoint = ollama")
  /\ fst (launch plain_format short_traceback ini.read ini.write
            ["--help"; "-m"; "three"] three_scripts connection_records
            up_to_date CloneFailed headless ["x"; "3"]) = Exits 1
  /\ stderr (snd (launch plain_format short_traceback ini.read ini.write
                    ["--help"; "-m"; "three"] three_scripts connection_records
                    up_to_date CloneFailed headless ["x"; "3"]))
     = [Traceback (Exception MissingSectionHeaderError
                     "llm_endpoint = ollama")]
  /\ stdout (snd (launch plain_format short_traceback ini.read ini.write
                    ["--help"; "-m"; "three"] three_scripts connection_records
                    up_to_date CloneFailed headless ["x"; "3"]))
     = [prompt; invalid_input].
Proof.
  assert (H0 : fst (parse_known_args three_scripts (boot headless ["x"; "3"]))
               = Ok (set_multiple (Some 3%Z) (flags false true None), []))
    by (vm_compute; reflexivity).
  assert (H1 : entry config_file headless
               = Some (File (lines ["llm_endpoint = ollama"])))
    by (vm_compute; reflexivity).
  assert (H2 : ini.read (lines ["llm_endpoint = ollama"])
               = inr (MissingSectionHeaderError, "llm_endpoint = ollama"))
    by (vm_compute; reflexivity).
  split; [exact H0|]. split; [exact H1|]. split; [exact H2|].
  destruct (unreadable_settings_stop_every_run plain_format short_traceback
              ini.read ini.write ["--help"; "-m"; "three"] three_scripts
              connection_records up_to_date CloneFailed headless ["x"; "3"]
              _ _ _ _ _ _ (pair_eta _ _ H0) H1 H2) as (A & _ & B).
  rewrite A. cbn [fst snd]. split; [reflexivity|].
  split; [cbn [stderr write_stream]; rewrite B; reflexivity|].
  vm_compute. reflexivity.
Defined.

Lemma refused_command_line_exits_with_status_2_witness :
  fst (parse_known_args zero_scripts (boot installation []))
  = Raise (SystemExit 2)
  /\ launch plain_format short_traceback ini.read ini.write
       ["--upgrade"; "--bogus"; "-m"; "0"] zero_scripts connection_records
       up_to_date CloneFailed installation []
     = (Exits 2,
        {| cwd := installation; root_level := logging.WARNING; handlers := [];
           stdout := [];
           stderr :=
             [UsageText;
              Line "autocrew.py: error: argument -m/--multiple: 0 is an invalid positive int value"];
           stdin := []; excepthook := false |}).
Proof.
  assert (H0 : fst (parse_known_args zero_scripts (boot installation []))
               = Raise (SystemExit 2)) by (vm_compute; reflexivity).
  split; [exact H0|].
  rewrite (proj1 (refused_command_line_exits_with_status_2 plain_format
                    short_traceback ini.read ini.write
                    ["--upgrade"; "--bogus"; "-m"; "0"] zero_scripts
                    connection_records up_to_date CloneFailed installation []
                    _ _ (pair_eta _ _ H0))).
  vm_compute. reflexivity.
Defined.

Lemma launch_changes_only_the_log_witness :
  "config.ini" <> log_file
  /\ entry "config.ini"
       (cwd (snd (launch plain_format short_traceback ini.read ini.write
                    ["--upgrade"] (accepted (flags true false None) [])
                    connection_records newer_release (Cloned release_tree)
                    installation [])))
     = Some (File user_settings).
Proof.
  assert (H : "config.ini" <> log_file) by discriminate.
  split; [exact H|].
  rewrite (launch_changes_only_the_log plain_format short_traceback ini.read
             ini.write ["--upgrade"] (accepted (flags true false None) [])
             connection_records newer_release (Cloned release_tree)
             installation [] "config.ini" H).
  reflexivity.
Defined.

Lemma positive_int_reads_decimal_numerals_witness :
  (N.of_nat (String.length (decimal 250)) <= pyint.max_str_digits)%N
  /\ positive_int "250" (boot installation [])
     = (Ok 250%Z, boot installation []).
Proof.
  assert (H : (N.of_nat (String.length (decimal 250))
               <= pyint.max_str_digits)%N)
    by (apply N.leb_le; reflexivity).
  split; [exact H|].
  exact (positive_int_reads_decimal_numerals 250 (boot installation []) H).
Defined.

Lemma newer_releases_are_announced_witness :
  (digits_of 2 <= pyint.max_str_digits)%N
  /\ (digits_of 10 <= pyint.max_str_digits)%N
  /\ (digits_of 0 <= pyint.max_str_digits)%N
  /\ check_latest_version
       (Response 200 "OK" (JsonBody (JObject [("tag_name", JString "v2.10.0")])))
     = Ok "An updated version of AutoCrew is available: v2.10.0".
Proof.
  assert (Ha : (digits_of 2 <= pyint.max_str_digits)%N)
    by (apply N.leb_le; reflexivity).
  assert (Hb : (digits_of 10 <= pyint.max_str_digits)%N)
    by (apply N.leb_le; reflexivity).
  assert (Hc : (digits_of 0 <= pyint.max_str_digits)%N)
    by (apply N.leb_le; reflexivity).
  split; [exact Ha|]. split; [exact Hb|]. split; [exact Hc|].
  exact (newer_releases_are_announced true 2 10 0 Ha Hb Hc).
Defined.
